(** * pyArbTools: waveform formatting, PDW encoding and symbol mapping

    A shallow embedding of the computational core of [pyArbTools.py]:
    the per-instrument [check_wfm] / [check_resolution] methods, the
    I/Q combiners and the download methods, the UXG
    pulse-descriptor-word builders and its waveform index file, the
    Barker generator, the constellation modulators, the symbol stage of
    the PRBS generator and the time vector of the pulse-shaping
    filters, together with the properties stated about them.

    Conventions.
    - Python [int] is [Z]; the bit operators are [Z.lor], [Z.land],
      [Z.shiftl], [Z.shiftr].
    - A Python [float] and a NumPy [float64] are IEEE 754 binary64
      values ([Float.t]): a finite value is the rational number it
      denotes, and every operation rounds its exact result to the nearest
      binary64 value, ties to even, or overflows to an infinity.  The
      sign of a zero is not kept; nothing below depends on it.  The
      cosine and the sine of the C library are parameters of the
      definitions that call them.  The constellation points and the
      time vector of the filters, which are compared but never rounded
      to integers, are kept as exact rationals.
    - An exception is a value of [exn]; a call returns [Ok v] or
      [Raise e].  Methods that assign attributes of [self] return the
      new object next to the outcome, so that assignments made before a
      [raise] stay visible.
    - The SCPI socket is outside the model: a method that talks to the
      instrument returns the list of what it sends, and takes the
      instrument's replies as arguments. *)

From Stdlib Require Import ZArith QArith Qround Qabs Qpower List String Ascii Lia.
From Stdlib Require Import DecimalString Strings.Byte.
From Stdlib Require Import DecimalZ DecimalPos.
From Stdlib Require Lqa.
From stdpp Require Import gmap strings.

Local Open Scope string_scope.
Local Open Scope Z_scope.

(** ** Binary64 floating point *)

Module Float.

(** A binary64 value: finite, the rational number [q] it denotes; an
    infinity; or not a number.  The operations below return binary64
    values; as an argument any rational may stand, the binary64 ones
    among them. *)
Inductive t : Type :=
| Finite (q : Q)
| Infinity (negative : bool)
| NaN.

Definition pow2 (e : Z) : Q := (2 ^ e)%Q.

(** [floor(log2(abs(x)))] for [x] other than zero. *)
Definition ilog2 (x : Q) : Z :=
  let k := Z.log2 (Z.abs (Qnum x)) - Z.log2 (Z.pos (Qden x)) in
  if Qle_bool (pow2 k) (Qabs x) then k else k - 1.

(** The nearest integer, a tie going to the even one. *)
Definition rne (x : Q) : Z :=
  let f := Qfloor x in
  match (x - inject_Z f ?= 1 # 2)%Q with
  | Lt => f
  | Gt => f + 1
  | Eq => if Z.even f then f else f + 1
  end.

(** The exponent of the unit in the last place of the binade of [x]:
    53 significant bits, and [2 ** -1074] for the subnormal numbers. *)
Definition ulp_exp (x : Q) : Z := Z.max (ilog2 x - 52) (-1074).

(** The nearest multiple of the unit in the last place, a tie going to
    the even one: rounding to binary64 apart from the overflow. *)
Definition rnd (x : Q) : Q :=
  if Qeq_bool x 0 then 0%Q
  else let e := ulp_exp x in Qred (inject_Z (rne (x / pow2 e)) * pow2 e).

Definition is_neg (x : Q) : bool := negb (Qle_bool 0 x).

(** Rounding of an exact result to binary64: what rounds to
    [2 ** 1024] or beyond is an infinity. *)
Definition round (x : Q) : t :=
  let r := rnd x in
  if Qle_bool (pow2 1024) (Qabs r) then Infinity (is_neg r) else Finite r.

(** The float of a decimal literal such as [0.005] or [1e12]. *)
Definition literal (x : Q) : t := round x.

(** The float a Python [int] below [2 ** 1024] turns into when it
    meets a float in an arithmetic operation. *)
Definition of_Z (n : Z) : t := round (inject_Z n).

(** [a * b]. *)
Definition mul (a b : t) : t :=
  match a, b with
  | NaN, _ | _, NaN => NaN
  | Finite x, Finite y => round (x * y)
  | Infinity s, Finite y | Finite y, Infinity s =>
      if Qeq_bool y 0 then NaN else Infinity (xorb s (is_neg y))
  | Infinity s, Infinity s' => Infinity (xorb s s')
  end.

(** [a + b]. *)
Definition add (a b : t) : t :=
  match a, b with
  | NaN, _ | _, NaN => NaN
  | Finite x, Finite y => round (x + y)
  | Infinity s, Finite _ | Finite _, Infinity s => Infinity s
  | Infinity s, Infinity s' => if Bool.eqb s s' then Infinity s else NaN
  end.

(** [a / b] as the hardware divides; Python raises on a zero divisor
    instead ([Py.truediv]). *)
Definition div (a b : t) : t :=
  match a, b with
  | NaN, _ | _, NaN => NaN
  | Finite x, Finite y =>
      if Qeq_bool y 0 then (if Qeq_bool x 0 then NaN else Infinity (is_neg x))
      else round (x / y)
  | Finite _, Infinity _ => Finite 0
  | Infinity s, Finite y => Infinity (xorb s (is_neg y))
  | Infinity _, Infinity _ => NaN
  end.

(** [b == 0]. *)
Definition is_zero (b : t) : bool :=
  match b with
  | Finite y => Qeq_bool y 0
  | _ => false
  end.

(** The integer part of a rational, toward zero. *)
Definition trunc (x : Q) : Z := Z.quot (Qnum x) (Z.pos (Qden x)).

End Float.

(** ** Python values and exceptions *)

Module Py.

Inductive exn : Type :=
| AwgError (msg : string)
| VsgError (msg : string)
| ValueError (msg : string)
| KeyError (key : string)
| IndexError (msg : string)
| OverflowError (msg : string)
| ZeroDivisionError
| OSError (path : string).

Inductive result (A : Type) : Type :=
| Ok (a : A)
| Raise (e : exn).
Arguments Ok {A} a.
Arguments Raise {A} e.

Definition bind {A B : Type} (r : result A) (k : A -> result B) : result B :=
  match r with
  | Ok a => k a
  | Raise e => Raise e
  end.

Definition is_ok {A : Type} (r : result A) : Prop :=
  match r with Ok _ => True | Raise _ => False end.

Definition is_raise {A : Type} (r : result A) : Prop :=
  match r with Ok _ => False | Raise _ => True end.

(** A list comprehension whose body may raise: evaluated left to
    right, the first exception ends it. *)
Fixpoint comprehension {A B : Type} (f : A -> result B) (l : list A)
  : result (list B) :=
  match l with
  | [] => Ok []
  | a :: l' =>
      bind (f a) (fun b => bind (comprehension f l') (fun bs => Ok (b :: bs)))
  end.

(** [int(x)] on a float: truncation toward zero; an infinity and a
    NaN have no integer. *)
Definition int (x : Float.t) : result Z :=
  match x with
  | Float.Finite q => Ok (Float.trunc q)
  | Float.Infinity _ =>
      Raise (OverflowError "cannot convert float infinity to integer")
  | Float.NaN => Raise (ValueError "cannot convert float NaN to integer")
  end.

(** [a / b] on floats. *)
Definition truediv (a b : Float.t) : result Float.t :=
  if Float.is_zero b then Raise ZeroDivisionError else Ok (Float.div a b).

(** [str(n)] and [f'{n}'] on an integer. *)
Definition str (n : Z) : string := NilZero.string_of_int (Z.to_int n).

(** ** Strings *)

(** [needle in hay]. *)
Fixpoint contains (needle hay : string) : bool :=
  String.prefix needle hay
  || match hay with
     | EmptyString => false
     | String _ hay' => contains needle hay'
     end.

(** [s.split(sep)[-1]] for a one-character separator: the text after
    the last occurrence of [sep], or all of [s] when there is none. *)
Fixpoint split_last_from (sep : ascii) (cur s : string) : string :=
  match s with
  | EmptyString => cur
  | String c s' =>
      if Ascii.eqb c sep then split_last_from sep s' s'
      else split_last_from sep cur s'
  end.

Definition split_last (sep : ascii) (s : string) : string :=
  split_last_from sep s s.

(** White space for [str.strip()], among the code points below 256:
    tab to carriage return, the four separators 28 to 31, the space,
    NEL (133) and the no-break space (160). *)
Definition is_space (c : ascii) : bool :=
  let n := N_of_ascii c in
  (N.eqb n 32 || (N.leb 9 n && N.leb n 13) || (N.leb 28 n && N.leb n 31) ||
   N.eqb n 133 || N.eqb n 160)%N.

(** White space for [int()]: the parser skips the C white space, and a
    string that is not ASCII has its Unicode spaces replaced by a space
    before; the separators 28 to 31 are copied and not skipped. *)
Definition is_int_space (c : ascii) : bool :=
  let n := N_of_ascii c in
  (N.eqb n 32 || (N.leb 9 n && N.leb n 13) || N.eqb n 133 || N.eqb n 160)%N.

(** Removal of the leading and of the trailing characters that
    satisfy [space]. *)
Fixpoint lstrip (space : ascii -> bool) (s : string) : string :=
  match s with
  | String c s' => if space c then lstrip space s' else s
  | EmptyString => EmptyString
  end.

Fixpoint rstrip (space : ascii -> bool) (s : string) : string :=
  match s with
  | EmptyString => EmptyString
  | String c s' =>
      match rstrip space s' with
      | EmptyString => if space c then EmptyString else String c EmptyString
      | t => String c t
      end
  end.

Definition digit_of (c : ascii) : option Z :=
  let n := N_of_ascii c in
  if (N.leb 48 n && N.leb n 57)%N then Some (Z.of_N n - 48) else None.

(** Digits of a decimal literal, most significant first; [acc] is the
    value read so far.  A single underscore may separate two digits. *)
Fixpoint digits (acc : Z) (after_digit : bool) (s : string) : option Z :=
  match s with
  | EmptyString => if after_digit then Some acc else None
  | String c s' =>
      match digit_of c with
      | Some d => digits (10 * acc + d) true s'
      | None =>
          if Ascii.eqb c "_" && after_digit then
            match s' with
            | String c' _ =>
                match digit_of c' with
                | Some _ => digits acc false s'
                | None => None
                end
            | EmptyString => None
            end
          else None
      end
  end.

(** [int(s)] on a string of code points below 256, base 10:
    surrounding white space, an optional sign, then digits. *)
Definition int_of_str (s : string) : result Z :=
  let t := rstrip is_int_space (lstrip is_int_space s) in
  let parsed :=
    match t with
    | String "-" t' => option_map Z.opp (digits 0 false t')
    | String "+" t' => digits 0 false t'
    | _ => digits 0 false t
    end in
  match parsed with
  | Some n => Ok n
  | None =>
      Raise (ValueError ("invalid literal for int() with base 10: '" +:+ s +:+ "'"))
  end.

(** [s.strip()] on a string of code points below 256. *)
Definition strip (s : string) : string := rstrip is_space (lstrip is_space s).

(** [s.split(sep)] for a one-character separator. *)
Fixpoint split (sep : ascii) (s : string) : list string :=
  match s with
  | EmptyString => [EmptyString]
  | String c s' =>
      if Ascii.eqb c sep then EmptyString :: split sep s'
      else
        match split sep s' with
        | t :: ts => String c t :: ts
        | [] => [String c EmptyString]
        end
  end.

(** [sep.join(fields)]. *)
Fixpoint join (sep : string) (fields : list string) : string :=
  match fields with
  | [] => EmptyString
  | [f] => f
  | f :: fields' => f +:+ sep +:+ join sep fields'
  end.

(** [l[-k]] for [k >= 1]. *)
Definition item_from_end {A : Type} (k : nat) (l : list A) : result A :=
  match nth_error (rev l) (k - 1) with
  | Some x => Ok x
  | None => Raise (IndexError "list index out of range")
  end.

(** [f'{n / 2}'] for a Python [int] [n] with [0 <= n < 2 * 10 ** 16]:
    the true division gives a float, which is written with its
    fraction, [.0] or [.5].  (From [10 ** 16] on a float is written
    with an exponent.) *)
Definition str_half (n : Z) : string :=
  str (n / 2) +:+ (if Z.even n then ".0" else ".5").

(** [s.lower()], on a string of code points below 256: the letters
    [A] to [Z] and the capital letters of Latin-1 (192 to 222 without
    the multiplication sign 215) move up by 32. *)
Definition lower_char (c : ascii) : ascii :=
  let n := N_of_ascii c in
  if ((N.leb 65 n && N.leb n 90) ||
      (N.leb 192 n && N.leb n 222 && negb (N.eqb n 215)))%N
  then ascii_of_N (n + 32) else c.

Fixpoint lower (s : string) : string :=
  match s with
  | EmptyString => EmptyString
  | String c s' => String (lower_char c) (lower s')
  end.

(** ** Bytes *)

Definition byte_of_Z (z : Z) : byte :=
  match Byte.of_N (Z.to_N (z mod 256)) with
  | Some b => b
  | None => Byte.x00
  end.

Fixpoint le_bytes (n : nat) (z : Z) : list byte :=
  match n with
  | O => []
  | S n' => byte_of_Z z :: le_bytes n' (Z.shiftr z 8)
  end.

(** [z.to_bytes(n, byteorder='little')]. *)
Definition to_bytes (z : Z) (n : nat) : result (list byte) :=
  if z <? 0 then Raise (OverflowError "can't convert negative int to unsigned")
  else if 2 ^ (8 * Z.of_nat n) <=? z then Raise (OverflowError "int too big to convert")
  else Ok (le_bytes n z).

(** A bytes literal [b'...']. *)
Definition bytes_literal (s : string) : list byte := list_byte_of_string s.

(** A double quote, for the quoted names of SCPI commands. *)
Definition dquote : string := String "034"%char EmptyString.

(** The line feed, ['\n']. *)
Definition newline : string := String "010"%char EmptyString.

End Py.

Export Py.

Notation "x <- r ;; k" := (Py.bind r (fun x => k))
  (at level 100, r at next level, right associativity).

(** ** NumPy integer arrays *)

Module Np.

(** Reduction of an integer to [w] bits, two's complement. *)
Definition wrap_signed (w : Z) (v : Z) : Z :=
  (v + 2 ^ (w - 1)) mod 2 ^ w - 2 ^ (w - 1).

Definition wrap_unsigned (w : Z) (v : Z) : Z := v mod 2 ^ w.

(** The conversion of a float to an integer type of at most 32 bits,
    as NumPy does it on the x86-64 hosts the library targets: the
    fraction is dropped (conversion toward zero) and the 32-bit result
    keeps its low [w] bits; a value whose integer part is no 32-bit
    integer, an infinity or a NaN gives the pattern [0x80000000],
    whose low bits are zero.  NumPy never saturates. *)
Definition cvttsd2si (x : Float.t) : Z :=
  match x with
  | Float.Finite q =>
      let n := Float.trunc q in
      if (- 2 ^ 31 <=? n) && (n <? 2 ^ 31) then n else - 2 ^ 31
  | _ => - 2 ^ 31
  end.

(** [np.array(x, dtype=np.int<w>)] on one float, for [w] up to 32. *)
Definition astype_int (w : Z) (x : Float.t) : Z := wrap_signed w (cvttsd2si x).

(** [a << s] on an [int<w>] array element: the result stays [int<w>]. *)
Definition left_shift (w : Z) (v s : Z) : Z := wrap_signed w (Z.shiftl v s).

(** [np.array(x, dtype=np.uint<w>)] on one float, for [w] below 32. *)
Definition astype_uint (w : Z) (x : Float.t) : Z := wrap_unsigned w (cvttsd2si x).

(** [m * wfm] for a Python [int] and a float array: the [int] becomes a
    float, and every product is rounded. *)
Definition scalar_mul (m : Z) (wfm : list Float.t) : list Float.t :=
  map (Float.mul (Float.of_Z m)) wfm.

(** [np.array(a, dtype=np.int<w>)] on a float array. *)
Definition array_int (w : Z) (a : list Float.t) : list Z := map (astype_int w) a.

(** [np.array(a, dtype=np.uint<w>)] on a float array. *)
Definition array_uint (w : Z) (a : list Float.t) : list Z := map (astype_uint w) a.

(** [a << s] on an [int<w>] array. *)
Definition lshift (w : Z) (a : list Z) (s : Z) : list Z :=
  map (fun v => left_shift w v s) a.

(** [a.byteswap()] on an [int16] array. *)
Definition byteswap16 (v : Z) : Z :=
  let u := wrap_unsigned 16 v in
  wrap_signed 16 (Z.lor (Z.shiftl (Z.land u 255) 8) (Z.shiftr u 8)).

Definition byteswap (a : list Z) : list Z := map byteswap16 a.

(** [a.byteswap()] on a [uint16] array. *)
Definition byteswap16u (v : Z) : Z :=
  Z.lor (Z.shiftl (Z.land v 255) 8) (Z.shiftr v 8).

Definition byteswapu (a : list Z) : list Z := map byteswap16u a.

(** Storing a Python [int] into a [uint32] array element.  Inside the
    range the value is stored as it is.  Outside it the outcome
    depends on the NumPy release: current releases raise
    [OverflowError]; the releases contemporary with the library convert
    through a C [long] and keep the low 32 bits, raising only when the
    value does not fit the 64-bit intermediate. *)
Inductive cast_policy : Type := Strict | Legacy.

Definition setitem_uint32 (np : cast_policy) (v : Z) : result Z :=
  if (0 <=? v) && (v <? 2 ^ 32) then Ok v
  else
    match np with
    | Strict => Raise (OverflowError "Python integer out of bounds for uint32")
    | Legacy =>
        if (- 2 ^ 63 <=? v) && (v <? 2 ^ 64) then Ok (wrap_unsigned 32 v)
        else Raise (OverflowError "Python int too large to convert to C long")
    end.

(** The buffer of a [uint32] array (little-endian host). *)
Definition tobytes_uint32 (a : list Z) : list byte :=
  concat (map (Py.le_bytes 4) a).

(** The right-hand side of a slice assignment [a[k::2] = b] whose
    slice has [n] elements: [b] has [n] elements, or it has one, which
    is repeated; any other length is an error. *)
Definition broadcast_to (n : nat) (b : list Z) : result (list Z) :=
  if Nat.eqb (length b) n then Ok b
  else match b with
       | [y] => Ok (repeat y n)
       | _ => Raise (ValueError "could not broadcast input array")
       end.

(** The array with [i] at its even and [q] at its odd positions. *)
Fixpoint interleave (i q : list Z) : list Z :=
  match i, q with
  | x :: i', y :: q' => x :: y :: interleave i' q'
  | _, _ => []
  end.

(** [iq = np.empty(2 * len(i), dtype); iq[0::2] = i; iq[1::2] = q] for
    integer arrays [i] and [q].  The slice of [iq[0::2]] has as many
    elements as [i], so the first assignment always fits; the second
    one broadcasts [q].  An assignment into an array converts each
    element to the [dtype] of the array ([cast]), keeping its low
    bits; every element of [iq] is assigned.  The three classes that
    have an [iq_wfm_combiner] differ in the [dtype] only. *)
Definition combine (cast : Z -> Z) (i q : list Z) : result (list Z) :=
  q <- broadcast_to (length i) q ;;
  Ok (interleave (map cast i) (map cast q)).

End Np.

(** ** Instrument I/O

    The methods [write], [query] and [binblockwrite] of
    [SocketInstrument] are recorded as the events they send, in order;
    what the instrument answers to a query is an argument of the
    method that asks.  [BinBlockWriteText msg text] is
    [binblockwrite(msg, text.encode('utf-8'))]. *)

Module Scpi.

Inductive event : Type :=
| Write (cmd : string)
| Query (cmd : string)
| BinBlockWrite (msg : string) (data : list Z)
| BinBlockWriteText (msg : string) (text : string).

(** [int(reply.strip().split(',')[-2]) + 1], the segment index that
    the download methods of the two AWGs compute from the reply to
    [trace<ch>:catalog?]. *)
Definition segIndex (reply : string) : result Z :=
  field <- Py.item_from_end 2 (Py.split "," (Py.strip reply)) ;;
  n <- Py.int_of_str field ;;
  Ok (n + 1).

End Scpi.

(** ** class M8190A *)

Module M8190A.

(** The attributes of an M8190A object that [check_resolution] and
    [check_wfm] read or assign.  [intFactor] and [idleGran] exist only
    once an interpolated mode has assigned them. *)
Record t : Type := Build {
  res : string;
  gran : Z;
  minLen : Z;
  binMult : Z;
  binShift : Z;
  intFactor : option Z;
  idleGran : option Z
}.

Definition set_format (self : t) (g l m s : Z) : t :=
  {| res := res self; gran := g; minLen := l; binMult := m; binShift := s;
     intFactor := intFactor self; idleGran := idleGran self |}.

Definition set_intFactor (self : t) (n : Z) : t :=
  {| res := res self; gran := gran self; minLen := minLen self;
     binMult := binMult self; binShift := binShift self;
     intFactor := Some n; idleGran := idleGran self |}.

Definition set_idleGran (self : t) (n : Z) : t :=
  {| res := res self; gran := gran self; minLen := minLen self;
     binMult := binMult self; binShift := binShift self;
     intFactor := intFactor self; idleGran := Some n |}.

(** [check_resolution(self)]. *)
Definition check_resolution (self : t) : t * result unit :=
  if String.eqb (res self) "wpr" then
    (set_format self 48 240 8191 2, Ok tt)
  else if String.eqb (res self) "wsp" then
    (set_format self 64 320 2047 4, Ok tt)
  else if Py.contains "intx" (res self) then
    let self := set_format self 24 120 16383 1 in
    match Py.int_of_str (Py.split_last "x" (res self)) with
    | Raise e => (self, Raise e)
    | Ok n =>
        let self := set_intFactor self n in
        if n =? 3 then (set_idleGran self 8, Ok tt)
        else if n =? 12 then (set_idleGran self 2, Ok tt)
        else if (n =? 24) || (n =? 48) then (set_idleGran self 1, Ok tt)
        else (self, Ok tt)
    end
  else (self, Raise (AwgError "Invalid resolution selected.")).

(** [check_wfm(self, wfm)]; [wfm] is a float array. *)
Definition check_wfm (self : t) (wfm : list Float.t) : t * result (list Z) :=
  match check_resolution self with
  | (self, Raise e) => (self, Raise e)
  | (self, Ok _) =>
      let rl := Z.of_nat (length wfm) in
      if rl <? minLen self then
        (self, Raise (AwgError ("Waveform length: " +:+ Py.str rl +:+
                                ", must be at least " +:+ Py.str (minLen self) +:+ ".")))
      else if gran self =? 0 then (self, Raise ZeroDivisionError)
      else if negb (rl mod gran self =? 0) then
        (self, Raise (AwgError ("Waveform must have a granularity of " +:+
                                Py.str (gran self) +:+ ".")))
      else
        (self, Ok (Np.lshift 16 (Np.array_int 16 (Np.scalar_mul (binMult self) wfm))
                             (binShift self)))
  end.

(** [iq_wfm_combiner(i, q)]: [iq] is an [int16] array. *)
Definition iq_wfm_combiner (i q : list Z) : result (list Z) :=
  Np.combine (Np.wrap_signed 16) i q.

Definition set_res (self : t) (r : string) : t :=
  {| res := r; gran := gran self; minLen := minLen self;
     binMult := binMult self; binShift := binShift self;
     intFactor := intFactor self; idleGran := idleGran self |}.

(** [set_resolution(self, res='wsp')]: the object, the events sent, and
    the outcome; [reply] is the reply to the query. *)
Definition set_resolution (self : t) (res : string) (reply : string)
  : t * (list Scpi.event * result unit) :=
  let sent := [ Scpi.Write ("trace1:dwidth " +:+ res);
                Scpi.Query "trace1:dwidth?" ] in
  let self := set_res self (Py.lower (Py.strip reply)) in
  match check_resolution self with
  | (self, outcome) => (self, (sent, outcome))
  end.

(** [download_wfm(self, wfm, ch=1)]: the object, the events sent, and
    the outcome; [catalog] is the reply to the query. *)
Definition download_wfm (self : t) (wfm : list Float.t) (ch : Z) (catalog : string)
  : t * (list Scpi.event * result unit) :=
  match check_wfm self wfm with
  | (self, Raise e) => (self, ([], Raise e))
  | (self, Ok wfm) =>
      let length := Z.of_nat (length wfm) in
      let asked := [ Scpi.Query ("trace" +:+ Py.str ch +:+ ":catalog?") ] in
      match Scpi.segIndex catalog with
      | Raise e => (self, (asked, Raise e))
      | Ok segIndex =>
          (self,
           ((asked ++
             [ Scpi.Write ("trace" +:+ Py.str ch +:+ ":def " +:+
                           Py.str segIndex +:+ ", " +:+ Py.str length);
               Scpi.BinBlockWrite
                 ("trace" +:+ Py.str ch +:+ ":data " +:+ Py.str segIndex +:+
                  ", 0, ") wfm ])%list,
            Ok tt))
      end
  end.

(** [download_iq_wfm(self, i, q, ch=1)]; [length = len(iq) / 2] is a
    float. *)
Definition download_iq_wfm (self : t) (i q : list Float.t) (ch : Z) (catalog : string)
  : t * (list Scpi.event * result unit) :=
  match check_wfm self i with
  | (self, Raise e) => (self, ([], Raise e))
  | (self, Ok i) =>
      match check_wfm self q with
      | (self, Raise e) => (self, ([], Raise e))
      | (self, Ok q) =>
          match iq_wfm_combiner i q with
          | Raise e => (self, ([], Raise e))
          | Ok iq =>
              let length := Py.str_half (Z.of_nat (length iq)) in
              let asked :=
                [ Scpi.Query ("trace" +:+ Py.str ch +:+ ":catalog?") ] in
              match Scpi.segIndex catalog with
              | Raise e => (self, (asked, Raise e))
              | Ok segIndex =>
                  (self,
                   ((asked ++
                     [ Scpi.Write ("trace" +:+ Py.str ch +:+ ":def " +:+
                                   Py.str segIndex +:+ ", " +:+ length);
                       Scpi.BinBlockWrite
                         ("trace" +:+ Py.str ch +:+ ":data " +:+
                          Py.str segIndex +:+ ", 0, ") iq ])%list,
                    Ok tt))
              end
          end
      end
  end.

End M8190A.

(** ** class M8195A *)

Module M8195A.

Record t : Type := Build {
  gran : Z;
  minLen : Z;
  binMult : Z;
  binShift : Z
}.

(** The attributes assigned by [__init__]. *)
Definition init : t :=
  {| gran := 256; minLen := 256; binMult := 127; binShift := 0 |}.

(** [check_wfm(self, wfm)]. *)
Definition check_wfm (self : t) (wfm : list Float.t) : result (list Z) :=
  let rl := Z.of_nat (length wfm) in
  if rl <? minLen self then
    Raise (AwgError ("Waveform length: " +:+ Py.str rl +:+
                     ", must be at least " +:+ Py.str (minLen self) +:+ "."))
  else if gran self =? 0 then Raise ZeroDivisionError
  else if negb (rl mod gran self =? 0) then
    Raise (AwgError ("Waveform must have a granularity of " +:+
                     Py.str (gran self) +:+ "."))
  else Ok (Np.lshift 8 (Np.array_int 8 (Np.scalar_mul (binMult self) wfm))
                     (binShift self)).

(** [download_wfm(self, wfm, ch=1)]: the events sent and the outcome;
    [catalog] is the reply to the query. *)
Definition download_wfm (self : t) (wfm : list Float.t) (ch : Z) (catalog : string)
  : list Scpi.event * result unit :=
  match check_wfm self wfm with
  | Raise e => ([], Raise e)
  | Ok wfm =>
      let length := Z.of_nat (length wfm) in
      let asked := [ Scpi.Query ("trace" +:+ Py.str ch +:+ ":catalog?") ] in
      match Scpi.segIndex catalog with
      | Raise e => (asked, Raise e)
      | Ok segIndex =>
          ((asked ++
            [ Scpi.Write ("trace" +:+ Py.str ch +:+ ":def " +:+
                          Py.str segIndex +:+ ", " +:+ Py.str length);
              Scpi.BinBlockWrite
                ("trace" +:+ Py.str ch +:+ ":data " +:+ Py.str segIndex +:+
                 ", 0, ") wfm ])%list,
           Ok tt)
      end
  end.

End M8195A.

(** ** class VSG *)

Module VSG.

Record t : Type := Build {
  gran : Z;
  minLen : Z;
  binMult : Z
}.

(** The attributes assigned by [__init__]. *)
Definition init : t := {| gran := 2; minLen := 60; binMult := 32767 |}.

(** [check_wfm(self, wfm, bigEndian=True)]. *)
Definition check_wfm (self : t) (wfm : list Float.t) (bigEndian : bool)
  : result (list Z) :=
  let rl := Z.of_nat (length wfm) in
  if rl <? minLen self then
    Raise (VsgError ("Waveform length: " +:+ Py.str rl +:+
                     ", must be at least " +:+ Py.str (minLen self) +:+ "."))
  else if gran self =? 0 then Raise ZeroDivisionError
  else if negb (rl mod gran self =? 0) then
    Raise (VsgError ("Waveform must have a granularity of " +:+
                     Py.str (gran self) +:+ "."))
  else if bigEndian then
    Ok (Np.byteswap (Np.array_int 16 (Np.scalar_mul (binMult self) wfm)))
  else
    Ok (Np.array_int 16 (Np.scalar_mul (binMult self) wfm)).

(** [iq_wfm_combiner(i, q)]: [iq] is an [int16] array. *)
Definition iq_wfm_combiner (i q : list Z) : result (list Z) :=
  Np.combine (Np.wrap_signed 16) i q.

(** [download_iq_wfm(self, name, i, q)]: the events sent to the
    instrument, and the outcome. *)
Definition download_iq_wfm (self : t) (name : string) (i q : list Float.t)
  : list Scpi.event * result unit :=
  match check_wfm self i true with
  | Raise e => ([], Raise e)
  | Ok i =>
      match check_wfm self q true with
      | Raise e => ([], Raise e)
      | Ok q =>
          match iq_wfm_combiner i q with
          | Raise e => ([], Raise e)
          | Ok iq =>
              ([ Scpi.BinBlockWrite
                   ("mmemory:data " +:+ Py.dquote +:+ "wfm1:" +:+ name +:+
                    Py.dquote +:+ ", ") iq;
                 Scpi.Write
                   ("radio:arb:waveform " +:+ Py.dquote +:+ "WFM1:" +:+ name +:+
                    Py.dquote) ], Ok tt)
          end
      end
  end.

End VSG.

(** ** class UXG *)

Module UXG.

(** The attributes read by [check_wfm].  [__init__] takes [gran] and
    [minLen] from the instrument ([radio:arb:information:quantum?] and
    [...:slength:minimum?]) and sets [binMult = 32767]. *)
Record t : Type := Build_t {
  gran : Z;
  minLen : Z;
  binMult : Z
}.

(** [check_wfm(self, wfm, bigEndian=True)]. *)
Definition check_wfm (self : t) (wfm : list Float.t) (bigEndian : bool)
  : result (list Z) :=
  let rl := Z.of_nat (length wfm) in
  if rl <? minLen self then
    Raise (VsgError ("Waveform length: " +:+ Py.str rl +:+
                     ", must be at least " +:+ Py.str (minLen self) +:+ "."))
  else if gran self =? 0 then Raise ZeroDivisionError
  else if negb (rl mod gran self =? 0) then
    Raise (VsgError ("Waveform must have a granularity of " +:+
                     Py.str (gran self) +:+ "."))
  else if bigEndian then
    Ok (Np.byteswapu (Np.array_uint 16 (Np.scalar_mul (binMult self) wfm)))
  else
    Ok (Np.array_uint 16 (Np.scalar_mul (binMult self) wfm)).

(** The arguments of [bin_pdw_builder]: one pulse descriptor.  The
    four physical quantities are floats (a small [int] passed for one
    of them acts as the float of the same value), the others Python
    [int]s. *)
Record pdw_args : Type := Build {
  operation : Z;
  freq : Float.t;
  phase : Float.t;
  startTimeSec : Float.t;
  power : Float.t;
  markers : Z;
  phaseControl : Z;
  rfOff : Z;
  wIndex : Z;
  wfmMkrMask : Z
}.

(** The default arguments of [bin_pdw_builder]. *)
Definition defaults : pdw_args :=
  {| operation := 0; freq := Float.literal 1e9; phase := Float.of_Z 0;
     startTimeSec := Float.of_Z 0; power := Float.of_Z 0; markers := 0;
     phaseControl := 0; rfOff := 0; wIndex := 0; wfmMkrMask := 0 |}.

Definition pdwFormat : Z := 1.

(** The local variables [_freq], [_phase], [_startTimePs] and [_power]:
    the four quantities scaled to the units of the format. *)
Record scaled : Type := Scaled {
  _freq : Z;
  _phase : Z;
  _startTimePs : Z;
  _power : Z
}.

(** The four assignments that open [bin_pdw_builder], in their order:
    [int(freq * 1024 + 0.5)], [int(phase * 4096 / 360 + 0.5)],
    [int(startTimeSec * 1e12)] and [int((power + 140) / 0.005 + 0.5)],
    each computed in floating point and then cut to an integer. *)
Definition scale (p : pdw_args) : result scaled :=
  _freq <- Py.int (Float.add (Float.mul (freq p) (Float.of_Z 1024))
                             (Float.literal 0.5)) ;;
  _phase <- Py.int (Float.add (Float.div (Float.mul (phase p) (Float.of_Z 4096))
                                         (Float.of_Z 360))
                              (Float.literal 0.5)) ;;
  _startTimePs <- Py.int (Float.mul (startTimeSec p) (Float.literal 1e12)) ;;
  _power <- Py.int (Float.add (Float.div (Float.add (power p) (Float.of_Z 140))
                                         (Float.literal 0.005))
                              (Float.literal 0.5)) ;;
  Ok (Scaled _freq _phase _startTimePs _power).

(** The right-hand sides of the six assignments [pdw[k] = ...], as
    Python integers. *)

(** Word 0: Mask pdw format (3 bits), operation (2 bits), and the
    lower 27 bits (32 - 5) of freq *)
Definition word0 (p : pdw_args) (s : scaled) : Z :=
  Z.land (Z.lor (Z.lor pdwFormat (Z.shiftl (operation p) 3))
                (Z.shiftl (_freq s) 5)) 0xFFFFFFFF.

(** Word 1: Mask the upper 20 bits (47 - 27) of freq and phase (12 bits) *)
Definition word1 (s : scaled) : Z :=
  Z.land (Z.lor (Z.shiftr (_freq s) 27) (Z.shiftl (_phase s) 20)) 0xFFFFFFFF.

(** Word 2: Lower 32 bits of startTimePs *)
Definition word2 (s : scaled) : Z := Z.land (_startTimePs s) 0xFFFFFFFF.

(** Word 3: Upper 32 bits of startTimePS *)
Definition word3 (s : scaled) : Z :=
  Z.shiftr (Z.land (_startTimePs s) 0xFFFFFFFF00000000) 32.

(** Word 4: Mask power (15 bits), markers (12 bits), phaseControl
    (1 bit), and rfOff (1 bit) *)
Definition word4 (p : pdw_args) (s : scaled) : Z :=
  Z.lor (Z.lor (Z.lor (_power s) (Z.shiftl (markers p) 15))
               (Z.shiftl (phaseControl p) 27))
        (Z.shiftl (rfOff p) 28).

(** Word 5: Mask wIndex (16 bits), 12 reserved bits, and wfmMkrMask
    (4 bits) *)
Definition word5 (p : pdw_args) : Z :=
  Z.lor (Z.lor (wIndex p) (Z.shiftl 0 16)) (Z.shiftl (wfmMkrMask p) 28).

(** [bin_pdw_builder(operation, freq, ..., wfmMkrMask)]: the six
    elements of the [uint32] array it returns. *)
Definition bin_pdw_builder (np : Np.cast_policy) (p : pdw_args)
  : result (list Z) :=
  s <- scale p ;;
  w0 <- Np.setitem_uint32 np (word0 p s) ;;
  w1 <- Np.setitem_uint32 np (word1 s) ;;
  w2 <- Np.setitem_uint32 np (word2 s) ;;
  w3 <- Np.setitem_uint32 np (word3 s) ;;
  w4 <- Np.setitem_uint32 np (word4 p s) ;;
  w5 <- Np.setitem_uint32 np (word5 p) ;;
  Ok [w0; w1; w2; w3; w4; w5].

(** The file system as [bin_pdw_file_builder] sees it: which paths
    [open(path, 'wb')] accepts, and the contents written so far. *)
Record filesystem : Type := {
  writable : string -> bool;
  files : gmap string (list byte)
}.

Definition write_file (fs : filesystem) (path : string) (data : list byte)
  : filesystem * result unit :=
  if writable fs path then
    ({| writable := writable fs; files := <[path := data]> (files fs) |}, Ok tt)
  else (fs, Raise (OSError path)).

Definition pdwtest_path : string := "C:\Users\moalliso\Desktop\pdwtest".

(** Header section, all fixed values. *)
Definition header : result (list (list byte)) :=
  let fileId := Py.bytes_literal "STRM" in
  version <- Py.to_bytes 1 4 ;;
  offset <- Py.to_bytes (Z.land (Z.shiftl 1 1) 0x3fffff) 4 ;;
  let magic := Py.bytes_literal "KEYS" in
  res0 <- Py.to_bytes 0 16 ;;
  flags <- Py.to_bytes 0 4 ;;
  uniqueId <- Py.to_bytes 0 4 ;;
  dataId <- Py.to_bytes 64 4 ;;
  res1 <- Py.to_bytes 0 4 ;;
  Ok [fileId; version; offset; magic; res0; flags; uniqueId; dataId; res1].

(** Padding block, all fixed values. *)
Definition padding : result (list (list byte)) :=
  padBlockId <- Py.to_bytes 1 4 ;;
  res3 <- Py.to_bytes 0 4 ;;
  size <- Py.to_bytes 4016 8 ;;
  padData <- Py.to_bytes 0 4016 ;;
  Ok [padBlockId; res3; size; padData].

(** PDW block header. *)
Definition pdwBlock : result (list (list byte)) :=
  pdwBlockId <- Py.to_bytes 16 4 ;;
  res4 <- Py.to_bytes 0 4 ;;
  pdwSize <- Py.to_bytes 0xffffffffffffffff 8 ;;
  Ok [pdwBlockId; res4; pdwSize].

(** [b''.join(header + padding + pdwBlock)]: everything that precedes
    the PDW records. *)
Definition preamble : result (list byte) :=
  header <- header ;;
  padding <- padding ;;
  pdwBlock <- pdwBlock ;;
  Ok (concat (header ++ padding ++ pdwBlock)%list).

(** [bin_pdw_file_builder(self, pdwList)]. *)
Definition bin_pdw_file_builder (np : Np.cast_policy) (fs : filesystem)
    (pdwList : list pdw_args) : filesystem * result (list byte) :=
  let built :=
    header <- header ;;
    padding <- padding ;;
    pdwBlock <- pdwBlock ;;
    let pdwFile := (header ++ padding ++ pdwBlock)%list in
    pdws <- Py.comprehension (bin_pdw_builder np) pdwList ;;
    let pdwFile := (pdwFile ++ map Np.tobytes_uint32 pdws)%list in
    Ok (concat pdwFile) in
  match built with
  | Raise e => (fs, Raise e)
  | Ok pdwFile =>
      match write_file fs pdwtest_path pdwFile with
      | (fs, Raise e) => (fs, Raise e)
      | (fs, Ok _) => (fs, Ok pdwFile)
      end
  end.

(** [iq_wfm_combiner(i, q)]: [iq] is a [uint16] array. *)
Definition iq_wfm_combiner (i q : list Z) : result (list Z) :=
  Np.combine (Np.wrap_unsigned 16) i q.

(** [download_iq_wfm(self, name, i, q, assign=True)]: the events sent
    to the instrument, and the outcome. *)
Definition download_iq_wfm (self : t) (name : string) (i q : list Float.t)
    (assign : bool) : list Scpi.event * result unit :=
  match check_wfm self i true with
  | Raise e => ([], Raise e)
  | Ok i =>
      match check_wfm self q true with
      | Raise e => ([], Raise e)
      | Ok q =>
          match iq_wfm_combiner i q with
          | Raise e => ([], Raise e)
          | Ok iq =>
              let sent :=
                [ Scpi.BinBlockWrite
                    ("memory:data " +:+ Py.dquote +:+ "WFM1:" +:+ name +:+
                     Py.dquote +:+ ", ") iq ] in
              if assign then
                ((sent ++ [ Scpi.Write
                              ("radio:arb:waveform " +:+ Py.dquote +:+ "WFM1:" +:+
                               name +:+ Py.dquote) ])%list, Ok tt)
              else (sent, Ok tt)
          end
      end
  end.

(** The argument of [csv_windex_file_download], a dict with the keys
    ['fileName'] and ['wfmNames']. *)
Record windex : Type := Windex {
  fileName : string;
  wfmNames : list string
}.

(** The loop
    [for i in range(len(names)): windexCsv += f'{i},{names[i]}\n'],
    from index [i] on. *)
Fixpoint windex_rows (i : Z) (names : list string) (windexCsv : string)
  : string :=
  match names with
  | [] => windexCsv
  | name :: names' =>
      windex_rows (i + 1) names'
        (windexCsv +:+ (Py.str i +:+ "," +:+ name +:+ Py.newline))
  end.

(** The text of the CSV file that [csv_windex_file_download] builds. *)
Definition windexCsv (w : windex) : string :=
  windex_rows 0 (wfmNames w) ("Id,Filename" +:+ Py.newline).

(** [csv_windex_file_download(self, windex)]: the events sent. *)
Definition csv_windex_file_download (w : windex) : list Scpi.event :=
  [ Scpi.Write ("memory:delete " +:+ Py.dquote +:+ fileName w +:+ ".csv" +:+
                Py.dquote);
    Scpi.BinBlockWriteText
      ("memory:data " +:+ Py.dquote +:+ fileName w +:+ ".csv" +:+ Py.dquote +:+
       ", ") (windexCsv w);
    Scpi.Write ("memory:import:windex " +:+ Py.dquote +:+ fileName w +:+
                ".csv" +:+ Py.dquote +:+ ", " +:+ Py.dquote +:+ fileName w +:+
                Py.dquote);
    Scpi.Query "*opc?" ].

End UXG.

(** ** Waveform creation: [barker_generator] *)

(** Codes taken from https://en.wikipedia.org/wiki/Barker_code *)
Definition barkerCodes : gmap string (list Z) :=
  list_to_map
    [ ("b2", [1; -1]); ("b3", [1; 1; -1]);
      ("b41", [1; 1; -1; 1]); ("b42", [1; 1; 1; -1]);
      ("b5", [1; 1; 1; -1; 1]); ("b7", [1; 1; 1; -1; -1; 1; -1]);
      ("b11", [1; 1; 1; -1; -1; -1; 1; -1; -1; 1; -1]);
      ("b13", [1; 1; 1; 1; 1; -1; -1; 1; 1; -1; 1; -1; 1]) ].

(** [codeSamples = int(length / len(barkerCodes[code]) * fs)]: the
    quotient and the product are rounded, the integer part is taken. *)
Definition codeSamples (len fs : Float.t) (chips : list Z) : result Z :=
  chip <- Py.truediv len (Float.of_Z (Z.of_nat (length chips))) ;;
  Py.int (Float.mul chip fs).

(** [np.full((n,), p)]. *)
Definition np_full (n : Z) (p : Z) : result (list Z) :=
  if n <? 0 then Raise (ValueError "negative dimensions are not allowed")
  else Ok (repeat p (Z.to_nat n)).

(** The loop building [barker]: one block of [n] copies per chip,
    appended in code order. *)
Fixpoint barker_loop (n : Z) (chips : list Z) (barker : list Z)
  : result (list Z) :=
  match chips with
  | [] => Ok barker
  | p :: chips' =>
      temp <- np_full n p ;;
      barker_loop n chips' (barker ++ temp)%list
  end.

(** The array [barker] at the end of the loop. *)
Definition barker_array (len fs : Float.t) (code : string) : result (list Z) :=
  match barkerCodes !! code with
  | None => Raise (KeyError code)
  | Some chips =>
      codeSamples <- codeSamples len fs chips ;;
      barker_loop codeSamples chips []
  end.

(** [np.pi], the binary64 value nearest to pi; 3.141592653589793 is
    its shortest decimal form. *)
Definition np_pi : Float.t := Float.literal 3.141592653589793.

(** [mod = np.pi / 2 * barker]: the phase of every sample, in radians. *)
Definition barker_mod (barker : list Z) : list Float.t :=
  map (fun p => Float.mul (Float.div np_pi (Float.of_Z 2)) (Float.of_Z p)) barker.

(** [iq[-1] = 0 + 0j]. *)
Definition zero_last (iq : list (Float.t * Float.t))
  : result (list (Float.t * Float.t)) :=
  match iq with
  | [] => Raise (IndexError "index -1 is out of bounds for axis 0 with size 0")
  | _ => Ok (removelast iq ++ [(Float.of_Z 0, Float.of_Z 0)])%list
  end.

Section Barker.

(** The cosine and the sine of the C library on a float. *)
Variables cos sin : Float.t -> Float.t.

(** [np.exp(1j * phi)] for a real [phi], as its real and imaginary
    parts. *)
Definition exp_j (phi : Float.t) : Float.t * Float.t := (cos phi, sin phi).

(** [barker_generator(length, fs, code, zeroLast)], returning [(i, q)]. *)
Definition barker_generator (len fs : Float.t) (code : string) (zeroLast : bool)
  : result (list Float.t * list Float.t) :=
  barker <- barker_array len fs code ;;
  let iq := map exp_j (barker_mod barker) in
  iq <- (if zeroLast then zero_last iq else Ok iq) ;;
  Ok (map fst iq, map snd iq).

End Barker.

(** ** Constellation modulators *)

Record complex : Type := Complex { re : Q; im : Q }.

(** Equality of constellation points is decidable. *)
#[local] Instance Q_eq_dec : EqDecision Q.
Proof. solve_decision. Defined.

#[local] Instance complex_eq_dec : EqDecision complex.
Proof. solve_decision. Defined.

(** [data[start::step]]. *)
Fixpoint slice_step {A : Type} (step skip : nat) (data : list A) : list A :=
  match data with
  | [] => []
  | d :: data' =>
      match skip with
      | O => d :: slice_step step (step - 1) data'
      | S skip' => slice_step step skip' data'
      end
  end.

Fixpoint zip3 {A : Type} (a b c : list A) : list (A * A * A) :=
  match a, b, c with
  | x :: a', y :: b', z :: c' => (x, y, z) :: zip3 a' b' c'
  | _, _, _ => []
  end.

Fixpoint zip4 {A : Type} (a b c d : list A) : list (A * A * A * A) :=
  match a, b, c, d with
  | x :: a', y :: b', z :: c', u :: d' => (x, y, z, u) :: zip4 a' b' c' d'
  | _, _, _, _ => []
  end.

Fixpoint zip5 {A : Type} (a b c d e : list A) : list (A * A * A * A * A) :=
  match a, b, c, d, e with
  | x :: a', y :: b', z :: c', u :: d', v :: e' =>
      (x, y, z, u, v) :: zip5 a' b' c' d' e'
  | _, _, _, _, _ => []
  end.

(** [if customMap:] is false for [None] and for an empty dict. *)
Definition truthy (customMap : option (gmap string complex)) : bool :=
  match customMap with
  | None => false
  | Some m => negb (Nat.eqb (size m) 0)
  end.

Definition choose_map (customMap : option (gmap string complex))
    (default : gmap string complex) : gmap string complex :=
  match customMap with
  | Some m => if truthy customMap then m else default
  | None => default
  end.

(** [try: return np.array([m[p] for p in pattern])
     except KeyError: raise ValueError(msg)]. *)
Definition map_symbols (m : gmap string complex) (pattern : list string)
    (msg : string) : result (list complex) :=
  match Py.comprehension
          (fun p => match m !! p with
                    | Some c => Ok c
                    | None => Raise (KeyError p)
                    end) pattern with
  | Ok symbols => Ok symbols
  | Raise (KeyError _) => Raise (ValueError msg)
  | Raise e => Raise e
  end.

Definition bpsk_default_map : gmap string complex :=
  list_to_map [ ("0", Complex 1 0); ("1", Complex (-1) 0) ].

(** [pattern = [str(d) for d in data]]. *)
Definition bpsk_pattern (data : list Z) : list string := map Py.str data.

Definition bpsk_modulator (data : list Z)
    (customMap : option (gmap string complex)) : result (list complex) :=
  let pattern := bpsk_pattern data in
  let bpskMap := choose_map customMap bpsk_default_map in
  map_symbols bpskMap pattern "Invalid BPSK symbol value.".

Definition qpsk_default_map : gmap string complex :=
  list_to_map
    [ ("00", Complex 1 1); ("01", Complex (-1) 1);
      ("10", Complex (-1) (-1)); ("11", Complex 1 (-1)) ].

(** [pattern = [str(d0) + str(d1) for d0, d1 in zip(data[0::2], data[1::2])]]. *)
Definition qpsk_pattern (data : list Z) : list string :=
  map (fun '(d0, d1) => Py.str d0 +:+ Py.str d1)
      (zip (slice_step 2 0 data) (slice_step 2 1 data)).

Definition qpsk_modulator (data : list Z)
    (customMap : option (gmap string complex)) : result (list complex) :=
  let pattern := qpsk_pattern data in
  let qpskMap := choose_map customMap qpsk_default_map in
  map_symbols qpskMap pattern "Invalid QPSK symbol.".

Definition psk8_default_map : gmap string complex :=
  list_to_map
    [ ("000", Complex 1 0); ("001", Complex 0.707 0.707); ("010", Complex 0 1);
      ("011", Complex (-0.707) 0.707); ("100", Complex (-1) 0);
      ("101", Complex (-0.707) (-0.707)); ("110", Complex 0 (-1));
      ("111", Complex 0.707 (-0.707)) ].

Definition psk8_pattern (data : list Z) : list string :=
  map (fun '(d0, d1, d2) => Py.str d0 +:+ Py.str d1 +:+ Py.str d2)
      (zip3 (slice_step 3 0 data) (slice_step 3 1 data) (slice_step 3 2 data)).

Definition psk8_modulator (data : list Z)
    (customMap : option (gmap string complex)) : result (list complex) :=
  let pattern := psk8_pattern data in
  let psk8Map := choose_map customMap psk8_default_map in
  map_symbols psk8Map pattern "Invalid 8PSK symbol.".

(** The dict literal that [qam16_modulator] and [qam32_modulator] both
    use as their default map. *)
Definition qam16_items : list (string * complex) :=
  [ ("0000", Complex (-3) (-3)); ("0001", Complex (-3) (-1));
    ("0010", Complex (-3) 3); ("0011", Complex (-3) 1);
    ("0100", Complex (-1) (-3)); ("0101", Complex (-1) (-1));
    ("0110", Complex (-1) 3); ("0111", Complex (-1) 1);
    ("1000", Complex 3 (-3)); ("1001", Complex 3 (-1));
    ("1010", Complex 3 3); ("1011", Complex 3 1);
    ("1100", Complex 1 (-3)); ("1101", Complex 1 (-1));
    ("1110", Complex 1 3); ("1111", Complex 1 1) ].

Definition qam16_default_map : gmap string complex := list_to_map qam16_items.

Definition qam16_pattern (data : list Z) : list string :=
  map (fun '(d0, d1, d2, d3) =>
         Py.str d0 +:+ Py.str d1 +:+ Py.str d2 +:+ Py.str d3)
      (zip4 (slice_step 4 0 data) (slice_step 4 1 data)
            (slice_step 4 2 data) (slice_step 4 3 data)).

Definition qam16_modulator (data : list Z)
    (customMap : option (gmap string complex)) : result (list complex) :=
  let pattern := qam16_pattern data in
  let qamMap := choose_map customMap qam16_default_map in
  map_symbols qamMap pattern "Invalid 16 QAM symbol.".

(** [qam32_modulator]'s default dict is, key for key, the sixteen-entry
    literal of [qam16_modulator]. *)
Definition qam32_default_map : gmap string complex := list_to_map qam16_items.

Definition qam32_pattern (data : list Z) : list string :=
  map (fun '(d0, d1, d2, d3, d4) =>
         Py.str d0 +:+ Py.str d1 +:+ Py.str d2 +:+ Py.str d3 +:+ Py.str d4)
      (zip5 (slice_step 5 0 data) (slice_step 5 1 data) (slice_step 5 2 data)
            (slice_step 5 3 data) (slice_step 5 4 data)).

Definition qam32_modulator (data : list Z)
    (customMap : option (gmap string complex)) : result (list complex) :=
  let pattern := qam32_pattern data in
  let qamMap := choose_map customMap qam32_default_map in
  map_symbols qamMap pattern "Invalid 16 QAM symbol.".

(** ** Pulse-shaping filters: the time vector *)



(** ** Waveform creation: [digmod_prbs_generator] *)

(** [np.tile(temp, repeats)]. *)
Definition np_tile {A : Type} (temp : list A) (repeats : nat) : list A :=
  concat (repeat temp repeats).

(** The loop
    [while len(bits) % bitsPerSym: bits = np.tile(temp, repeats); repeats += 1].
    [fuel] bounds the number of times the condition is evaluated;
    [None] is a loop still running when the fuel is used up. *)
Fixpoint tile_loop (fuel : nat) (temp bits : list Z) (repeats bitsPerSym : nat)
  : option (list Z) :=
  match fuel with
  | O => None
  | S fuel =>
      if (length bits mod bitsPerSym =? 0)%nat then Some bits
      else tile_loop fuel temp (np_tile temp repeats) (S repeats) bitsPerSym
  end.

(** The [if]/[elif] chain on [modType.lower()]: bits per symbol and
    modulator. *)
Definition modulation (modType : string)
  : result (nat * (list Z -> option (gmap string complex) -> result (list complex))) :=
  let m := Py.lower modType in
  if String.eqb m "bpsk" then Ok (1%nat, bpsk_modulator)
  else if String.eqb m "qpsk" then Ok (2%nat, qpsk_modulator)
  else if String.eqb m "8psk" then Ok (3%nat, psk8_modulator)
  else if String.eqb m "qam16" then Ok (4%nat, qam16_modulator)
  else Raise (ValueError "Invalid modType chosen.").

(** [symbols[-n:]] for [n > 0]. *)
Definition last_n {A : Type} (n : nat) (l : list A) : list A :=
  drop (length l - n) l.

(** [saPerSym = int(fs / symRate)]: the quotient is rounded, its
    integer part is taken. *)
Definition saPerSym (fs symRate : Float.t) : result Z :=
  ratio <- Py.truediv fs symRate ;;
  Py.int ratio.

(** [digmod_prbs_generator(modType, fs, symRate, prbsOrder, filt, alpha)]
    from its first line to the symbols with their wrap-around padding
    ([np.concatenate]): the value of [saPerSym] and the array
    [symbols].  [temp] is the bit sequence that SciPy's
    [max_len_seq(prbsOrder)] returns.  The pulse shaping that follows
    works on floating-point filter taps and is not part of this
    definition. *)
Definition digmod_prbs_symbols (fuel : nat) (modType : string)
    (fs symRate : Float.t) (temp : list Z)
  : option (result (Z * list complex)) :=
  match saPerSym fs symRate with
  | Raise e => Some (Raise e)
  | Ok saPerSym =>
      let filterSymbolLength := 10%nat in
      match modulation modType with
      | Raise e => Some (Raise e)
      | Ok (bitsPerSym, modulator) =>
          match tile_loop fuel temp temp 1 bitsPerSym with
          | None => None
          | Some bits =>
              Some (symbols <- modulator bits None ;;
                    let symbols :=
                      (last_n (filterSymbolLength / 2) symbols ++ symbols ++
                       take (filterSymbolLength / 2) symbols)%list in
                    Ok (saPerSym, symbols))
          end
      end
  end.

(** ** Vocabulary of the stated properties *)

Module Spec.

(** [round(x)]: the nearest integer, a tie going upward. *)
Definition round (x : Q) : Z := Qfloor (x + (1 # 2)).

(** Number of positions at which two equally long bit patterns differ. *)
Fixpoint hamming (a b : string) : nat :=
  match a, b with
  | String x a', String y b' =>
      ((if Ascii.eqb x y then 0 else 1) + hamming a' b')%nat
  | _, _ => O
  end.

(** Squared Euclidean distance of two constellation points. *)
Definition dist2 (a b : complex) : Q :=
  ((re a - re b) * (re a - re b) + (im a - im b) * (im a - im b))%Q.

(** Nearest neighbours on the 16-QAM grid are at distance 2. *)
Definition neighbours (a b : complex) : bool := Qeq_bool (dist2 a b) 4.

(** The 4 x 4 grid of 16-QAM points. *)
Definition grid16 : list complex :=
  c ← [-3; -1; 1; 3]; d ← [-3; -1; 1; 3]; [Complex (inject_Z c) (inject_Z d)].

(** A list of bits. *)
Definition bits (data : list Z) : Prop := Forall (fun d => d = 0 \/ d = 1) data.

(** The number that a bit pattern spells in base 2. *)
Fixpoint binary_from (acc : Z) (p : string) : Z :=
  match p with
  | EmptyString => acc
  | String c p' =>
      binary_from (2 * acc + (if Ascii.eqb c "1" then 1 else 0)) p'
  end.

Definition binary (p : string) : Z := binary_from 0 p.

(** Two different points less than 1 apart: next to each other on the
    circle of eight points. *)
Definition adjacent8 (a b : complex) : bool :=
  negb (Qeq_bool (dist2 a b) 0) && Qle_bool (dist2 a b) 1.

End Spec.

(** The values of an [int16] and of a [uint16] array. *)
Definition int16_array (a : list Z) : Prop :=
  Forall (fun v => - 2 ^ 15 <= v < 2 ^ 15) a.

Definition uint16_array (a : list Z) : Prop :=
  Forall (fun v => 0 <= v < 2 ^ 16) a.

(** The rational number a finite float denotes (zero for an infinity
    and for a NaN). *)
Definition exact (x : Float.t) : Q :=
  match x with
  | Float.Finite q => q
  | _ => 0%Q
  end.

(** [np.pi / 2] as a rational number; [np.pi] is
    [884279719003555 / 2 ** 48]. *)
Definition half_pi : Q := 884279719003555 # 562949953421312.

(** Every field of a descriptor fits the width the PDW format gives it;
    [s] holds the four quantities as the code has scaled them. *)
Definition pdw_fits (p : UXG.pdw_args) (s : UXG.scaled) : Prop :=
  0 <= UXG.operation p < 2 ^ 2 /\
  0 <= UXG._freq s < 2 ^ 47 /\
  0 <= UXG._phase s < 2 ^ 12 /\
  0 <= UXG._startTimePs s < 2 ^ 64 /\
  0 <= UXG._power s < 2 ^ 15 /\
  0 <= UXG.markers p < 2 ^ 12 /\
  0 <= UXG.phaseControl p < 2 ^ 1 /\
  0 <= UXG.rfOff p < 2 ^ 1 /\
  0 <= UXG.wIndex p < 2 ^ 16 /\
  0 <= UXG.wfmMkrMask p < 2 ^ 4.

(** The modes an M8190A reports for [trace1:dwidth?], lower-cased. *)
Definition recognized_modes : list string :=
  ["wpr"; "wsp"; "intx3"; "intx12"; "intx24"; "intx48"].

(** The two guards that open every [check_wfm], in their order, in front
    of a formatting step [fmt]; [E] is the exception class of the
    instrument.  Each [check_wfm] above is an instance (lemmas
    [M8190A_check_wfm_guarded] and following). *)
Definition guarded (E : string -> exn) (minLen gran : Z)
    (fmt : list Float.t -> list Z) (wfm : list Float.t) : result (list Z) :=
  let rl := Z.of_nat (length wfm) in
  if rl <? minLen then
    Raise (E ("Waveform length: " +:+ Py.str rl +:+
              ", must be at least " +:+ Py.str minLen +:+ "."))
  else if gran =? 0 then Raise ZeroDivisionError
  else if negb (rl mod gran =? 0) then
    Raise (E ("Waveform must have a granularity of " +:+ Py.str gran +:+ "."))
  else Ok (fmt wfm).

(** What the stated length checks ask of a [check]: a waveform shorter
    than [minLen] is rejected with both lengths in the message, then a
    waveform whose length is no multiple of [gran] is rejected, and any
    other is formatted sample for sample; with the four boundary
    lengths spelled out. *)
Definition length_checked (E : string -> exn) (minLen gran : Z)
    (check : list Float.t -> result (list Z)) : Prop :=
  forall wfm : list Float.t,
    let rl := Z.of_nat (length wfm) in
    (rl < minLen ->
     check wfm = Raise (E ("Waveform length: " +:+ Py.str rl +:+
                           ", must be at least " +:+ Py.str minLen +:+ "."))) /\
    (minLen <= rl -> rl mod gran <> 0 ->
     check wfm = Raise (E ("Waveform must have a granularity of " +:+
                           Py.str gran +:+ "."))) /\
    (minLen <= rl -> rl mod gran = 0 ->
     exists out, check wfm = Ok out /\ length out = length wfm) /\
    (rl = minLen -> is_ok (check wfm)) /\
    (rl = minLen - 1 -> is_raise (check wfm)) /\
    (rl = minLen + gran -> is_ok (check wfm)) /\
    (rl = minLen + 1 -> 1 < gran -> is_raise (check wfm)).

(** A sample scaled by [m] in double precision, cut toward zero,
    shifted left by [s] bits and reduced to [w] bits in two's
    complement; zero when the scaled sample has no 32-bit integer
    part. *)
Definition quantize (w m s : Z) (x : Float.t) : Z :=
  match Float.mul (Float.of_Z m) x with
  | Float.Finite y =>
      let n := Float.trunc y in
      if (- 2 ^ 31 <=? n) && (n <? 2 ^ 31) then Np.wrap_signed w (n * 2 ^ s)
      else 0
  | _ => 0
  end.

(** All bit patterns of [k] characters. *)
Fixpoint bit_patterns (k : nat) : list string :=
  match k with
  | O => [""]
  | S k' => (map (String "0") (bit_patterns k') ++
             map (String "1") (bit_patterns k'))%list
  end.

(** Proof steps shared by the modulator lemmas: case analysis on the
    leading bits of a list, and a dict lookup settled by evaluation. *)
Ltac split_bits :=
  unfold Spec.bits in *;
  repeat match goal with
         | H : Forall _ (_ :: _) |- _ =>
             apply Forall_cons in H as [[-> | ->] H]
         | H : Forall _ (_ ++ _) |- _ => apply Forall_app in H as [? ?]
         end.

Ltac mapped_by_lookup := apply is_Some_alt; vm_compute; exact I.

(** The fields of a format-1 PDW as integers, in the order of the
    record layout. *)
Record pdw_fields : Type := {
  f_format : Z;
  f_operation : Z;
  f_freq : Z;
  f_phase : Z;
  f_startTimePs : Z;
  f_power : Z;
  f_markers : Z;
  f_phaseControl : Z;
  f_rfOff : Z;
  f_wIndex : Z;
  f_wfmMkrMask : Z
}.

(** Reading the fields back from six words, by the widths of the
    layout: 3 + 2 + 27 bits, 20 + 12 bits, 32 bits, 32 bits,
    15 + 12 + 1 + 1 bits, 16 + 12 + 4 bits. *)
Definition pdw_decode (words : list Z) : option pdw_fields :=
  match words with
  | [w0; w1; w2; w3; w4; w5] =>
      Some {| f_format := w0 mod 2 ^ 3;
              f_operation := (w0 / 2 ^ 3) mod 2 ^ 2;
              f_freq := w0 / 2 ^ 5 + (w1 mod 2 ^ 20) * 2 ^ 27;
              f_phase := w1 / 2 ^ 20;
              f_startTimePs := w2 + w3 * 2 ^ 32;
              f_power := w4 mod 2 ^ 15;
              f_markers := (w4 / 2 ^ 15) mod 2 ^ 12;
              f_phaseControl := (w4 / 2 ^ 27) mod 2;
              f_rfOff := (w4 / 2 ^ 28) mod 2;
              f_wIndex := w5 mod 2 ^ 16;
              f_wfmMkrMask := w5 / 2 ^ 28 |}
  | _ => None
  end.

(** The integer a little-endian byte string stands for. *)
Fixpoint le_combine (bs : list byte) : Z :=
  match bs with
  | [] => 0
  | b :: bs' => Z.of_N (Byte.to_N b) + 256 * le_combine bs'
  end.

(** A byte string read as consecutive little-endian 32-bit words. *)
Fixpoint words_of_bytes (bs : list byte) : list Z :=
  match bs with
  | b0 :: b1 :: b2 :: b3 :: bs' => le_combine [b0; b1; b2; b3] :: words_of_bytes bs'
  | _ => []
  end.

(** Reduction of the attribute updates of an M8190A object. *)
Ltac m8190a_attrs :=
  cbn [fst snd M8190A.res M8190A.gran M8190A.minLen M8190A.binMult
       M8190A.binShift M8190A.intFactor M8190A.idleGran
       M8190A.set_format M8190A.set_intFactor M8190A.set_idleGran].

(** * Properties *)

(** ** Rounding to binary64 *)

(** Powers of two. *)
Lemma pow2_pos e : (0 < Float.pow2 e)%Q.
Proof. apply Qpower_0_lt. reflexivity. Qed.

Lemma pow2_add a b : (Float.pow2 (a + b) == Float.pow2 a * Float.pow2 b)%Q.
Proof. apply Qpower_plus. discriminate. Qed.

Lemma pow2_le a b : a <= b -> (Float.pow2 a <= Float.pow2 b)%Q.
Proof. intros H. apply Qpower_le_compat_l; [exact H | discriminate]. Qed.

Lemma pow2_lt_inv a b : (Float.pow2 a < Float.pow2 b)%Q -> a < b.
Proof.
  intros H. apply (Qpower_lt_compat_l_inv 2); [exact H | reflexivity].
Qed.

Lemma pow2_Z n : 0 <= n -> (Float.pow2 n == inject_Z (2 ^ n))%Q.
Proof.
  intros H. unfold Float.pow2. rewrite Zpower_Qpower by exact H. reflexivity.
Qed.

(** [ilog2 x] is the exponent of the binade of [x]. *)
Lemma ilog2_spec x :
  ~ (x == 0)%Q ->
  (Float.pow2 (Float.ilog2 x) <= Qabs x)%Q /\
  (Qabs x < Float.pow2 (Float.ilog2 x + 1))%Q.
Proof.
  intros Hx. unfold Float.ilog2.
  set (a := Z.abs (Qnum x)). set (b := Z.pos (Qden x)).
  assert (Ha : 0 < a). { unfold Qeq in Hx. simpl in Hx. subst a. lia. }
  assert (Hb : 0 < b) by (subst b; lia).
  destruct (Z.log2_spec a Ha) as [Ha1 Ha2].
  destruct (Z.log2_spec b Hb) as [Hb1 Hb2].
  pose proof (Z.log2_nonneg a) as Hla. pose proof (Z.log2_nonneg b) as Hlb.
  set (la := Z.log2 a) in *. set (lb := Z.log2 b) in *.
  assert (Hax : (Qabs x == inject_Z a / inject_Z b)%Q).
  { destruct x as [n d]. subst a b. cbn [Qabs Qnum Qden]. apply Qmake_Qdiv. }
  assert (HbQ : (0 < inject_Z b)%Q)
    by (change 0%Q with (inject_Z 0); rewrite <- Zlt_Qlt; exact Hb).
  assert (Hup : forall k, k = la - lb -> (Qabs x < Float.pow2 (k + 1))%Q).
  { intros k ->. rewrite Hax. apply Qlt_shift_div_r; [exact HbQ|].
    apply Qlt_le_trans with (Float.pow2 (la - lb + 1) * Float.pow2 lb)%Q.
    - rewrite <- pow2_add. replace (la - lb + 1 + lb) with (la + 1) by lia.
      rewrite pow2_Z by lia. rewrite <- Zlt_Qlt.
      replace (la + 1) with (Z.succ la) by lia. exact Ha2.
    - apply Qmult_le_l; [apply pow2_pos|]. rewrite pow2_Z by lia.
      rewrite <- Zle_Qle. exact Hb1. }
  assert (Hlo : forall k, k = la - lb -> (Float.pow2 (k - 1) <= Qabs x)%Q).
  { intros k ->. rewrite Hax. apply Qle_shift_div_l; [exact HbQ|].
    apply Qle_trans with (Float.pow2 (la - lb - 1) * Float.pow2 (lb + 1))%Q.
    - apply Qmult_le_l; [apply pow2_pos|]. rewrite pow2_Z by lia.
      rewrite <- Zle_Qle. replace (lb + 1) with (Z.succ lb) by lia. lia.
    - rewrite <- pow2_add. replace (la - lb - 1 + (lb + 1)) with la by lia.
      rewrite pow2_Z by lia. rewrite <- Zle_Qle. exact Ha1. }
  destruct (Qle_bool (Float.pow2 (la - lb)) (Qabs x)) eqn:E.
  - split; [apply Qle_bool_iff; exact E | apply Hup; reflexivity].
  - split; [apply Hlo; reflexivity|].
    replace (la - lb - 1 + 1) with (la - lb) by lia.
    apply Qnot_le_lt. intros H. apply Qle_bool_iff in H. congruence.
Qed.

Lemma ilog2_mono x y :
  (0 < x)%Q -> (x <= y)%Q -> Float.ilog2 x <= Float.ilog2 y.
Proof.
  intros Hx Hxy.
  destruct (ilog2_spec x) as [H1 _]; [Lqa.lra|].
  destruct (ilog2_spec y) as [_ H2]; [Lqa.lra|].
  rewrite Qabs_pos in H1 by Lqa.lra. rewrite Qabs_pos in H2 by Lqa.lra.
  assert (Float.ilog2 x < Float.ilog2 y + 1) by (apply pow2_lt_inv; Lqa.lra).
  lia.
Qed.

(** Rounding to the nearest integer: downward or upward, a tie to the
    even neighbour. *)
Lemma rne_cases x :
  let f := Qfloor x in
  (Float.rne x = f /\ (x - inject_Z f <= 1 # 2)%Q /\
   ((x - inject_Z f == 1 # 2)%Q -> Z.even f = true)) \/
  (Float.rne x = f + 1 /\ (1 # 2 <= x - inject_Z f)%Q /\
   ((x - inject_Z f == 1 # 2)%Q -> Z.even f = false)).
Proof.
  intros f. unfold Float.rne. fold f.
  destruct (Qcompare_spec (x - inject_Z f) (1 # 2)) as [E | L | G].
  - destruct (Z.even f) eqn:Ev; [left | right];
      (split; [reflexivity | split; [Lqa.lra | auto]]).
  - left. split; [reflexivity | split; [Lqa.lra | intros; Lqa.lra]].
  - right. split; [reflexivity | split; [Lqa.lra | intros; Lqa.lra]].
Qed.

Lemma rne_mono x y : (x <= y)%Q -> Float.rne x <= Float.rne y.
Proof.
  intros H. pose proof (Qfloor_resp_le _ _ H) as Hf.
  destruct (rne_cases x) as [(-> & Hx1 & Hx2) | (-> & Hx1 & Hx2)];
  destruct (rne_cases y) as [(-> & Hy1 & Hy2) | (-> & Hy1 & Hy2)]; try lia.
  destruct (Z.eq_dec (Qfloor x) (Qfloor y)) as [E | N]; [|lia].
  exfalso. rewrite E in *.
  assert (Ex : (x - inject_Z (Qfloor y) == 1 # 2)%Q) by Lqa.lra.
  assert (Ey : (y - inject_Z (Qfloor y) == 1 # 2)%Q) by Lqa.lra.
  specialize (Hx2 Ex). specialize (Hy2 Ey). congruence.
Qed.

Lemma rne_Z k : Float.rne (inject_Z k) = k.
Proof.
  destruct (rne_cases (inject_Z k)) as [(-> & _) | (_ & H & _)].
  - apply Qfloor_Z.
  - rewrite Qfloor_Z in H. Lqa.lra.
Qed.

Lemma rne_comp x y : (x == y)%Q -> Float.rne x = Float.rne y.
Proof.
  intros E. unfold Float.rne. rewrite (Qfloor_comp _ _ E).
  assert (E' : (x - inject_Z (Qfloor y) == y - inject_Z (Qfloor y))%Q)
    by (rewrite E; reflexivity).
  rewrite (Qcompare_comp _ _ E' (1 # 2) (1 # 2)) by reflexivity. reflexivity.
Qed.

Lemma Qfloor_opp_frac x :
  ~ (x == inject_Z (Qfloor x))%Q -> Qfloor (- x) = - Qfloor x + -1.
Proof.
  intros N. pose proof (Qfloor_le x) as H1. pose proof (Qlt_floor x) as H2.
  pose proof (Qfloor_le (- x)) as H3. pose proof (Qlt_floor (- x)) as H4.
  rewrite inject_Z_plus in H2, H4.
  assert (L : (inject_Z (Qfloor x) < x)%Q).
  { apply Qle_lteq in H1. destruct H1 as [H1 | H1]; [exact H1|].
    exfalso. apply N. symmetry. exact H1. }
  assert (A : (inject_Z (Qfloor (- x)) < inject_Z (- Qfloor x))%Q)
    by (rewrite inject_Z_opp; Lqa.lra).
  assert (B : (inject_Z (- Qfloor x + -2) < inject_Z (Qfloor (- x)))%Q).
  { rewrite inject_Z_plus, inject_Z_opp.
    change (inject_Z (-2)) with (-2 # 1)%Q.
    change (inject_Z 1) with 1%Q in *. Lqa.lra. }
  rewrite <- Zlt_Qlt in A, B. lia.
Qed.

Lemma rne_opp x : Float.rne (- x) = - Float.rne x.
Proof.
  destruct (Qeq_dec x (inject_Z (Qfloor x))) as [E | N].
  - rewrite (rne_comp x _ E).
    assert (E' : (- x == inject_Z (- Qfloor x))%Q)
      by (rewrite inject_Z_opp, <- E; reflexivity).
    rewrite (rne_comp _ _ E'). rewrite !rne_Z. reflexivity.
  - pose proof (Qfloor_opp_frac x N) as Hf.
    destruct (rne_cases x) as [(-> & Hx1 & Hx2) | (-> & Hx1 & Hx2)];
    destruct (rne_cases (- x)) as [(-> & Hy1 & Hy2) | (-> & Hy1 & Hy2)];
    rewrite Hf in *; try lia; exfalso;
    rewrite inject_Z_plus, inject_Z_opp in Hy1, Hy2;
    change (inject_Z (-1)) with (-1 # 1)%Q in *.
    + assert (Ex : (x - inject_Z (Qfloor x) == 1 # 2)%Q) by Lqa.lra.
      assert (Ey : (- x - (- inject_Z (Qfloor x) + (-1 # 1)) == 1 # 2)%Q)
        by Lqa.lra.
      specialize (Hx2 Ex). specialize (Hy2 Ey).
      rewrite Z.even_add, Z.even_opp, Hx2 in Hy2. discriminate.
    + assert (Ex : (x - inject_Z (Qfloor x) == 1 # 2)%Q) by Lqa.lra.
      assert (Ey : (- x - (- inject_Z (Qfloor x) + (-1 # 1)) == 1 # 2)%Q)
        by Lqa.lra.
      specialize (Hx2 Ex). specialize (Hy2 Ey).
      rewrite Z.even_add, Z.even_opp, Hx2 in Hy2. discriminate.
Qed.

Lemma rne_le_int x k : (x <= inject_Z k)%Q -> Float.rne x <= k.
Proof. intros H. rewrite <- (rne_Z k). apply rne_mono. exact H. Qed.

Lemma rne_ge_int x k : (inject_Z k <= x)%Q -> k <= Float.rne x.
Proof. intros H. rewrite <- (rne_Z k). apply rne_mono. exact H. Qed.

Lemma ilog2_opp x : Float.ilog2 (- x) = Float.ilog2 x.
Proof.
  unfold Float.ilog2. destruct x as [n d]. cbn [Qopp Qnum Qden Qabs].
  rewrite Z.abs_opp. reflexivity.
Qed.

(** Rounding to binary64 is odd and monotone. *)
Lemma rnd_zero x : (x == 0)%Q -> Float.rnd x = 0%Q.
Proof. intros E. unfold Float.rnd. rewrite (Qeq_eq_bool _ _ E). reflexivity. Qed.

Lemma rnd_nonzero x :
  ~ (x == 0)%Q ->
  Float.rnd x =
    Qred (inject_Z (Float.rne (x / Float.pow2 (Float.ulp_exp x))) *
          Float.pow2 (Float.ulp_exp x)).
Proof.
  intros N. unfold Float.rnd. destruct (Qeq_bool x 0) eqn:E; [|reflexivity].
  apply Qeq_bool_eq in E. contradiction.
Qed.

Lemma rnd_opp x : Float.rnd (- x) = (- Float.rnd x)%Q.
Proof.
  destruct (Qeq_dec x 0) as [E | N].
  - rewrite (rnd_zero x E).
    rewrite rnd_zero; [reflexivity | rewrite E; reflexivity].
  - rewrite (rnd_nonzero x N).
    rewrite rnd_nonzero by (intros E; apply N; Lqa.lra).
    unfold Float.ulp_exp. rewrite ilog2_opp. rewrite <- Qred_opp.
    apply Qred_complete.
    set (e := Z.max (Float.ilog2 x - 52) (-1074)).
    assert (E : (- x / Float.pow2 e == - (x / Float.pow2 e))%Q)
      by (unfold Qdiv; ring).
    rewrite (rne_comp _ _ E), rne_opp, inject_Z_opp. ring.
Qed.

Lemma rnd_pos_mono x y :
  (0 < x)%Q -> (x <= y)%Q -> (Float.rnd x <= Float.rnd y)%Q.
Proof.
  intros Hx Hxy.
  rewrite (rnd_nonzero x) by Lqa.lra. rewrite (rnd_nonzero y) by Lqa.lra.
  rewrite !Qred_correct.
  pose proof (ilog2_mono x y Hx Hxy) as Hl.
  destruct (ilog2_spec x) as [Hx1 Hx2]; [Lqa.lra|].
  destruct (ilog2_spec y) as [Hy1 Hy2]; [Lqa.lra|].
  rewrite Qabs_pos in Hx1, Hx2 by Lqa.lra.
  rewrite Qabs_pos in Hy1, Hy2 by Lqa.lra.
  unfold Float.ulp_exp.
  set (ex := Z.max (Float.ilog2 x - 52) (-1074)).
  set (ey := Z.max (Float.ilog2 y - 52) (-1074)).
  pose proof (pow2_pos ex) as Pex. pose proof (pow2_pos ey) as Pey.
  destruct (Z.eq_dec ex ey) as [E | N].
  - rewrite <- E. apply Qmult_le_compat_r; [|Lqa.lra].
    rewrite <- Zle_Qle. apply rne_mono.
    apply Qle_shift_div_l; [exact Pex|]. unfold Qdiv.
    rewrite <- Qmult_assoc, (Qmult_comm (/ _)), Qmult_inv_r, Qmult_1_r
      by Lqa.lra.
    exact Hxy.
  - assert (Hey : ey = Float.ilog2 y - 52) by lia.
    assert (Hlt : Float.ilog2 x + 1 <= Float.ilog2 y) by lia.
    set (E := Float.ilog2 y) in *.
    apply Qle_trans with (Float.pow2 E).
    + (* below the binade of [y] *)
      assert (Hd : 0 <= E - ex) by lia.
      assert (Hk : (inject_Z (Float.rne (x / Float.pow2 ex)) <=
                    inject_Z (2 ^ (E - ex)))%Q).
      { rewrite <- Zle_Qle. apply rne_le_int. rewrite <- pow2_Z by exact Hd.
        apply Qle_shift_div_r; [exact Pex|]. rewrite <- pow2_add.
        replace (E - ex + ex) with E by lia.
        apply Qle_trans with (Float.pow2 (Float.ilog2 x + 1));
          [Lqa.lra | apply pow2_le; lia]. }
      rewrite <- pow2_Z in Hk by exact Hd.
      apply Qle_trans with (Float.pow2 (E - ex) * Float.pow2 ex)%Q.
      * apply Qmult_le_compat_r; [exact Hk | Lqa.lra].
      * rewrite <- pow2_add. replace (E - ex + ex) with E by lia. apply Qle_refl.
    + (* in the binade of [y] *)
      assert (Hk : (inject_Z (2 ^ 52) <=
                    inject_Z (Float.rne (y / Float.pow2 ey)))%Q).
      { rewrite <- Zle_Qle. apply rne_ge_int. rewrite <- pow2_Z by lia.
        apply Qle_shift_div_l; [exact Pey|]. rewrite <- pow2_add.
        replace (52 + ey) with E by lia. exact Hy1. }
      rewrite <- pow2_Z in Hk by lia.
      apply Qle_trans with (Float.pow2 52 * Float.pow2 ey)%Q.
      * rewrite <- pow2_add. replace (52 + ey) with E by lia. apply Qle_refl.
      * apply Qmult_le_compat_r; [exact Hk | Lqa.lra].
Qed.

Lemma rnd_nonneg x : (0 <= x)%Q -> (0 <= Float.rnd x)%Q.
Proof.
  intros H. destruct (Qeq_dec x 0) as [E | N].
  - rewrite (rnd_zero x E). apply Qle_refl.
  - rewrite (rnd_nonzero x N), Qred_correct.
    apply Qmult_le_0_compat; [|apply Qlt_le_weak, pow2_pos].
    change 0%Q with (inject_Z 0). rewrite <- Zle_Qle. apply rne_ge_int.
    apply Qle_shift_div_l; [apply pow2_pos|]. change (inject_Z 0) with 0%Q. Lqa.lra.
Qed.

Lemma rnd_mono x y : (x <= y)%Q -> (Float.rnd x <= Float.rnd y)%Q.
Proof.
  intros H.
  destruct (Qlt_le_dec 0 x) as [Px | Nx].
  - apply rnd_pos_mono; assumption.
  - destruct (Qlt_le_dec y 0) as [Ny | Py].
    + assert (Hm : (Float.rnd (- y) <= Float.rnd (- x))%Q)
        by (apply rnd_pos_mono; Lqa.lra).
      rewrite !rnd_opp in Hm. Lqa.lra.
    + apply Qle_trans with 0%Q; [|apply rnd_nonneg; exact Py].
      assert (Hm : (0 <= Float.rnd (- x))%Q) by (apply rnd_nonneg; Lqa.lra).
      rewrite rnd_opp in Hm. Lqa.lra.
Qed.

(** The integer part, by sign. *)
Lemma trunc_nonneg x : 0 <= Qnum x -> Float.trunc x = Qfloor x.
Proof.
  destruct x as [n d]. unfold Float.trunc, Qfloor. cbn [Qnum Qden]. intros H.
  apply Z.quot_div_nonneg; lia.
Qed.

Lemma trunc_opp x : Float.trunc (- x) = - Float.trunc x.
Proof.
  destruct x as [n d]. unfold Float.trunc. cbn [Qnum Qden Qopp].
  apply Z.quot_opp_l. lia.
Qed.

Lemma trunc_sign x :
  (0 <= Qnum x -> 0 <= Float.trunc x) /\ (Qnum x <= 0 -> Float.trunc x <= 0).
Proof.
  destruct x as [n d]. unfold Float.trunc. cbn [Qnum Qden]. split; intros H.
  - apply Z.quot_pos; lia.
  - replace n with (- - n) by lia. rewrite Z.quot_opp_l by lia.
    assert (0 <= - n ÷ Z.pos d) by (apply Z.quot_pos; lia). lia.
Qed.

(** The integer part is monotone. *)
Lemma trunc_monotone x y : (x <= y)%Q -> Float.trunc x <= Float.trunc y.
Proof.
  intros Hxy.
  destruct (Z.lt_ge_cases (Qnum x) 0) as [Hx|Hx];
    destruct (Z.lt_ge_cases (Qnum y) 0) as [Hy|Hy].
  - assert (Ex : Float.trunc x = - Qfloor (- x)).
    { rewrite <- trunc_nonneg by (destruct x; cbn in *; lia).
      rewrite trunc_opp. lia. }
    assert (Ey : Float.trunc y = - Qfloor (- y)).
    { rewrite <- trunc_nonneg by (destruct y; cbn in *; lia).
      rewrite trunc_opp. lia. }
    apply Qopp_le_compat, Qfloor_resp_le in Hxy. lia.
  - pose proof (proj2 (trunc_sign x)). pose proof (proj1 (trunc_sign y)). lia.
  - exfalso. destruct x as [n d], y as [n' d']. unfold Qle in Hxy.
    cbn [Qnum Qden] in *. nia.
  - rewrite 2!trunc_nonneg by assumption. apply Qfloor_resp_le, Hxy.
Qed.

Lemma trunc_Z k : Float.trunc (inject_Z k) = k.
Proof. unfold Float.trunc. cbn [inject_Z Qnum Qden]. apply Z.quot_1_r. Qed.

(** Integers of at most 53 bits are binary64 values. *)
Lemma Qred_inject_Z m : Qred (inject_Z m) = inject_Z m.
Proof.
  unfold Qred, inject_Z.
  pose proof (Z.ggcd_gcd m 1) as Hg. pose proof (Z.ggcd_correct_divisors m 1) as Hd.
  destruct (Z.ggcd m 1) as [g [a b]]. cbn [fst snd] in *.
  rewrite Z.gcd_1_r in Hg. subst g. destruct Hd as [Ha Hb].
  rewrite Z.mul_1_l in Ha, Hb. subst a b. reflexivity.
Qed.

Lemma rnd_Z m : Z.abs m < 2 ^ 53 -> Float.rnd (inject_Z m) = inject_Z m.
Proof.
  intros Hm. destruct (Z.eq_dec m 0) as [->|Hne]; [reflexivity|].
  assert (N : ~ (inject_Z m == 0)%Q).
  { unfold Qeq. cbn. lia. }
  rewrite (rnd_nonzero _ N).
  transitivity (Qred (inject_Z m)); [apply Qred_complete | apply Qred_inject_Z].
  set (e := Float.ulp_exp (inject_Z m)).
  assert (He : e <= 0).
  { subst e. unfold Float.ulp_exp.
    destruct (ilog2_spec _ N) as [H1 _].
    assert (Float.ilog2 (inject_Z m) < 53).
    { apply pow2_lt_inv. eapply Qle_lt_trans; [exact H1|].
      rewrite pow2_Z by lia. 
      assert (E : (Qabs (inject_Z m) == inject_Z (Z.abs m))%Q) by reflexivity.
      rewrite E. rewrite <- Zlt_Qlt. exact Hm. }
    lia. }
  assert (Ep : (Float.pow2 e == / Float.pow2 (- e))%Q).
  { unfold Float.pow2. rewrite <- Qpower_opp. rewrite Z.opp_involutive. reflexivity. }
  assert (Ei : (inject_Z m / Float.pow2 e == inject_Z (m * 2 ^ (- e)))%Q).
  { rewrite inject_Z_mult, <- pow2_Z by lia. rewrite Ep. unfold Qdiv.
    rewrite Qinv_involutive. reflexivity. }
  rewrite (rne_comp _ _ Ei), rne_Z, inject_Z_mult, <- pow2_Z by lia.
  rewrite Ep. pose proof (pow2_pos (- e)). field. Lqa.lra.
Qed.

Lemma pow2_1024_gt m :
  Z.abs m <= 2 ^ 53 ->
  Qle_bool (Float.pow2 1024) (Qabs (inject_Z m)) = false.
Proof.
  intros Hm. destruct (Qle_bool _ _) eqn:E; [|reflexivity]. exfalso.
  apply Qle_bool_iff in E. rewrite pow2_Z in E by lia.
  assert (E' : (Qabs (inject_Z m) == inject_Z (Z.abs m))%Q) by reflexivity.
  rewrite E' in E. rewrite <- Zle_Qle in E.
  assert (2 ^ 53 < 2 ^ 1024) by (apply Z.pow_lt_mono_r; lia). lia.
Qed.

Lemma of_Z_exact m : Z.abs m < 2 ^ 53 -> Float.of_Z m = Float.Finite (inject_Z m).
Proof.
  intros Hm. unfold Float.of_Z, Float.round. rewrite rnd_Z by exact Hm.
  rewrite pow2_1024_gt by lia. reflexivity.
Qed.

(** The product of such an integer and a sample between -1 and 1 is
    finite and no larger than the integer. *)
Lemma mul_of_Z_unit m x :
  0 <= m < 2 ^ 53 -> (-1 <= x <= 1)%Q ->
  Float.mul (Float.of_Z m) (Float.Finite x) =
    Float.Finite (Float.rnd (inject_Z m * x)) /\
  (- inject_Z m <= Float.rnd (inject_Z m * x) <= inject_Z m)%Q.
Proof.
  intros Hm Hx.
  assert (Hb : (- inject_Z m <= Float.rnd (inject_Z m * x) <= inject_Z m)%Q).
  { assert (Hm0 : (0 <= inject_Z m)%Q)
      by (change 0%Q with (inject_Z 0); rewrite <- Zle_Qle; lia).
    assert (Hp : (- inject_Z m <= inject_Z m * x <= inject_Z m)%Q) by (split; Lqa.nra).
    split.
    - rewrite <- (rnd_Z m) at 1 by lia. rewrite <- rnd_opp. apply rnd_mono, Hp.
    - rewrite <- (rnd_Z m) at 2 by lia. apply rnd_mono, Hp. }
  split; [|exact Hb].
  rewrite of_Z_exact by lia. unfold Float.mul, Float.round.
  destruct (Qle_bool _ _) eqn:E; [|reflexivity]. exfalso.
  apply Qle_bool_iff in E.
  assert (Qabs (Float.rnd (inject_Z m * x)) <= inject_Z m)%Q
    by (apply Qabs_Qle_condition; exact Hb).
  rewrite pow2_Z in E by lia.
  assert (inject_Z (2 ^ 1024) <= inject_Z m)%Q by (eapply Qle_trans; eassumption).
  rewrite <- Zle_Qle in *.
  assert (2 ^ 53 < 2 ^ 1024) by (apply Z.pow_lt_mono_r; lia). lia.
Qed.

Lemma trunc_bound k r :
  (- inject_Z k <= r <= inject_Z k)%Q -> - k <= Float.trunc r <= k.
Proof.
  intros [H1 H2]. rewrite <- inject_Z_opp in H1.
  apply trunc_monotone in H1, H2. rewrite trunc_Z in H1, H2. lia.
Qed.

(** ** Results and exceptions *)

Lemma comprehension_ok {A B : Type} (f : A -> result B) (l : list A) :
  Forall (fun a => is_ok (f a)) l ->
  exists bs, Py.comprehension f l = Ok bs /\ Forall2 (fun a b => f a = Ok b) l bs.
Proof.
  induction 1 as [|a l Ha _ IH]; simpl.
  - exists []. split; [reflexivity | constructor].
  - destruct (f a) as [b|e] eqn:Hfa; [|contradiction].
    destruct IH as (bs & -> & Hbs). simpl.
    exists (b :: bs). split; [reflexivity | constructor; assumption].
Qed.

Lemma comprehension_inv {A B : Type} (f : A -> result B) (l : list A) bs :
  Py.comprehension f l = Ok bs -> Forall2 (fun a b => f a = Ok b) l bs.
Proof.
  revert bs. induction l as [|a l IH]; simpl; intros bs H.
  - injection H as <-. constructor.
  - destruct (f a) as [b|e] eqn:Hfa; simpl in H; [|discriminate].
    destruct (Py.comprehension f l) as [bs'|e]; simpl in H; [|discriminate].
    injection H as <-. constructor; auto.
Qed.

Lemma comprehension_length {A B : Type} (f : A -> result B) (l : list A) bs :
  Py.comprehension f l = Ok bs -> length bs = length l.
Proof.
  intros H. apply comprehension_inv in H.
  symmetry. eapply Forall2_length, H.
Qed.

(** ** Bytes *)

Lemma length_le_bytes n z : length (Py.le_bytes n z) = n.
Proof. revert z. induction n; simpl; intros; [reflexivity | f_equal; apply IHn]. Qed.

Lemma length_tobytes_uint32 a :
  length (Np.tobytes_uint32 a) = (4 * length a)%nat.
Proof.
  unfold Np.tobytes_uint32. induction a as [|x a IH]; [reflexivity|].
  cbn [map concat length]. rewrite length_app, length_le_bytes, IH. lia.
Qed.

(** ** PDW words *)

Lemma land_mask_range a k : 0 <= k -> 0 <= Z.land a (Z.ones k) < 2 ^ k.
Proof.
  intros Hk. rewrite Z.land_ones by assumption. apply Z.mod_pos_bound. lia.
Qed.

Lemma word0_range p s : 0 <= UXG.word0 p s < 2 ^ 32.
Proof. apply (land_mask_range _ 32). lia. Qed.

Lemma word1_range s : 0 <= UXG.word1 s < 2 ^ 32.
Proof. apply (land_mask_range _ 32). lia. Qed.

Lemma word2_range s : 0 <= UXG.word2 s < 2 ^ 32.
Proof. apply (land_mask_range _ 32). lia. Qed.

Lemma word3_range s : 0 <= UXG.word3 s < 2 ^ 32.
Proof.
  unfold UXG.word3. rewrite Z.shiftr_land.
  change (Z.shiftr 0xFFFFFFFF00000000 32) with (Z.ones 32).
  apply land_mask_range. lia.
Qed.

Lemma setitem_uint32_in_range np v :
  0 <= v < 2 ^ 32 -> Np.setitem_uint32 np v = Ok v.
Proof.
  intros [H0 H1]. unfold Np.setitem_uint32.
  destruct (Z.leb_spec 0 v); [|lia].
  destruct (Z.ltb_spec v (2 ^ 32)); [|lia]. reflexivity.
Qed.

(** The builder stores exactly the six word expressions whenever the
    four quantities scale to integers and the two unmasked words are
    32-bit values. *)
Lemma bin_pdw_builder_words np p s :
  UXG.scale p = Ok s ->
  0 <= UXG.word4 p s < 2 ^ 32 -> 0 <= UXG.word5 p < 2 ^ 32 ->
  UXG.bin_pdw_builder np p =
    Ok [UXG.word0 p s; UXG.word1 s; UXG.word2 s; UXG.word3 s;
        UXG.word4 p s; UXG.word5 p].
Proof.
  intros Hs H4 H5. unfold UXG.bin_pdw_builder. rewrite Hs. cbn [Py.bind].
  rewrite !setitem_uint32_in_range;
    auto using word0_range, word1_range, word2_range, word3_range.
Qed.

Lemma bin_pdw_builder_length np p rec :
  UXG.bin_pdw_builder np p = Ok rec -> length rec = 6%nat.
Proof.
  unfold UXG.bin_pdw_builder. intros H.
  repeat match type of H with
         | Py.bind ?r _ = _ => destruct r; cbn [Py.bind] in H; [|discriminate]
         end.
  injection H as <-. reflexivity.
Qed.

(** A descriptor is scaled, or the conversion of an infinity or of a
    NaN to an integer ends the call before any word is stored. *)
Lemma bin_pdw_builder_scale_raise np p e :
  UXG.scale p = Raise e -> UXG.bin_pdw_builder np p = Raise e.
Proof. intros H. unfold UXG.bin_pdw_builder. rewrite H. reflexivity. Qed.

(** ** The PDW file *)

(** The header, the padding block and the PDW block header are fixed
    and add up to 48 + 4032 + 16 bytes. *)
Lemma preamble_ok : exists pre, UXG.preamble = Ok pre /\ length pre = 4096%nat.
Proof.
  assert (H : match UXG.preamble with
              | Ok pre => Nat.eqb (length pre) 4096 = true
              | Raise _ => False
              end) by (vm_compute; reflexivity).
  destruct UXG.preamble as [pre|e]; [|contradiction].
  exists pre. split; [reflexivity | apply Nat.eqb_eq, H].
Qed.

(** The builder, with its three fixed blocks gathered in [preamble]. *)
Lemma bin_pdw_file_builder_unfold np fs pdwList :
  snd (UXG.bin_pdw_file_builder np fs pdwList) =
    (pre <- UXG.preamble ;;
     pdws <- Py.comprehension (UXG.bin_pdw_builder np) pdwList ;;
     let pdwFile := (pre ++ concat (map Np.tobytes_uint32 pdws))%list in
     _ <- snd (UXG.write_file fs UXG.pdwtest_path pdwFile) ;;
     Ok pdwFile).
Proof.
  unfold UXG.bin_pdw_file_builder, UXG.preamble.
  destruct UXG.header as [h|e]; cbn [Py.bind snd]; [|reflexivity].
  destruct UXG.padding as [pd|e]; cbn [Py.bind snd]; [|reflexivity].
  destruct UXG.pdwBlock as [b|e]; cbn [Py.bind snd]; [|reflexivity].
  destruct (Py.comprehension _ pdwList) as [pdws|e]; cbn [Py.bind snd];
    [|reflexivity].
  rewrite concat_app. unfold UXG.write_file.
  destruct (UXG.writable fs UXG.pdwtest_path); reflexivity.
Qed.

(** C1.  For a non-empty descriptor list [p :: ps], the file that
    [bin_pdw_file_builder] returns consists of the fixed 4096-byte
    preamble (header, padding block, PDW block header) followed by the
    24-byte records, so the encoded record of [p] starts at byte offset
    4096 whatever the number of descriptors.  The call does return a
    file when every descriptor is encodable (its four quantities scale
    to integers and its two unmasked words are 32-bit values) and the
    output path can be opened. *)
Theorem bin_pdw_file_builder_first_record_at_4096 :
  forall np fs p ps,
    (UXG.writable fs UXG.pdwtest_path = true ->
     Forall (fun d => exists s, UXG.scale d = Ok s /\
                                0 <= UXG.word4 d s < 2 ^ 32 /\
                                0 <= UXG.word5 d < 2 ^ 32)
            (p :: ps) ->
     is_ok (snd (UXG.bin_pdw_file_builder np fs (p :: ps)))) /\
    (forall file,
        snd (UXG.bin_pdw_file_builder np fs (p :: ps)) = Ok file ->
        exists pre rec,
          UXG.preamble = Ok pre /\
          UXG.bin_pdw_builder np p = Ok rec /\
          length pre = 4096%nat /\
          take 4096 file = pre /\
          take 24 (drop 4096 file) = Np.tobytes_uint32 rec /\
          length file = (4096 + 24 * length (p :: ps))%nat).
Proof.
  intros np fs p ps.
  destruct preamble_ok as (pre & Hpre & Hlen).
  split.
  - intros Hw Hfit.
    rewrite bin_pdw_file_builder_unfold, Hpre. cbn [Py.bind].
    destruct (comprehension_ok (UXG.bin_pdw_builder np) (p :: ps)) as (recs & -> & _).
    { eapply Forall_impl; [exact Hfit|].
      intros d (s & Hs & H4 & H5).
      rewrite (bin_pdw_builder_words np d s) by assumption. exact I. }
    cbn [Py.bind]. unfold UXG.write_file. rewrite Hw. exact I.
  - intros file Hfile.
    rewrite bin_pdw_file_builder_unfold, Hpre in Hfile. cbn [Py.bind] in Hfile.
    destruct (Py.comprehension _ (p :: ps)) as [recs|e] eqn:Hrecs;
      cbn [Py.bind] in Hfile; [|discriminate].
    destruct (snd (UXG.write_file fs _ _)); cbn [Py.bind] in Hfile; [|discriminate].
    injection Hfile as <-.
    pose proof (comprehension_inv _ _ _ Hrecs) as Hall.
    inversion Hall as [|? rec ? recs' Hrec Hrest]; subst.
    pose proof (bin_pdw_builder_length _ _ _ Hrec) as Hrl.
    assert (Hbl : length (Np.tobytes_uint32 rec) = 24%nat)
      by (rewrite length_tobytes_uint32, Hrl; reflexivity).
    exists pre, rec. repeat split; try assumption.
    + rewrite <- Hlen. apply take_app_length.
    + rewrite <- Hlen, drop_app_length.
      cbn [map concat]. rewrite <- Hbl. apply take_app_length.
    + rewrite length_app, Hlen. f_equal.
      assert (Hsame : length recs' = length ps)
        by (symmetry; eapply Forall2_length, Hrest).
      cbn [map concat length]. rewrite length_app, Hbl, <- Hsame.
      clear - Hrest. induction Hrest as [|d r ds rs Hr _ IH]; [reflexivity|].
      cbn [map concat length]. rewrite length_app, length_tobytes_uint32.
      rewrite (bin_pdw_builder_length _ _ _ Hr). lia.
Qed.

Lemma bin_pdw_file_builder_first_record_at_4096_witness :
  exists file,
    snd (UXG.bin_pdw_file_builder Np.Strict
           {| UXG.writable := fun _ => true; UXG.files := ∅ |}
           [UXG.defaults]) = Ok file /\
    take 24 (drop 4096 file) =
      Np.tobytes_uint32 [1694498817; 7629; 0; 0; 28000; 0].
Proof.
  destruct (bin_pdw_file_builder_first_record_at_4096 Np.Strict
              {| UXG.writable := fun _ => true; UXG.files := ∅ |}
              UXG.defaults []) as [Hret Hlay].
  destruct (snd (UXG.bin_pdw_file_builder _ _ _)) as [file|e] eqn:Hfile.
  - exists file. split; [reflexivity|].
    destruct (Hlay file eq_refl) as (pre & rec & _ & Hrec & _ & _ & Hat & _).
    vm_compute in Hrec. injection Hrec as <-. exact Hat.
  - exfalso. apply Hret; [reflexivity|].
    constructor; [|constructor].
    exists (UXG.Scaled 1024000000000 0 0 28000).
    split; [vm_compute; reflexivity|].
    change (0 <= 28000 < 2 ^ 32 /\ 0 <= 0 < 2 ^ 32). lia.
Defined.

(** ** Scaling and packing of the PDW fields *)

Lemma land_shiftl_low a b k :
  0 <= k -> 0 <= a < 2 ^ k -> Z.land a (Z.shiftl b k) = 0.
Proof.
  intros Hk Ha. apply Z.bits_inj'. intros n Hn.
  rewrite Z.land_spec, Z.bits_0.
  destruct (Z.lt_ge_cases n k) as [Hlt|Hge].
  - rewrite Z.shiftl_spec_low by assumption. apply andb_false_r.
  - rewrite <- (Z.mod_small a (2 ^ k)) by assumption.
    rewrite Z.mod_pow2_bits_high by lia. reflexivity.
Qed.

(** A field OR-ed above a value that ends below it is added to it. *)
Lemma lor_shiftl_add a b k :
  0 <= k -> 0 <= a < 2 ^ k -> Z.lor a (Z.shiftl b k) = a + b * 2 ^ k.
Proof.
  intros Hk Ha. pose proof (land_shiftl_low a b k Hk Ha) as H0.
  rewrite <- Z.lxor_lor, <- Z.add_nocarry_lxor by assumption.
  rewrite Z.shiftl_mul_pow2 by assumption. reflexivity.
Qed.

(** The layout of the six words of a descriptor whose fields fit, in
    terms of the four quantities as the code has scaled them. *)
Lemma bin_pdw_builder_layout np p s :
  UXG.scale p = Ok s ->
  pdw_fits p s ->
  UXG.bin_pdw_builder np p =
    Ok [ 1 + UXG.operation p * 2 ^ 3 + (UXG._freq s mod 2 ^ 27) * 2 ^ 5;
         UXG._freq s / 2 ^ 27 + UXG._phase s * 2 ^ 20;
         UXG._startTimePs s mod 2 ^ 32;
         UXG._startTimePs s / 2 ^ 32;
         UXG._power s + UXG.markers p * 2 ^ 15
           + UXG.phaseControl p * 2 ^ 27 + UXG.rfOff p * 2 ^ 28;
         UXG.wIndex p + UXG.wfmMkrMask p * 2 ^ 28 ].
Proof.
  intros Hs (Hop & Hf & Hph & Ht & Hpw & Hm & Hpc & Hrf & Hwi & Hmk).
  assert (E4 : UXG.word4 p s =
               UXG._power s + UXG.markers p * 2 ^ 15
               + UXG.phaseControl p * 2 ^ 27 + UXG.rfOff p * 2 ^ 28).
  { unfold UXG.word4.
    rewrite (lor_shiftl_add _ _ 15) by lia.
    rewrite (lor_shiftl_add _ _ 27) by lia.
    rewrite (lor_shiftl_add _ _ 28) by lia. reflexivity. }
  assert (E5 : UXG.word5 p = UXG.wIndex p + UXG.wfmMkrMask p * 2 ^ 28).
  { unfold UXG.word5. rewrite Z.shiftl_0_l, Z.lor_0_r.
    rewrite lor_shiftl_add; lia. }
  rewrite (bin_pdw_builder_words np p s) by (rewrite ?E4, ?E5; (assumption || lia)).
  rewrite E4, E5. repeat f_equal.
  - unfold UXG.word0, UXG.pdwFormat.
    rewrite (lor_shiftl_add _ _ 3) by lia.
    rewrite (lor_shiftl_add _ _ 5) by lia.
    change 0xFFFFFFFF with (Z.ones 32). rewrite Z.land_ones by lia.
    change (2 ^ 32) with 4294967296. change (2 ^ 27) with 134217728.
    Z.div_mod_to_equations. lia.
  - unfold UXG.word1.
    rewrite Z.shiftr_div_pow2 by lia.
    assert (0 <= UXG._freq s / 2 ^ 27 < 2 ^ 20)
      by (change (2 ^ 27) with 134217728; Z.div_mod_to_equations; lia).
    rewrite lor_shiftl_add by lia.
    change 0xFFFFFFFF with (Z.ones 32). rewrite Z.land_ones by lia.
    apply Z.mod_small. lia.
  - apply (Z.land_ones _ 32). lia.
  - unfold UXG.word3. rewrite Z.shiftr_land.
    change (Z.shiftr 0xFFFFFFFF00000000 32) with (Z.ones 32).
    rewrite Z.land_ones, Z.shiftr_div_pow2 by lia.
    apply Z.mod_small.
    change (2 ^ 32) with 4294967296. Z.div_mod_to_equations. lia.
Qed.

(** The builder checks no field width.  Whenever the four quantities
    scale to integers and the two unmasked words (4 and 5) are 32-bit
    values, it returns the six words, whatever the widths of the scaled
    frequency, phase and start time and of the operation; words 0 to 3
    are cut to 32 bits by their masks. *)
Lemma bin_pdw_builder_masks np p s :
  UXG.scale p = Ok s ->
  0 <= UXG.word4 p s < 2 ^ 32 ->
  0 <= UXG.word5 p < 2 ^ 32 ->
  exists w0 w1 w2 w3,
    UXG.bin_pdw_builder np p = Ok [w0; w1; w2; w3; UXG.word4 p s; UXG.word5 p] /\
    w0 = Z.lor (Z.lor 1 (Z.shiftl (UXG.operation p) 3))
               (Z.shiftl (UXG._freq s) 5) mod 2 ^ 32 /\
    w1 = Z.lor (Z.shiftr (UXG._freq s) 27)
               (Z.shiftl (UXG._phase s) 20) mod 2 ^ 32 /\
    w2 = UXG._startTimePs s mod 2 ^ 32 /\
    w3 = (UXG._startTimePs s / 2 ^ 32) mod 2 ^ 32.
Proof.
  intros Hs H4 H5.
  exists (UXG.word0 p s), (UXG.word1 s), (UXG.word2 s), (UXG.word3 s).
  split; [apply bin_pdw_builder_words; assumption|].
  repeat split.
  - apply (Z.land_ones _ 32). lia.
  - apply (Z.land_ones _ 32). lia.
  - apply (Z.land_ones _ 32). lia.
  - unfold UXG.word3. rewrite Z.shiftr_land.
    change (Z.shiftr 0xFFFFFFFF00000000 32) with (Z.ones 32).
    rewrite Z.land_ones, Z.shiftr_div_pow2 by lia. reflexivity.
Qed.

(** ** The PDW record *)

(** C2.  A descriptor on which the start-time word differs from the
    stated layout: with [startTimeSec = 2 ** -40] (about 0.91 ps; the
    product with [1e12] is exact in double precision) every field fits
    its width and [round(startTimeSec * 1e12)] is 1, but the builder
    stores [int(startTimeSec * 1e12) = 0] in word 2.  The other five
    words are as the layout says. *)
Theorem bin_pdw_builder_start_time_not_rounded :
  let p := {| UXG.operation := 0; UXG.freq := Float.literal 1e9;
              UXG.phase := Float.of_Z 0;
              UXG.startTimeSec := Float.Finite (1 # 2 ^ 40);
              UXG.power := Float.of_Z 0;
              UXG.markers := 0; UXG.phaseControl := 0; UXG.rfOff := 0;
              UXG.wIndex := 0; UXG.wfmMkrMask := 0 |} in
  exists s,
    UXG.scale p = Ok s /\
    pdw_fits p s /\
    Float.mul (UXG.startTimeSec p) (Float.literal 1e12) =
      Float.Finite (Qred (exact (UXG.startTimeSec p) * 1e12)) /\
    Spec.round (exact (UXG.startTimeSec p) * 1e12) = 1 /\
    UXG._startTimePs s = 0 /\
    Spec.round (exact (UXG.freq p) * 1024) = UXG._freq s /\
    Spec.round (exact (UXG.phase p) * 4096 / 360) = UXG._phase s /\
    Spec.round ((exact (UXG.power p) + 140) / 0.005) = UXG._power s /\
    UXG.bin_pdw_builder Np.Strict p = Ok [1694498817; 7629; 0; 0; 28000; 0] /\
    UXG.bin_pdw_builder Np.Legacy p = Ok [1694498817; 7629; 0; 0; 28000; 0].
Proof.
  exists (UXG.Scaled 1024000000000 0 0 28000).
  split; [vm_compute; reflexivity|].
  split; [unfold pdw_fits; cbn; lia|].
  vm_compute. repeat split; reflexivity.
Qed.

(** C3.  Two descriptors with a field one bit too wide: a frequency of
    [2 ** 37] Hz scales to [2 ** 47], one bit more than the 47-bit
    field, and a power of 23.84 dBm scales to [2 ** 15], one bit more
    than the 15-bit field.  Both are encoded without any error, under
    either NumPy behaviour, and neither field is cut to its width: the
    excess frequency bit is stored as bit 0 of the phase field of word
    1, so that the record reads phase 1 for a phase of 0, and the
    excess power bit as bit 0 of the marker field of word 4, so that
    the record reads markers 1 for markers 0. *)
Theorem bin_pdw_builder_overflow_is_silent :
  let pf := {| UXG.operation := 0; UXG.freq := Float.of_Z (2 ^ 37);
               UXG.phase := Float.of_Z 0; UXG.startTimeSec := Float.of_Z 0;
               UXG.power := Float.of_Z 0;
               UXG.markers := 0; UXG.phaseControl := 0; UXG.rfOff := 0;
               UXG.wIndex := 0; UXG.wfmMkrMask := 0 |} in
  let pp := {| UXG.operation := 0; UXG.freq := Float.literal 1e9;
               UXG.phase := Float.of_Z 0; UXG.startTimeSec := Float.of_Z 0;
               UXG.power := Float.literal 23.84;
               UXG.markers := 0; UXG.phaseControl := 0; UXG.rfOff := 0;
               UXG.wIndex := 0; UXG.wfmMkrMask := 0 |} in
  (UXG.scale pf = Ok (UXG.Scaled (2 ^ 47) 0 0 28000) /\
   UXG.bin_pdw_builder Np.Strict pf = Ok [1; 2 ^ 20; 0; 0; 28000; 0] /\
   UXG.bin_pdw_builder Np.Legacy pf = Ok [1; 2 ^ 20; 0; 0; 28000; 0] /\
   option_map f_freq (pdw_decode [1; 2 ^ 20; 0; 0; 28000; 0]) = Some 0 /\
   option_map f_phase (pdw_decode [1; 2 ^ 20; 0; 0; 28000; 0]) = Some 1) /\
  (UXG.scale pp = Ok (UXG.Scaled 1024000000000 0 0 (2 ^ 15)) /\
   UXG.bin_pdw_builder Np.Strict pp = Ok [1694498817; 7629; 0; 0; 2 ^ 15; 0] /\
   UXG.bin_pdw_builder Np.Legacy pp = Ok [1694498817; 7629; 0; 0; 2 ^ 15; 0] /\
   option_map f_power (pdw_decode [1694498817; 7629; 0; 0; 2 ^ 15; 0]) = Some 0 /\
   option_map f_markers (pdw_decode [1694498817; 7629; 0; 0; 2 ^ 15; 0]) = Some 1).
Proof. vm_compute. repeat split; reflexivity. Qed.

(** ** Resolution modes of the M8190A *)

(** A successful [check_resolution] leaves one of the three formats. *)
Lemma check_resolution_format self self' :
  M8190A.check_resolution self = (self', Ok tt) ->
  (M8190A.gran self', M8190A.minLen self', M8190A.binMult self', M8190A.binShift self')
  ∈ [(48, 240, 8191, 2); (64, 320, 2047, 4); (24, 120, 16383, 1)].
Proof.
  unfold M8190A.check_resolution. intros H.
  destruct (String.eqb _ "wpr"); [injection H as <-; cbn; set_solver|].
  destruct (String.eqb _ "wsp"); [injection H as <-; cbn; set_solver|].
  destruct (Py.contains _ _); [|discriminate].
  destruct (Py.int_of_str _) as [n|e]; [|discriminate].
  destruct (n =? 3); [injection H as <-; cbn; set_solver|].
  destruct (n =? 12); [injection H as <-; cbn; set_solver|].
  destruct ((n =? 24) || (n =? 48)); injection H as <-; cbn; set_solver.
Qed.

(** The mode identifier itself is never assigned. *)
Lemma check_resolution_res self :
  M8190A.res (fst (M8190A.check_resolution self)) = M8190A.res self.
Proof.
  unfold M8190A.check_resolution.
  destruct (String.eqb _ "wpr"); [reflexivity|].
  destruct (String.eqb _ "wsp"); [reflexivity|].
  destruct (Py.contains _ _); [|reflexivity].
  cbn [M8190A.res M8190A.set_format].
  destruct (Py.int_of_str _) as [n|e]; [|reflexivity].
  destruct (n =? 3); [reflexivity|].
  destruct (n =? 12); [reflexivity|].
  destruct ((n =? 24) || (n =? 48)); reflexivity.
Qed.

(** On each recognized mode all the constants are assigned. *)
Lemma check_resolution_recognized self :
  M8190A.res self ∈ recognized_modes ->
  exists self',
    M8190A.check_resolution self = (self', Ok tt) /\
    (M8190A.res self = "wpr" \/ M8190A.res self = "wsp" \/
     (is_Some (M8190A.intFactor self') /\ is_Some (M8190A.idleGran self'))).
Proof.
  unfold recognized_modes. rewrite !elem_of_cons, elem_of_nil.
  destruct self as [r g l m s f i]. cbn [M8190A.res].
  intros [->|[->|[->|[->|[->|[->|[]]]]]]]; eexists; (split; [reflexivity|]);
    cbn; eauto 6.
Qed.

(** An identifier that is neither ['wpr'] nor ['wsp'] and does not
    contain ['intx'] is rejected, and no attribute is assigned. *)
Lemma check_resolution_unknown self :
  M8190A.res self <> "wpr" -> M8190A.res self <> "wsp" ->
  Py.contains "intx" (M8190A.res self) = false ->
  M8190A.check_resolution self = (self, Raise (AwgError "Invalid resolution selected.")).
Proof.
  intros H1 H2 H3. unfold M8190A.check_resolution.
  apply String.eqb_neq in H1, H2. rewrite H1, H2, H3. reflexivity.
Qed.

(** C6.  [check_resolution] on the mode identifier ['intx5'], an
    interpolated mode whose factor is none of 3, 12, 24, 48.  The call
    returns normally: it assigns the four format constants and
    [intFactor = 5] and leaves [idleGran] as it was, unset on a fresh
    object and stale (here 8, from a previous ['intx3']) otherwise.  On
    ['intx'] the four format constants are assigned before [int('')]
    raises [ValueError]. *)
Theorem check_resolution_intx5_partial :
  M8190A.check_resolution
    {| M8190A.res := "intx5"; M8190A.gran := 64; M8190A.minLen := 320;
       M8190A.binMult := 2047; M8190A.binShift := 4;
       M8190A.intFactor := None; M8190A.idleGran := None |}
  = ({| M8190A.res := "intx5"; M8190A.gran := 24; M8190A.minLen := 120;
        M8190A.binMult := 16383; M8190A.binShift := 1;
        M8190A.intFactor := Some 5; M8190A.idleGran := None |}, Ok tt)
  /\
  M8190A.check_resolution
    {| M8190A.res := "intx5"; M8190A.gran := 24; M8190A.minLen := 120;
       M8190A.binMult := 16383; M8190A.binShift := 1;
       M8190A.intFactor := Some 3; M8190A.idleGran := Some 8 |}
  = ({| M8190A.res := "intx5"; M8190A.gran := 24; M8190A.minLen := 120;
        M8190A.binMult := 16383; M8190A.binShift := 1;
        M8190A.intFactor := Some 5; M8190A.idleGran := Some 8 |}, Ok tt)
  /\
  M8190A.check_resolution
    {| M8190A.res := "intx"; M8190A.gran := 64; M8190A.minLen := 320;
       M8190A.binMult := 2047; M8190A.binShift := 4;
       M8190A.intFactor := None; M8190A.idleGran := None |}
  = ({| M8190A.res := "intx"; M8190A.gran := 24; M8190A.minLen := 120;
        M8190A.binMult := 16383; M8190A.binShift := 1;
        M8190A.intFactor := None; M8190A.idleGran := None |},
     Raise (ValueError "invalid literal for int() with base 10: ''")).
Proof. repeat split; reflexivity. Qed.

(** ** Length and granularity checks of [check_wfm] *)

Section LengthChecks.

Variable E : string -> exn.
Variables minLen gran : Z.
Variable fmt : list Float.t -> list Z.
Local Abbreviation checks := (guarded E minLen gran fmt).

Hypothesis gran_pos : 0 < gran.
Hypothesis minLen_aligned : minLen mod gran = 0.

Lemma guarded_short wfm :
  Z.of_nat (length wfm) < minLen ->
  checks wfm =
    Raise (E ("Waveform length: " +:+ Py.str (Z.of_nat (length wfm)) +:+
              ", must be at least " +:+ Py.str minLen +:+ ".")).
Proof.
  intros H. unfold guarded.
  destruct (Z.ltb_spec (Z.of_nat (length wfm)) minLen); [reflexivity | lia].
Qed.

Lemma guarded_misaligned wfm :
  minLen <= Z.of_nat (length wfm) ->
  Z.of_nat (length wfm) mod gran <> 0 ->
  checks wfm =
    Raise (E ("Waveform must have a granularity of " +:+ Py.str gran +:+ ".")).
Proof.
  intros H1 H2. unfold guarded.
  destruct (Z.ltb_spec (Z.of_nat (length wfm)) minLen); [lia|].
  destruct (Z.eqb_spec gran 0); [lia|].
  destruct (Z.eqb_spec (Z.of_nat (length wfm) mod gran) 0); [contradiction|].
  reflexivity.
Qed.

Lemma guarded_pass wfm :
  minLen <= Z.of_nat (length wfm) ->
  Z.of_nat (length wfm) mod gran = 0 ->
  checks wfm = Ok (fmt wfm).
Proof.
  intros H1 H2. unfold guarded.
  destruct (Z.ltb_spec (Z.of_nat (length wfm)) minLen); [lia|].
  destruct (Z.eqb_spec gran 0); [lia|].
  rewrite H2. reflexivity.
Qed.

Lemma aligned_plus_gran : (minLen + gran) mod gran = 0.
Proof.
  rewrite <- (Z.mul_1_l gran) at 1.
  rewrite Z_mod_plus_full. exact minLen_aligned.
Qed.

Lemma aligned_plus_one : 1 < gran -> (minLen + 1) mod gran = 1.
Proof.
  intros H. rewrite Z.add_mod, minLen_aligned by lia.
  rewrite Z.add_0_l, Z.mod_mod by lia. apply Z.mod_small. lia.
Qed.


Lemma guarded_length_checked :
  (forall wfm, length (fmt wfm) = length wfm) ->
  length_checked E minLen gran checks.
Proof.
  intros Hfmt wfm rl. subst rl.
  pose proof aligned_plus_gran as Hg. pose proof aligned_plus_one as Ho.
  repeat split.
  - apply guarded_short.
  - apply guarded_misaligned.
  - intros H1 H2. exists (fmt wfm). split; [apply guarded_pass; assumption | apply Hfmt].
  - intros H. rewrite guarded_pass; [exact I | lia | rewrite H; assumption].
  - intros H. rewrite guarded_short; [exact I | lia].
  - intros H. rewrite guarded_pass; [exact I | lia | rewrite H; assumption].
  - intros H Hgran. rewrite guarded_misaligned; [exact I | lia |].
    rewrite H, Ho by assumption. discriminate.
Qed.

End LengthChecks.

Lemma M8190A_check_wfm_guarded self self' wfm :
  M8190A.check_resolution self = (self', Ok tt) ->
  M8190A.check_wfm self wfm =
    (self', guarded AwgError (M8190A.minLen self') (M8190A.gran self')
              (fun wfm => Np.lshift 16
                            (Np.array_int 16 (Np.scalar_mul (M8190A.binMult self') wfm))
                            (M8190A.binShift self')) wfm).
Proof.
  intros H. unfold M8190A.check_wfm, guarded. rewrite H.
  destruct (_ <? _); [reflexivity|].
  destruct (_ =? 0); [reflexivity|].
  destruct (negb _); reflexivity.
Qed.

Lemma M8195A_check_wfm_guarded self wfm :
  M8195A.check_wfm self wfm =
    guarded AwgError (M8195A.minLen self) (M8195A.gran self)
      (fun wfm => Np.lshift 8
                    (Np.array_int 8 (Np.scalar_mul (M8195A.binMult self) wfm))
                    (M8195A.binShift self)) wfm.
Proof. reflexivity. Qed.

Lemma VSG_check_wfm_guarded self wfm bigEndian :
  VSG.check_wfm self wfm bigEndian =
    guarded VsgError (VSG.minLen self) (VSG.gran self)
      (fun wfm =>
         if bigEndian
         then Np.byteswap (Np.array_int 16 (Np.scalar_mul (VSG.binMult self) wfm))
         else Np.array_int 16 (Np.scalar_mul (VSG.binMult self) wfm)) wfm.
Proof.
  unfold VSG.check_wfm, guarded.
  destruct (_ <? _); [reflexivity|].
  destruct (_ =? 0); [reflexivity|].
  destruct (negb _); [reflexivity|].
  destruct bigEndian; reflexivity.
Qed.

Lemma UXG_check_wfm_guarded self wfm bigEndian :
  UXG.check_wfm self wfm bigEndian =
    guarded VsgError (UXG.minLen self) (UXG.gran self)
      (fun wfm =>
         if bigEndian
         then Np.byteswapu (Np.array_uint 16 (Np.scalar_mul (UXG.binMult self) wfm))
         else Np.array_uint 16 (Np.scalar_mul (UXG.binMult self) wfm)) wfm.
Proof.
  unfold UXG.check_wfm, guarded.
  destruct (_ <? _); [reflexivity|].
  destruct (_ =? 0); [reflexivity|].
  destruct (negb _); [reflexivity|].
  destruct bigEndian; reflexivity.
Qed.

(** C5.  Every [check_wfm] first compares the length with [minLen]
    (the error message carries the actual and the required length),
    then tests the granularity, and formats only a waveform that passed
    both; on the constants of the source (the three formats of the
    M8190A, the M8195A, the VSG) the lengths [minLen] and
    [minLen + gran] pass and [minLen - 1] and [minLen + 1] fail.  The
    UXG reads its two constants from the instrument; the same holds
    for it when the minimum length it reports is a multiple of the
    granularity it reports. *)
Theorem check_wfm_length_checked :
  (forall self self',
      M8190A.check_resolution self = (self', Ok tt) ->
      length_checked AwgError (M8190A.minLen self') (M8190A.gran self')
        (fun wfm => snd (M8190A.check_wfm self wfm))) /\
  length_checked AwgError 256 256 (M8195A.check_wfm M8195A.init) /\
  (forall bigEndian,
      length_checked VsgError 60 2
        (fun wfm => VSG.check_wfm VSG.init wfm bigEndian)) /\
  (forall self bigEndian,
      0 < UXG.gran self ->
      UXG.minLen self mod UXG.gran self = 0 ->
      length_checked VsgError (UXG.minLen self) (UXG.gran self)
        (fun wfm => UXG.check_wfm self wfm bigEndian)).
Proof.
  split; [|split; [|split]].
  - intros self self' H wfm.
    rewrite (M8190A_check_wfm_guarded _ _ wfm H). cbn [snd].
    pose proof (check_resolution_format _ _ H) as Hf.
    rewrite !elem_of_cons, elem_of_nil in Hf.
    assert (0 < M8190A.gran self' /\ M8190A.minLen self' mod M8190A.gran self' = 0)
      as [Hg Ha].
    { destruct Hf as [Hf|[Hf|[Hf|[]]]]; injection Hf as -> -> _ _;
        split; [lia | reflexivity | lia | reflexivity | lia | reflexivity]. }
    apply guarded_length_checked; try assumption.
    intros w. unfold Np.lshift, Np.array_int, Np.scalar_mul.
    rewrite !length_map. reflexivity.
  - intros wfm. rewrite M8195A_check_wfm_guarded.
    apply guarded_length_checked; [cbn; lia | reflexivity |].
    intros w. unfold Np.lshift, Np.array_int, Np.scalar_mul.
    rewrite !length_map. reflexivity.
  - intros bigEndian wfm. rewrite VSG_check_wfm_guarded.
    apply guarded_length_checked; [cbn; lia | reflexivity |].
    intros w. unfold Np.byteswap, Np.array_int, Np.scalar_mul.
    destruct bigEndian; rewrite !length_map; reflexivity.
  - intros self bigEndian Hg Ha wfm. rewrite UXG_check_wfm_guarded.
    apply guarded_length_checked; [assumption | assumption |].
    intros w. unfold Np.byteswapu, Np.array_uint, Np.scalar_mul.
    destruct bigEndian; rewrite !length_map; reflexivity.
Qed.

Lemma check_wfm_length_checked_witness :
  is_ok (snd (M8190A.check_wfm
                {| M8190A.res := "wsp"; M8190A.gran := 64; M8190A.minLen := 320;
                   M8190A.binMult := 2047; M8190A.binShift := 4;
                   M8190A.intFactor := None; M8190A.idleGran := None |}
                (repeat (Float.Finite 0) 320))) /\
  is_raise (snd (M8190A.check_wfm
                {| M8190A.res := "wsp"; M8190A.gran := 64; M8190A.minLen := 320;
                   M8190A.binMult := 2047; M8190A.binShift := 4;
                   M8190A.intFactor := None; M8190A.idleGran := None |}
                (repeat (Float.Finite 0) 321))).
Proof.
  destruct check_wfm_length_checked as [H _].
  set (self := {| M8190A.res := "wsp"; M8190A.gran := 64; M8190A.minLen := 320;
                  M8190A.binMult := 2047; M8190A.binShift := 4;
                  M8190A.intFactor := None; M8190A.idleGran := None |}).
  split.
  - destruct (H self self eq_refl (repeat (Float.Finite 0) 320))
      as (_ & _ & _ & Hmin & _).
    apply Hmin. reflexivity.
  - destruct (H self self eq_refl (repeat (Float.Finite 0) 321))
      as (_ & _ & _ & _ & _ & _ & Hodd).
    apply Hodd; [reflexivity | cbn; lia].
Defined.

(** ** Quantization in [check_wfm] *)

Lemma wrap_signed_small w v :
  0 < w -> - 2 ^ (w - 1) <= v < 2 ^ (w - 1) -> Np.wrap_signed w v = v.
Proof.
  intros Hw Hv. unfold Np.wrap_signed.
  assert (E : 2 ^ w = 2 * 2 ^ (w - 1)).
  { replace w with (1 + (w - 1)) at 1 by lia.
    rewrite Z.pow_add_r by lia. reflexivity. }
  rewrite Z.mod_small by lia. lia.
Qed.

(** Reducing to [w] bits before the shift does not change the reduced
    result of the shift. *)
Lemma left_shift_wrap_signed w s a :
  0 < w -> 0 <= s ->
  Np.left_shift w (Np.wrap_signed w a) s = Np.wrap_signed w (a * 2 ^ s).
Proof.
  intros Hw Hs. unfold Np.left_shift, Np.wrap_signed.
  rewrite Z.shiftl_mul_pow2 by assumption.
  assert (HM : 2 ^ w <> 0) by (apply Z.pow_nonzero; lia).
  generalize dependent (2 ^ w). intros M HM.
  generalize (2 ^ (w - 1)) (2 ^ s). intros h k.
  f_equal. rewrite (Z.mod_eq (a + h) M) by assumption.
  replace ((a + h - M * ((a + h) / M) - h) * k + h)
    with (a * k + h + (- ((a + h) / M) * k) * M) by ring.
  apply Z_mod_plus_full.
Qed.

(** The low bits of the pattern that stands for a value without a
    32-bit integer part are zero. *)
Lemma wrap_signed_min32 w : 0 < w <= 31 -> Np.wrap_signed w (- 2 ^ 31) = 0.
Proof.
  intros Hw. unfold Np.wrap_signed.
  assert (E : 2 ^ 31 = 2 ^ (31 - w) * 2 ^ w)
    by (rewrite <- Z.pow_add_r by lia; f_equal; lia).
  assert (E' : 2 ^ w = 2 * 2 ^ (w - 1)).
  { replace w with (1 + (w - 1)) at 1 by lia.
    rewrite Z.pow_add_r by lia. reflexivity. }
  assert (0 < 2 ^ (w - 1)) by (apply Z.pow_pos_nonneg; lia).
  rewrite E.
  replace (- (2 ^ (31 - w) * 2 ^ w) + 2 ^ (w - 1))
    with (2 ^ (w - 1) + (- 2 ^ (31 - w)) * 2 ^ w) by ring.
  rewrite Z_mod_plus_full, Z.mod_small by lia. lia.
Qed.

Lemma left_shift_astype_int w m s x :
  0 < w <= 31 -> 0 <= s ->
  Np.left_shift w (Np.astype_int w (Float.mul (Float.of_Z m) x)) s =
    quantize w m s x.
Proof.
  intros Hw Hs. unfold quantize, Np.astype_int, Np.cvttsd2si.
  assert (H0 : Np.left_shift w (Np.wrap_signed w (- 2 ^ 31)) s = 0).
  { rewrite wrap_signed_min32 by assumption. unfold Np.left_shift.
    rewrite Z.shiftl_0_l.
    assert (0 < 2 ^ (w - 1)) by (apply Z.pow_pos_nonneg; lia).
    apply wrap_signed_small; lia. }
  destruct (Float.mul (Float.of_Z m) x) as [y| |]; [|exact H0|exact H0].
  cbv zeta. destruct (_ && _); [apply left_shift_wrap_signed; lia | exact H0].
Qed.

Lemma lshift_array_int w m s wfm :
  0 < w <= 31 -> 0 <= s ->
  Np.lshift w (Np.array_int w (Np.scalar_mul m wfm)) s = map (quantize w m s) wfm.
Proof.
  intros Hw Hs. unfold Np.lshift, Np.array_int, Np.scalar_mul.
  rewrite !map_map. apply map_ext. intros x.
  apply left_shift_astype_int; assumption.
Qed.

(** C4, as stated, fails on the rounding: the sample 0.25 (exact in
    binary floating point) scaled by 2047 is 511.75 (exact as well),
    which rounds to 512; [check_wfm] in the ['wsp'] format stores
    [511 << 4]. *)
Lemma check_wfm_truncates_instead_of_rounding :
  snd (M8190A.check_wfm
         {| M8190A.res := "wsp"; M8190A.gran := 64; M8190A.minLen := 320;
            M8190A.binMult := 2047; M8190A.binShift := 4;
            M8190A.intFactor := None; M8190A.idleGran := None |}
         (repeat (Float.literal 0.25) 320))
    = Ok (repeat (Z.shiftl 511 4) 320) /\
  Float.mul (Float.of_Z 2047) (Float.literal 0.25) = Float.Finite (2047 # 4) /\
  Spec.round (2047 # 4) = 512 /\
  Z.shiftl 511 4 <> Z.shiftl (Spec.round (2047 # 4)) 4.
Proof. vm_compute. repeat split; try reflexivity; discriminate. Qed.

(** C4, amended.  A waveform that passes the two length checks is
    quantized sample by sample: the double-precision product
    [binMult * sample] is cut toward zero (not rounded), shifted left
    by [binShift] bits and reduced to the 16 bits (M8190A) or 8 bits
    (M8195A) of the array type by two's-complement wrap-around, never
    clamped; a product without a 32-bit integer part is stored as 0.
    With [binMult = 2047] and [binShift = 4], sample 1.0 gives
    [2047 << 4], sample -1.0 gives [(-2047) << 4], the out-of-range
    sample 2.0 wraps to -32, the sample [1 / 2047], whose product
    with 2047 rounds to 1.0, gives 16, and the sample 1e7 gives 0. *)
Theorem check_wfm_quantizes_by_truncation :
  (forall self self' wfm,
      M8190A.check_resolution self = (self', Ok tt) ->
      M8190A.minLen self' <= Z.of_nat (length wfm) ->
      Z.of_nat (length wfm) mod M8190A.gran self' = 0 ->
      M8190A.check_wfm self wfm =
        (self', Ok (map (quantize 16 (M8190A.binMult self') (M8190A.binShift self'))
                        wfm))) /\
  (forall wfm,
      256 <= Z.of_nat (length wfm) ->
      Z.of_nat (length wfm) mod 256 = 0 ->
      M8195A.check_wfm M8195A.init wfm = Ok (map (quantize 8 127 0) wfm)) /\
  quantize 16 2047 4 (Float.of_Z 1) = Z.shiftl 2047 4 /\
  quantize 16 2047 4 (Float.of_Z (-1)) = Z.shiftl (-2047) 4 /\
  quantize 16 2047 4 (Float.of_Z 2) = -32 /\
  quantize 16 2047 4 (Float.div (Float.of_Z 1) (Float.of_Z 2047)) = 16 /\
  quantize 16 2047 4 (Float.literal 1e7) = 0.
Proof.
  split; [|split; [|vm_compute; repeat split; reflexivity]].
  - intros self self' wfm H Hlen Hgran.
    rewrite (M8190A_check_wfm_guarded _ _ wfm H).
    pose proof (check_resolution_format _ _ H) as Hf.
    rewrite !elem_of_cons, elem_of_nil in Hf.
    assert (0 < M8190A.gran self' /\ 0 <= M8190A.binShift self') as [Hg Hs]
      by (destruct Hf as [Hf|[Hf|[Hf|[]]]]; injection Hf as -> _ _ ->; lia).
    rewrite guarded_pass by assumption.
    rewrite lshift_array_int by (assumption || lia). reflexivity.
  - intros wfm Hlen Hgran.
    rewrite M8195A_check_wfm_guarded, guarded_pass by (assumption || (cbn; lia)).
    cbn [M8195A.init M8195A.binMult M8195A.binShift].
    rewrite lshift_array_int by lia. reflexivity.
Qed.

Lemma check_wfm_quantizes_by_truncation_witness :
  M8190A.check_wfm
    {| M8190A.res := "wsp"; M8190A.gran := 64; M8190A.minLen := 320;
       M8190A.binMult := 2047; M8190A.binShift := 4;
       M8190A.intFactor := None; M8190A.idleGran := None |}
    (repeat (Float.of_Z 1) 320)
  = ({| M8190A.res := "wsp"; M8190A.gran := 64; M8190A.minLen := 320;
        M8190A.binMult := 2047; M8190A.binShift := 4;
        M8190A.intFactor := None; M8190A.idleGran := None |},
     Ok (map (quantize 16 2047 4) (repeat (Float.of_Z 1) 320))).
Proof.
  destruct check_wfm_quantizes_by_truncation as [H _].
  apply (H {| M8190A.res := "wsp"; M8190A.gran := 64; M8190A.minLen := 320;
              M8190A.binMult := 2047; M8190A.binShift := 4;
              M8190A.intFactor := None; M8190A.idleGran := None |}).
  - reflexivity.
  - cbn. lia.
  - reflexivity.
Defined.

(** For samples between -1 and 1 the three formats of the M8190A
    (and the M8195A) never reach the wrap-around: the stored value is
    the integer part of the rounded product, shifted. *)
Lemma quantize_in_range w m s x :
  0 < w <= 31 -> 0 <= m -> 0 <= s -> m * 2 ^ s < 2 ^ (w - 1) ->
  (-1 <= x <= 1)%Q ->
  quantize w m s (Float.Finite x) =
    Float.trunc (Float.rnd (inject_Z m * x)) * 2 ^ s /\
  - m <= Float.trunc (Float.rnd (inject_Z m * x)) <= m.
Proof.
  intros Hw Hm Hs Hfit Hx.
  assert (H2s : 0 < 2 ^ s) by (apply Z.pow_pos_nonneg; lia).
  assert (Hw30 : 2 ^ (w - 1) <= 2 ^ 30) by (apply Z.pow_le_mono_r; lia).
  assert (Hm53 : 0 <= m < 2 ^ 53) by nia.
  destruct (mul_of_Z_unit m x Hm53 Hx) as [E Hb].
  apply trunc_bound in Hb. split; [|exact Hb].
  unfold quantize. rewrite E. cbv zeta.
  destruct (Z.leb_spec (- 2 ^ 31) (Float.trunc (Float.rnd (inject_Z m * x)))); [|nia].
  destruct (Z.ltb_spec (Float.trunc (Float.rnd (inject_Z m * x))) (2 ^ 31)); [|nia].
  cbn [andb]. apply wrap_signed_small; [lia | nia].
Qed.

(** ** The Barker generator *)

Lemma barker_loop_ok n chips barker :
  0 <= n ->
  barker_loop n chips barker =
    Ok (barker ++ concat (map (fun p => repeat p (Z.to_nat n)) chips))%list.
Proof.
  intros Hn. revert barker. induction chips as [|p chips IH]; intros barker.
  - cbn [barker_loop map concat]. rewrite app_nil_r. reflexivity.
  - cbn [barker_loop map concat]. unfold np_full.
    destruct (Z.ltb_spec n 0); [lia|]. cbn [Py.bind].
    rewrite IH, <- app_assoc. reflexivity.
Qed.

Lemma barker_loop_negative n p chips barker :
  n < 0 -> is_raise (barker_loop n (p :: chips) barker).
Proof.
  intros Hn. cbn [barker_loop]. unfold np_full.
  destruct (Z.ltb_spec n 0); [exact I | lia].
Qed.

(** The catalog: eight names, chips of value 1 or -1, lengths 2, 3, 4,
    5, 7, 11 and 13. *)
Lemma barkerCodes_catalog code chips :
  barkerCodes !! code = Some chips ->
  code ∈ ["b2"; "b3"; "b41"; "b42"; "b5"; "b7"; "b11"; "b13"] /\
  Forall (fun p => p = 1 \/ p = -1) chips /\
  length chips ∈ [2; 3; 4; 5; 7; 11; 13]%nat.
Proof.
  intros H. apply elem_of_list_to_map_2 in H.
  repeat (apply elem_of_cons in H as [H|H];
          [injection H as -> ->;
           split; [set_solver
                  | split; [repeat (constructor; [lia|]); constructor
                           | cbn; set_solver]]|]).
  apply elem_of_nil in H. contradiction.
Qed.

Lemma Forall_concat_repeat (P : Z -> Prop) n chips :
  Forall P chips -> Forall P (concat (map (fun p => repeat p n) chips)).
Proof.
  induction 1 as [|p l Hp _ IH]; [constructor|].
  cbn [map concat]. apply Forall_app. split; [|exact IH].
  clear -Hp. induction n; cbn; constructor; assumption.
Qed.

(** The phase of a chip: [np.pi / 2 * p] is exact for a chip [1] or
    [-1]. *)
Lemma barker_phase p :
  p = 1 \/ p = -1 ->
  Float.mul (Float.div np_pi (Float.of_Z 2)) (Float.of_Z p) =
    Float.Finite (inject_Z p * half_pi).
Proof. intros [-> | ->]; vm_compute; reflexivity. Qed.

Lemma barker_mod_blocks n chips :
  Forall (fun p => p = 1 \/ p = -1) chips ->
  barker_mod (concat (map (fun p => repeat p n) chips)) =
    concat (map (fun p => repeat (Float.Finite (inject_Z p * half_pi)) n) chips).
Proof.
  unfold barker_mod. induction 1 as [|p chips Hp _ IH]; [reflexivity|].
  cbn [map concat]. rewrite map_app, IH. f_equal.
  rewrite <- (barker_phase p Hp).
  clear. induction n as [|n IHn]; [reflexivity|].
  cbn [repeat map]. rewrite IHn. reflexivity.
Qed.

Lemma barker_array_ok len fs code chips n :
  barkerCodes !! code = Some chips ->
  codeSamples len fs chips = Ok n -> 0 <= n ->
  barker_array len fs code =
    Ok (concat (map (fun p => repeat p (Z.to_nat n)) chips)).
Proof.
  intros Hcode Hn Hpos. unfold barker_array. rewrite Hcode, Hn. cbn [Py.bind].
  rewrite barker_loop_ok by assumption. reflexivity.
Qed.

(** C7, as stated, fails twice.  The number of samples per chip is the
    product cut toward zero, not rounded: for the 2-chip code,
    [length = 1] and [fs = 3] the product is 1.5 and each chip is
    written once, not twice.  And the phase of a chip [p] is
    [np.pi / 2 * p]: +1 has phase [np.pi / 2], not 0, and -1 has phase
    [- np.pi / 2], not [np.pi]. *)
Lemma barker_generator_counts_and_phases :
  (codeSamples (Float.of_Z 1) (Float.of_Z 3) [1; -1] = Ok 1 /\
   barker_array (Float.of_Z 1) (Float.of_Z 3) "b2" = Ok [1; -1] /\
   Spec.round (1 / 2 * 3) = 2) /\
  (barker_mod [1; -1] = [Float.Finite half_pi; Float.Finite (- half_pi)] /\
   (exact np_pi == 2 * half_pi)%Q /\
   ~ (half_pi == 0)%Q /\ ~ (- half_pi == exact np_pi)%Q).
Proof.
  split; [vm_compute; repeat split; reflexivity|].
  split; [vm_compute; reflexivity|].
  split; [vm_compute; reflexivity|]. split; vm_compute; discriminate.
Qed.

(** C7, amended.  For a code of the catalog (eight names, lengths 2,
    3, 4, 4, 5, 7, 11, 13) and a non-negative sample count
    [n = int(length / len(code) * fs)], the double-precision product
    cut toward zero, [barker_generator] writes each chip [n] times, in
    code order; a chip +1 has phase [np.pi / 2] and a chip -1 has phase
    [- np.pi / 2], and I and Q are the cosine and the sine of that
    phase as the C library computes them.  With the 2-chip code,
    [length = 2e-6] and [fs = 1e6] the product is 1.0, so that there
    are exactly two samples, whose phases differ by exactly [np.pi].
    A name outside the catalog raises [KeyError]. *)
Theorem barker_generator_phase_coded :
  forall cos sin : Float.t -> Float.t,
  (forall code chips len fs n,
      barkerCodes !! code = Some chips ->
      codeSamples len fs chips = Ok n ->
      0 <= n ->
      let barker := concat (map (fun p => repeat p (Z.to_nat n)) chips) in
      let phase := fun p : Z => Float.Finite (inject_Z p * half_pi) in
      length chips ∈ [2; 3; 4; 5; 7; 11; 13]%nat /\
      barker_array len fs code = Ok barker /\
      barker_mod barker =
        concat (map (fun p => repeat (phase p) (Z.to_nat n)) chips) /\
      Forall (fun p => p = 1 \/ p = -1) chips /\
      barker_generator cos sin len fs code false =
        Ok (map (fun p => cos (phase p)) barker,
            map (fun p => sin (phase p)) barker)) /\
  (codeSamples (Float.literal 2e-6) (Float.literal 1e6) [1; -1] = Ok 1 /\
   barker_array (Float.literal 2e-6) (Float.literal 1e6) "b2" = Ok [1; -1] /\
   barker_mod [1; -1] = [Float.Finite half_pi; Float.Finite (- half_pi)] /\
   (half_pi - - half_pi == exact np_pi)%Q) /\
  (forall code len fs zeroLast,
      barkerCodes !! code = None ->
      barker_generator cos sin len fs code zeroLast = Raise (KeyError code)).
Proof.
  intros cos sin. split; [|split].
  - intros code chips len fs n Hcode Hn Hpos barker phase.
    destruct (barkerCodes_catalog _ _ Hcode) as (_ & Hchips & Hlen).
    pose proof (barker_array_ok _ _ _ _ _ Hcode Hn Hpos) as Harr.
    pose proof (barker_mod_blocks (Z.to_nat n) chips Hchips) as Hmod.
    split; [exact Hlen|]. split; [exact Harr|]. split; [exact Hmod|].
    split; [exact Hchips|].
    unfold barker_generator. rewrite Harr. cbn [Py.bind].
    assert (Hph : barker_mod barker = map phase barker).
    { unfold barker_mod. apply map_ext_Forall.
      eapply Forall_impl; [apply Forall_concat_repeat, Hchips|].
      intros p Hp. apply barker_phase, Hp. }
    fold barker. rewrite Hph, !map_map. reflexivity.
  - split; [vm_compute; reflexivity|]. split; [vm_compute; reflexivity|].
    split; [vm_compute; reflexivity | vm_compute; reflexivity].
  - intros code len fs zeroLast Hcode.
    unfold barker_generator, barker_array. rewrite Hcode. reflexivity.
Qed.

Lemma barker_generator_phase_coded_witness :
  barker_generator (fun _ => Float.Finite 0) (fun phi => phi)
    (Float.literal 2e-6) (Float.literal 1e6) "b2" false
  = Ok ([Float.Finite 0; Float.Finite 0],
        [Float.Finite half_pi; Float.Finite (- half_pi)]).
Proof.
  destruct (barker_generator_phase_coded (fun _ => Float.Finite 0) (fun phi => phi))
    as [H _].
  destruct (H "b2" [1; -1] (Float.literal 2e-6) (Float.literal 1e6) 1)
    as (_ & _ & _ & _ & Hgen).
  - reflexivity.
  - vm_compute. reflexivity.
  - lia.
  - exact Hgen.
Defined.

(** ** Constellation maps *)

(** The sixteen keys of the 16-QAM literal are distinct, so each item
    is an entry of the dict. *)
Lemma qam16_items_keys : NoDup (map fst qam16_items).
Proof. compute_done. Qed.

Lemma qam16_lookup_items k c :
  qam16_default_map !! k = Some c <-> (k, c) ∈ qam16_items.
Proof.
  unfold qam16_default_map. split.
  - apply elem_of_list_to_map_2.
  - apply elem_of_list_to_map_1, qam16_items_keys.
Qed.

Lemma qam16_items_gray :
  List.forallb
    (fun kc1 =>
       List.forallb
         (fun kc2 =>
            implb (Spec.neighbours (snd kc1) (snd kc2))
                  (Nat.eqb (Spec.hamming (fst kc1) (fst kc2)) 1))
         qam16_items)
    qam16_items = true.
Proof. vm_compute. reflexivity. Qed.

(** C8.  The default 16-QAM map has sixteen entries, keyed by 4-bit
    patterns, whose points are the sixteen distinct points of the
    4 x 4 grid; any two entries whose points are nearest neighbours
    (Euclidean distance 2) have keys that differ in exactly one bit. *)
Theorem qam16_default_map_gray_coded :
  size qam16_default_map = 16%nat /\
  (forall k c, qam16_default_map !! k = Some c ->
               String.length k = 4%nat /\ c ∈ Spec.grid16) /\
  NoDup (map snd qam16_items) /\
  (forall k1 k2 c1 c2,
      qam16_default_map !! k1 = Some c1 ->
      qam16_default_map !! k2 = Some c2 ->
      Spec.neighbours c1 c2 = true ->
      Spec.hamming k1 k2 = 1%nat).
Proof.
  split; [vm_compute; reflexivity|]. split; [|split].
  - intros k c H. apply qam16_lookup_items in H.
    unfold qam16_items in H.
    repeat (apply elem_of_cons in H as [H|H];
            [injection H as -> ->; split; [reflexivity | compute_done]|]).
    apply elem_of_nil in H. contradiction.
  - compute_done.
  - intros k1 k2 c1 c2 H1 H2 Hn.
    apply qam16_lookup_items, list_elem_of_In in H1, H2.
    pose proof qam16_items_gray as Hb.
    rewrite List.forallb_forall in Hb. specialize (Hb _ H1).
    rewrite List.forallb_forall in Hb. specialize (Hb _ H2).
    cbn [fst snd] in Hb. rewrite Hn in Hb. apply Nat.eqb_eq, Hb.
Qed.

Lemma qam16_default_map_gray_coded_witness :
  Spec.hamming "0000" "0001" = 1%nat /\ Spec.hamming "0111" "1111" = 1%nat.
Proof.
  destruct qam16_default_map_gray_coded as (_ & _ & _ & H).
  split.
  - apply (H "0000" "0001" (Complex (-3) (-3)) (Complex (-3) (-1)));
      vm_compute; reflexivity.
  - apply (H "0111" "1111" (Complex (-1) 1) (Complex 1 1));
      vm_compute; reflexivity.
Defined.

(** ** Symbol mapping *)

Lemma map_symbols_unmapped m p ps msg :
  m !! p = None -> map_symbols m (p :: ps) msg = Raise (ValueError msg).
Proof. intros H. unfold map_symbols. cbn [Py.comprehension]. rewrite H. reflexivity. Qed.

Lemma map_symbols_mapped m pattern msg :
  Forall (fun p => is_Some (m !! p)) pattern ->
  exists symbols,
    map_symbols m pattern msg = Ok symbols /\ length symbols = length pattern.
Proof.
  intros H. unfold map_symbols.
  destruct (comprehension_ok
              (fun p => match m !! p with
                        | Some c => Ok c
                        | None => Raise (KeyError p)
                        end) pattern) as (symbols & Hs & _).
  - eapply Forall_impl; [exact H|]. intros p [c ->]. exact I.
  - rewrite Hs. exists symbols. split; [reflexivity|].
    eapply comprehension_length, Hs.
Qed.

(** One symbol per complete group of bits; an incomplete last group
    yields nothing. *)
Lemma qpsk_pattern_cons d0 d1 data :
  qpsk_pattern (d0 :: d1 :: data) = (Py.str d0 +:+ Py.str d1) :: qpsk_pattern data.
Proof. reflexivity. Qed.

Lemma psk8_pattern_cons d0 d1 d2 data :
  psk8_pattern (d0 :: d1 :: d2 :: data) =
    (Py.str d0 +:+ Py.str d1 +:+ Py.str d2) :: psk8_pattern data.
Proof. reflexivity. Qed.

Lemma qam16_pattern_cons d0 d1 d2 d3 data :
  qam16_pattern (d0 :: d1 :: d2 :: d3 :: data) =
    (Py.str d0 +:+ Py.str d1 +:+ Py.str d2 +:+ Py.str d3) :: qam16_pattern data.
Proof. reflexivity. Qed.

Lemma qam32_pattern_cons d0 d1 d2 d3 d4 data :
  qam32_pattern (d0 :: d1 :: d2 :: d3 :: d4 :: data) =
    (Py.str d0 +:+ Py.str d1 +:+ Py.str d2 +:+ Py.str d3 +:+ Py.str d4)
      :: qam32_pattern data.
Proof. reflexivity. Qed.

(** Induction over a list taken [k] elements at a time. *)
Lemma list_chunk_ind {A : Type} (k : nat) (P : list A -> Prop) :
  (0 < k)%nat ->
  (forall l, (length l < k)%nat -> P l) ->
  (forall pre l, length pre = k -> P l -> P (pre ++ l)%list) ->
  forall l, P l.
Proof.
  intros Hk Hshort Hchunk l.
  assert (H : forall n l, (length l <= n)%nat -> P l); [|exact (H _ l (le_n _))].
  clear l. induction n as [|n IH]; intros l Hl.
  - apply Hshort. lia.
  - destruct (Nat.lt_ge_cases (length l) k) as [Hlt|Hge]; [apply Hshort, Hlt|].
    rewrite <- (take_drop k l). apply Hchunk.
    + rewrite length_take. lia.
    + apply IH. rewrite length_drop. lia.
Qed.

Lemma div_chunk k n : (0 < k)%nat -> ((k + n) / k = S (n / k))%nat.
Proof.
  intros Hk. replace (k + n)%nat with (1 * k + n)%nat by lia.
  rewrite Nat.div_add_l by lia. reflexivity.
Qed.

Lemma qpsk_pattern_bits data :
  Spec.bits data ->
  length (qpsk_pattern data) = (length data / 2)%nat /\
  Forall (fun p => is_Some (qpsk_default_map !! p)) (qpsk_pattern data).
Proof.
  pattern data. apply (list_chunk_ind 2); clear data;
    [lia | intros l Hl | intros pre l Hpre IH].
  - intros _. destruct l as [|? [|? ?]]; cbn [length] in Hl; try lia;
      (split; [reflexivity | constructor]).
  - destruct pre as [|d0 [|d1 [|? ?]]]; try discriminate Hpre.
    intros Hbits. cbn [app] in *.
    assert (Hrest : Spec.bits l) by (split_bits; assumption).
    destruct (IH Hrest) as [IHlen IHmap].
    rewrite qpsk_pattern_cons. split.
    + cbn [length]. rewrite IHlen. symmetry. apply (div_chunk 2). lia.
    + constructor; [|exact IHmap]. split_bits; mapped_by_lookup.
Qed.

Lemma psk8_pattern_bits data :
  Spec.bits data ->
  length (psk8_pattern data) = (length data / 3)%nat /\
  Forall (fun p => is_Some (psk8_default_map !! p)) (psk8_pattern data).
Proof.
  pattern data. apply (list_chunk_ind 3); clear data;
    [lia | intros l Hl | intros pre l Hpre IH].
  - intros _. destruct l as [|? [|? [|? ?]]]; cbn [length] in Hl; try lia;
      (split; [reflexivity | constructor]).
  - destruct pre as [|d0 [|d1 [|d2 [|? ?]]]]; try discriminate Hpre.
    intros Hbits. cbn [app] in *.
    assert (Hrest : Spec.bits l) by (split_bits; assumption).
    destruct (IH Hrest) as [IHlen IHmap].
    rewrite psk8_pattern_cons. split.
    + cbn [length]. rewrite IHlen. symmetry. apply (div_chunk 3). lia.
    + constructor; [|exact IHmap]. split_bits; mapped_by_lookup.
Qed.

Lemma qam16_pattern_bits data :
  Spec.bits data ->
  length (qam16_pattern data) = (length data / 4)%nat /\
  Forall (fun p => is_Some (qam16_default_map !! p)) (qam16_pattern data).
Proof.
  pattern data. apply (list_chunk_ind 4); clear data;
    [lia | intros l Hl | intros pre l Hpre IH].
  - intros _. destruct l as [|? [|? [|? [|? ?]]]]; cbn [length] in Hl; try lia;
      (split; [reflexivity | constructor]).
  - destruct pre as [|d0 [|d1 [|d2 [|d3 [|? ?]]]]]; try discriminate Hpre.
    intros Hbits. cbn [app] in *.
    assert (Hrest : Spec.bits l) by (split_bits; assumption).
    destruct (IH Hrest) as [IHlen IHmap].
    rewrite qam16_pattern_cons. split.
    + cbn [length]. rewrite IHlen. symmetry. apply (div_chunk 4). lia.
    + constructor; [|exact IHmap]. split_bits; mapped_by_lookup.
Qed.

(** With their default maps, [qpsk_modulator], [psk8_modulator] and
    [qam16_modulator] turn a list of bits into one symbol per complete
    group and drop the bits left over, without any error. *)
Lemma modulators_drop_leftover_bits data :
  Spec.bits data ->
  (exists symbols, qpsk_modulator data None = Ok symbols /\
                   length symbols = (length data / 2)%nat) /\
  (exists symbols, psk8_modulator data None = Ok symbols /\
                   length symbols = (length data / 3)%nat) /\
  (exists symbols, qam16_modulator data None = Ok symbols /\
                   length symbols = (length data / 4)%nat).
Proof.
  intros Hbits.
  destruct (qpsk_pattern_bits _ Hbits) as [L2 M2].
  destruct (psk8_pattern_bits _ Hbits) as [L3 M3].
  destruct (qam16_pattern_bits _ Hbits) as [L4 M4].
  unfold qpsk_modulator, psk8_modulator, qam16_modulator. cbn [choose_map].
  split; [|split].
  - destruct (map_symbols_mapped _ _ "Invalid QPSK symbol." M2) as (s & -> & Hs).
    exists s. split; [reflexivity | congruence].
  - destruct (map_symbols_mapped _ _ "Invalid 8PSK symbol." M3) as (s & -> & Hs).
    exists s. split; [reflexivity | congruence].
  - destruct (map_symbols_mapped _ _ "Invalid 16 QAM symbol." M4) as (s & -> & Hs).
    exists s. split; [reflexivity | congruence].
Qed.

(** Every key of the default dict of [qam32_modulator] has four
    characters, and every pattern it looks up has five: on bits, the
    first complete group already ends the call. *)
Lemma qam32_default_raises data :
  Spec.bits data -> (5 <= length data)%nat ->
  qam32_modulator data None = Raise (ValueError "Invalid 16 QAM symbol.").
Proof.
  intros Hbits Hlen.
  destruct data as [|d0 [|d1 [|d2 [|d3 [|d4 rest]]]]]; cbn [length] in Hlen; try lia.
  unfold qam32_modulator. cbn [choose_map]. rewrite qam32_pattern_cons.
  apply map_symbols_unmapped.
  split_bits; vm_compute; reflexivity.
Qed.

Lemma qam32_short_input data :
  (length data < 5)%nat -> qam32_modulator data None = Ok [].
Proof.
  intros Hlen.
  destruct data as [|d0 [|d1 [|d2 [|d3 [|d4 rest]]]]]; cbn [length] in Hlen;
    try lia; reflexivity.
Qed.

(** C9.  The default dict of [qam32_modulator] is the sixteen-entry
    16-QAM dict, with 4-character keys; it holds no 5-bit pattern.  On
    the five bits [0, 0, 0, 0, 0] (and on ten bits likewise) the lookup
    of ['00000'] fails and the call raises
    [ValueError('Invalid 16 QAM symbol.')]. *)
Theorem qam32_default_map_has_no_5_bit_pattern :
  qam32_default_map = qam16_default_map /\
  size qam32_default_map = 16%nat /\
  qam32_default_map !! "00000" = None /\
  qam32_modulator [0; 0; 0; 0; 0] None =
    Raise (ValueError "Invalid 16 QAM symbol.") /\
  qam32_modulator [1; 0; 1; 1; 0; 0; 1; 1; 0; 1] None =
    Raise (ValueError "Invalid 16 QAM symbol.").
Proof.
  split; [reflexivity|]. split; [vm_compute; reflexivity|].
  split; [vm_compute; reflexivity|].
  split; apply qam32_default_raises; solve [repeat constructor; auto | cbn; lia].
Qed.

(** C10.  Six bits hold one complete group of five and one bit left
    over.  [qam32_modulator] with its default map raises [ValueError]
    on them instead of returning [6 // 5 = 1] symbol; [qam16_modulator]
    on five bits returns [5 // 4 = 1] symbol and drops the fifth bit. *)
Theorem qam32_modulator_leftover_bit_raises :
  qam32_modulator [0; 0; 0; 0; 0; 0] None =
    Raise (ValueError "Invalid 16 QAM symbol.") /\
  (6 / 5 = 1)%nat /\
  qam16_modulator [0; 0; 0; 0; 0] None = Ok [Complex (-3) (-3)] /\
  (5 / 4 = 1)%nat.
Proof.
  split; [apply qam32_default_raises; [repeat constructor; auto | cbn; lia]|].
  split; [reflexivity|]. split; [vm_compute; reflexivity | vm_compute; reflexivity].
Qed.

(** The grouping of [qam32_modulator] itself is sound: with a caller's
    map that holds all thirty-two 5-bit patterns it returns one symbol
    per complete group of five bits and drops the bits left over. *)
Lemma qam32_pattern_bits (m : gmap string complex) data :
  Forall (fun p => is_Some (m !! p)) (bit_patterns 5) ->
  Spec.bits data ->
  length (qam32_pattern data) = (length data / 5)%nat /\
  Forall (fun p => is_Some (m !! p)) (qam32_pattern data).
Proof.
  intros Hm. rewrite Forall_forall in Hm.
  pattern data. apply (list_chunk_ind 5); clear data;
    [lia | intros l Hl | intros pre l Hpre IH].
  - intros _. destruct l as [|? [|? [|? [|? [|? ?]]]]]; cbn [length] in Hl; try lia;
      (split; [reflexivity | constructor]).
  - destruct pre as [|d0 [|d1 [|d2 [|d3 [|d4 [|? ?]]]]]]; try discriminate Hpre.
    intros Hbits. cbn [app] in *.
    assert (Hrest : Spec.bits l) by (split_bits; assumption).
    destruct (IH Hrest) as [IHlen IHmap].
    rewrite qam32_pattern_cons. split.
    + cbn [length]. rewrite IHlen. symmetry. apply (div_chunk 5). lia.
    + constructor; [|exact IHmap]. split_bits; apply Hm; compute_done.
Qed.

Lemma qam32_custom_map_drops_leftover_bits (m : gmap string complex) data :
  Forall (fun p => is_Some (m !! p)) (bit_patterns 5) ->
  Spec.bits data ->
  exists symbols,
    qam32_modulator data (Some m) = Ok symbols /\
    length symbols = (length data / 5)%nat.
Proof.
  intros Hm Hbits.
  destruct (qam32_pattern_bits m data Hm Hbits) as [Hlen Hmap].
  assert (Hsize : size m <> 0%nat).
  { intros H0. apply map_size_empty_inv in H0. subst m.
    rewrite Forall_forall in Hm.
    destruct (Hm "00000") as [c Hc]; [compute_done|].
    rewrite lookup_empty in Hc. discriminate. }
  unfold qam32_modulator, choose_map, truthy.
  destruct (Nat.eqb_spec (size m) 0) as [|_]; [contradiction|]. cbn [negb].
  destruct (map_symbols_mapped m _ "Invalid 16 QAM symbol." Hmap) as (s & -> & Hs).
  exists s. split; [reflexivity | congruence].
Qed.

(** * Further properties *)

(** ** Ranges of the element types *)

Lemma wrap_signed_range w v :
  0 < w -> - 2 ^ (w - 1) <= Np.wrap_signed w v < 2 ^ (w - 1).
Proof.
  intros Hw. unfold Np.wrap_signed.
  assert (E : 2 ^ w = 2 * 2 ^ (w - 1)).
  { replace w with (1 + (w - 1)) at 1 by lia.
    rewrite Z.pow_add_r by lia. reflexivity. }
  assert (0 < 2 ^ (w - 1)) by (apply Z.pow_pos_nonneg; lia).
  pose proof (Z.mod_pos_bound (v + 2 ^ (w - 1)) (2 ^ w)). lia.
Qed.

Lemma array_int_range w a :
  0 < w -> Forall (fun v => - 2 ^ (w - 1) <= v < 2 ^ (w - 1)) (Np.array_int w a).
Proof.
  intros Hw. unfold Np.array_int. apply Forall_map, Forall_forall.
  intros x _. apply wrap_signed_range, Hw.
Qed.

Lemma array_uint_range w a :
  0 < w -> Forall (fun v => 0 <= v < 2 ^ w) (Np.array_uint w a).
Proof.
  intros Hw. unfold Np.array_uint. apply Forall_map, Forall_forall.
  intros x _. apply Z.mod_pos_bound. apply Z.pow_pos_nonneg; lia.
Qed.

(** ** Interleaving of I and Q *)

Lemma length_interleave i q :
  length q = length i -> length (Np.interleave i q) = (2 * length i)%nat.
Proof.
  revert q. induction i as [|x i IH]; intros [|y q] H; try discriminate H.
  - reflexivity.
  - cbn [Np.interleave length]. rewrite IH by (cbn in H; lia). lia.
Qed.

Lemma interleave_even i q :
  length q = length i -> slice_step 2 0 (Np.interleave i q) = i.
Proof.
  revert q. induction i as [|x i IH]; intros [|y q] H; try discriminate H.
  - reflexivity.
  - cbn. f_equal. apply IH. cbn in H. lia.
Qed.

Lemma interleave_odd i q :
  length q = length i -> slice_step 2 1 (Np.interleave i q) = q.
Proof.
  revert q. induction i as [|x i IH]; intros [|y q] H; try discriminate H.
  - reflexivity.
  - cbn. f_equal. apply IH. cbn in H. lia.
Qed.

Lemma combine_same_length c i q :
  length q = length i ->
  Np.combine c i q = Ok (Np.interleave (map c i) (map c q)).
Proof.
  intros H. unfold Np.combine, Np.broadcast_to.
  rewrite H, Nat.eqb_refl. reflexivity.
Qed.

Lemma combine_raise c i q :
  is_raise (Np.combine c i q) <-> length q <> length i /\ length q <> 1%nat.
Proof.
  unfold Np.combine, Np.broadcast_to.
  destruct (Nat.eqb_spec (length q) (length i)) as [E|E]; cbn [Py.bind is_raise].
  - split; [contradiction | intros [H _]; contradiction].
  - destruct q as [|y [|z q]]; cbn [Py.bind is_raise]; cbn [length] in *;
      split; intros H; try exact I; try contradiction; try (split; lia).
    destruct H as [_ H]. lia.
Qed.

Lemma combine_ok c i q iq :
  Np.combine c i q = Ok iq ->
  exists q', length q' = length i /\ iq = Np.interleave (map c i) q'.
Proof.
  unfold Np.combine, Np.broadcast_to. intros H.
  destruct (Nat.eqb_spec (length q) (length i)) as [E|E]; cbn [Py.bind] in H.
  - injection H as <-. exists (map c q). rewrite length_map. auto.
  - destruct q as [|y [|z q]]; cbn [Py.bind] in H; try discriminate H.
    injection H as <-. exists (map c (repeat y (length i))).
    rewrite length_map, repeat_length. auto.
Qed.

Lemma map_wrap_signed_int16 a :
  int16_array a -> map (Np.wrap_signed 16) a = a.
Proof.
  induction 1 as [|v a Hv _ IH]; [reflexivity|].
  cbn [map]. rewrite IH, (wrap_signed_small 16) by (lia || exact Hv). reflexivity.
Qed.

Lemma map_wrap_unsigned_uint16 a :
  uint16_array a -> map (Np.wrap_unsigned 16) a = a.
Proof.
  induction 1 as [|v a Hv _ IH]; [reflexivity|].
  cbn [map]. unfold Np.wrap_unsigned at 1.
  rewrite IH, Z.mod_small by exact Hv. reflexivity.
Qed.

(** X1.  [iq_wfm_combiner] of two arrays of one length, whose values
    are values of the element type of [iq] ([int16] for the M8190A and
    the VSG, [uint16] for the UXG), returns an array twice as long
    from which the strided slices [iq[0::2]] and [iq[1::2]] give [i]
    and [q] back. *)
Theorem iq_wfm_combiner_deinterleaves :
  forall i q,
    length q = length i ->
    (int16_array i -> int16_array q ->
     exists iq,
       M8190A.iq_wfm_combiner i q = Ok iq /\
       VSG.iq_wfm_combiner i q = Ok iq /\
       length iq = (2 * length i)%nat /\
       slice_step 2 0 iq = i /\
       slice_step 2 1 iq = q) /\
    (uint16_array i -> uint16_array q ->
     exists iq,
       UXG.iq_wfm_combiner i q = Ok iq /\
       length iq = (2 * length i)%nat /\
       slice_step 2 0 iq = i /\
       slice_step 2 1 iq = q).
Proof.
  intros i q H. split; intros Hi Hq; exists (Np.interleave i q);
    unfold M8190A.iq_wfm_combiner, VSG.iq_wfm_combiner, UXG.iq_wfm_combiner;
    rewrite combine_same_length by assumption.
  - rewrite !map_wrap_signed_int16 by assumption.
    repeat split; auto using length_interleave, interleave_even, interleave_odd.
  - rewrite !map_wrap_unsigned_uint16 by assumption.
    repeat split; auto using length_interleave, interleave_even, interleave_odd.
Qed.

Lemma iq_wfm_combiner_deinterleaves_witness :
  M8190A.iq_wfm_combiner [1; 2; 3] [-1; -2; -3] = Ok [1; -1; 2; -2; 3; -3].
Proof.
  destruct (iq_wfm_combiner_deinterleaves [1; 2; 3] [-1; -2; -3] eq_refl)
    as [Hs _].
  destruct Hs as (iq & H & _ & _ & _ & _);
    [repeat (constructor; [lia|]); constructor ..|].
  rewrite H. vm_compute in H. injection H as <-. reflexivity.
Defined.

(** A one-element [q] is repeated along [i]. *)
Lemma combine_broadcast c i y :
  Np.combine c i [y] = Ok (Np.interleave (map c i) (repeat (c y) (length i))).
Proof.
  unfold Np.combine, Np.broadcast_to. cbn [length].
  destruct (Nat.eqb_spec 1 (length i)) as [E|E]; cbn [Py.bind].
  - destruct i as [|x [|x' i]]; try discriminate E. reflexivity.
  - f_equal. f_equal. clear E. induction (length i) as [|n IH]; [reflexivity|].
    cbn [repeat map]. rewrite IH. reflexivity.
Qed.

Lemma combine_ok_even c i q iq :
  Np.combine c i q = Ok iq ->
  length iq = (2 * length i)%nat /\ slice_step 2 0 iq = map c i.
Proof.
  intros H. apply combine_ok in H as (q' & Hq' & ->).
  rewrite <- (length_map c i) in Hq'.
  rewrite length_interleave, interleave_even by assumption.
  rewrite length_map. auto.
Qed.

(** X2.  [iq_wfm_combiner] checks no lengths itself; the slice
    assignment [iq[1::2] = q] does.  In each of the three classes the
    call raises exactly when [q] has neither the length of [i] nor
    length one.  A one-element [q] is not rejected: its value is paired
    with every sample of [i].  A value outside the element type is not
    rejected either: it is reduced to 16 bits, signed for the M8190A
    and the VSG, unsigned for the UXG. *)
Theorem iq_wfm_combiner_length_mismatch :
  forall i q,
    (is_raise (M8190A.iq_wfm_combiner i q) <->
     length q <> length i /\ length q <> 1%nat) /\
    (is_raise (VSG.iq_wfm_combiner i q) <->
     length q <> length i /\ length q <> 1%nat) /\
    (is_raise (UXG.iq_wfm_combiner i q) <->
     length q <> length i /\ length q <> 1%nat) /\
    (forall y,
        M8190A.iq_wfm_combiner i [y] =
          Ok (Np.interleave (map (Np.wrap_signed 16) i)
                (repeat (Np.wrap_signed 16 y) (length i))) /\
        VSG.iq_wfm_combiner i [y] =
          Ok (Np.interleave (map (Np.wrap_signed 16) i)
                (repeat (Np.wrap_signed 16 y) (length i))) /\
        UXG.iq_wfm_combiner i [y] =
          Ok (Np.interleave (map (Np.wrap_unsigned 16) i)
                (repeat (Np.wrap_unsigned 16 y) (length i)))) /\
    (forall iq, M8190A.iq_wfm_combiner i q = Ok iq ->
                length iq = (2 * length i)%nat /\
                slice_step 2 0 iq = map (Np.wrap_signed 16) i) /\
    (forall iq, VSG.iq_wfm_combiner i q = Ok iq ->
                length iq = (2 * length i)%nat /\
                slice_step 2 0 iq = map (Np.wrap_signed 16) i) /\
    (forall iq, UXG.iq_wfm_combiner i q = Ok iq ->
                length iq = (2 * length i)%nat /\
                slice_step 2 0 iq = map (Np.wrap_unsigned 16) i).
Proof.
  intros i q.
  unfold M8190A.iq_wfm_combiner, VSG.iq_wfm_combiner, UXG.iq_wfm_combiner.
  split; [apply combine_raise|]. split; [apply combine_raise|].
  split; [apply combine_raise|]. split.
  - intros y. rewrite !combine_broadcast. auto.
  - split; [|split]; intros iq H; apply combine_ok_even in H; exact H.
Qed.

Lemma iq_wfm_combiner_length_mismatch_witness :
  is_raise (VSG.iq_wfm_combiner [1; 2; 3] [7; 8]) /\
  VSG.iq_wfm_combiner [1; 2; 3] [7] = Ok [1; 7; 2; 7; 3; 7] /\
  M8190A.iq_wfm_combiner [32768] [-32769] = Ok [-32768; 32767] /\
  UXG.iq_wfm_combiner [65536] [-1] = Ok [0; 65535].
Proof.
  destruct (iq_wfm_combiner_length_mismatch [1; 2; 3] [7; 8]) as (_ & Hr & _ & Hb & _).
  split; [|split; [|split]].
  - apply Hr. cbn. split; lia.
  - apply (Hb 7).
  - destruct (iq_wfm_combiner_length_mismatch [32768] [7]) as (_ & _ & _ & Hw & _).
    apply (Hw (-32769)).
  - destruct (iq_wfm_combiner_length_mismatch [65536] [7]) as (_ & _ & _ & Hw & _).
    apply (Hw (-1)).
Defined.

(** ** Downloads *)

Lemma guarded_ok_inv E minLen gran fmt wfm out :
  guarded E minLen gran fmt wfm = Ok out ->
  minLen <= Z.of_nat (length wfm) /\ out = fmt wfm.
Proof.
  unfold guarded. intros H.
  destruct (Z.ltb_spec (Z.of_nat (length wfm)) minLen); [discriminate|].
  destruct (gran =? 0); [discriminate|].
  destruct (negb _); [discriminate|].
  injection H as <-. split; [assumption | reflexivity].
Qed.

Lemma byteswap_int16 a : int16_array (Np.byteswap a).
Proof.
  unfold Np.byteswap. apply Forall_map, Forall_forall.
  intros v _. apply (wrap_signed_range 16). lia.
Qed.

Lemma VSG_check_wfm_ok_inv self wfm b out :
  VSG.check_wfm self wfm b = Ok out ->
  VSG.minLen self <= Z.of_nat (length wfm) /\ length out = length wfm /\
  int16_array out.
Proof.
  rewrite VSG_check_wfm_guarded. intros H.
  apply guarded_ok_inv in H as [Hlen ->]. split; [assumption|]. split.
  - unfold Np.byteswap, Np.array_int, Np.scalar_mul.
    destruct b; rewrite !length_map; reflexivity.
  - destruct b; [apply byteswap_int16 | apply (array_int_range 16); lia].
Qed.

(** X3.  [VSG.download_iq_wfm] sends nothing unless both waveforms pass
    [check_wfm] and have one length: on every error the list of events
    is empty.  When they do, it sends exactly the binary block and
    then the command selecting the waveform; the block is twice as
    long as [i] and its even and odd positions are the formatted [i]
    and [q]. *)
Theorem VSG_download_iq_wfm_all_or_nothing :
  forall self name i q,
    1 < VSG.minLen self ->
    (forall e, snd (VSG.download_iq_wfm self name i q) = Raise e ->
               fst (VSG.download_iq_wfm self name i q) = []) /\
    (snd (VSG.download_iq_wfm self name i q) = Ok tt <->
     is_ok (VSG.check_wfm self i true) /\ is_ok (VSG.check_wfm self q true) /\
     length i = length q) /\
    (forall ci cq,
        VSG.check_wfm self i true = Ok ci ->
        VSG.check_wfm self q true = Ok cq ->
        length i = length q ->
        exists iq,
          fst (VSG.download_iq_wfm self name i q) =
            [ Scpi.BinBlockWrite
                ("mmemory:data " +:+ Py.dquote +:+ "wfm1:" +:+ name +:+
                 Py.dquote +:+ ", ") iq;
              Scpi.Write
                ("radio:arb:waveform " +:+ Py.dquote +:+ "WFM1:" +:+ name +:+
                 Py.dquote) ] /\
          length iq = (2 * length i)%nat /\
          slice_step 2 0 iq = ci /\ slice_step 2 1 iq = cq).
Proof.
  intros self name i q Hmin. unfold VSG.download_iq_wfm.
  destruct (VSG.check_wfm self i true) as [ci|ei] eqn:Hi.
  2: { cbn [fst snd is_ok]. split; [reflexivity|]. split; [|discriminate].
       split; [discriminate | intros ([] & _)]. }
  destruct (VSG.check_wfm self q true) as [cq|eq] eqn:Hq.
  2: { cbn [fst snd is_ok]. split; [reflexivity|]. split; [|discriminate].
       split; [discriminate | intros (_ & [] & _)]. }
  destruct (VSG_check_wfm_ok_inv _ _ _ _ Hi) as (Hmi & Hli & Hri).
  destruct (VSG_check_wfm_ok_inv _ _ _ _ Hq) as (Hmq & Hlq & Hrq).
  destruct (Nat.eq_dec (length q) (length i)) as [E|E].
  - unfold VSG.iq_wfm_combiner.
    rewrite combine_same_length by congruence.
    rewrite !map_wrap_signed_int16 by assumption. cbn [fst snd is_ok].
    split; [discriminate|]. split; [split; auto|].
    intros ? ? [= <-] [= <-] _. eexists. split; [reflexivity|].
    rewrite length_interleave, interleave_even, interleave_odd by congruence.
    rewrite Hli. auto.
  - pose proof (combine_raise (Np.wrap_signed 16) ci cq) as [_ Hr].
    unfold VSG.iq_wfm_combiner.
    destruct (Np.combine (Np.wrap_signed 16) ci cq) as [iq|e].
    + exfalso. apply Hr. split; [congruence | lia].
    + cbn [fst snd is_ok]. split; [reflexivity|].
      split; [split; [discriminate | intros (_ & _ & E'); congruence]|].
      intros ? ? _ _ E'. congruence.
Qed.

Lemma VSG_download_iq_wfm_all_or_nothing_witness :
  snd (VSG.download_iq_wfm VSG.init "pulse"
         (repeat (Float.Finite 1) 60) (repeat (Float.Finite 0) 60)) = Ok tt /\
  fst (VSG.download_iq_wfm VSG.init "pulse"
         (repeat (Float.Finite 1) 59) (repeat (Float.Finite 0) 60)) = [].
Proof.
  split.
  - apply (VSG_download_iq_wfm_all_or_nothing VSG.init "pulse"
             (repeat (Float.Finite 1) 60) (repeat (Float.Finite 0) 60)); [cbn; lia|].
    split; [|split]; [vm_compute; exact I | vm_compute; exact I | reflexivity].
  - destruct (VSG_download_iq_wfm_all_or_nothing VSG.init "pulse"
                (repeat (Float.Finite 1) 59) (repeat (Float.Finite 0) 60)) as [H _];
      [cbn; lia|].
    eapply H. vm_compute. reflexivity.
Defined.

(** ** More on the resolution modes *)

(** X4.  [check_resolution] is idempotent: a second call on the object
    the first call leaves assigns nothing new and has the same
    outcome, whatever the mode identifier. *)
Theorem check_resolution_idempotent :
  forall self,
    M8190A.check_resolution (fst (M8190A.check_resolution self)) =
    M8190A.check_resolution self.
Proof.
  intros [r g l m s f i]. unfold M8190A.check_resolution. m8190a_attrs.
  destruct (String.eqb r "wpr") eqn:E1; [m8190a_attrs; rewrite E1; reflexivity|].
  destruct (String.eqb r "wsp") eqn:E2; [m8190a_attrs; rewrite E1, E2; reflexivity|].
  destruct (Py.contains "intx" r) eqn:E3;
    [|m8190a_attrs; rewrite E1, E2, E3; reflexivity].
  destruct (Py.int_of_str (Py.split_last "x" r)) as [n|e] eqn:E4;
    [|m8190a_attrs; rewrite E1, E2, E3, E4; reflexivity].
  destruct (n =? 3) eqn:N3;
    [m8190a_attrs; rewrite E1, E2, E3, E4, N3; reflexivity|].
  destruct (n =? 12) eqn:N12;
    [m8190a_attrs; rewrite E1, E2, E3, E4, N3, N12; reflexivity|].
  destruct ((n =? 24) || (n =? 48)) eqn:N24;
    m8190a_attrs; rewrite E1, E2, E3, E4, N3, N12, N24; reflexivity.
Qed.

Lemma int_of_str_error t e :
  Py.int_of_str t = Raise e -> exists msg, e = ValueError msg.
Proof.
  unfold Py.int_of_str. intros H.
  set (u := Py.rstrip Py.is_int_space (Py.lstrip Py.is_int_space t)) in *.
  destruct (match u with
            | String "-" t' => option_map Z.opp (Py.digits 0 false t')
            | String "+" t' => Py.digits 0 false t'
            | _ => Py.digits 0 false u
            end); [discriminate|].
  injection H as <-. eauto.
Qed.

Lemma check_resolution_outcome self :
  match snd (M8190A.check_resolution self) with
  | Ok _ =>
      M8190A.res self = "wpr" \/ M8190A.res self = "wsp" \/
      Py.contains "intx" (M8190A.res self) = true
  | Raise e =>
      M8190A.res self <> "wpr" /\ M8190A.res self <> "wsp" /\
      ((e = AwgError "Invalid resolution selected." /\
        Py.contains "intx" (M8190A.res self) = false /\
        fst (M8190A.check_resolution self) = self) \/
       ((exists msg, e = ValueError msg) /\
        Py.contains "intx" (M8190A.res self) = true))
  end.
Proof.
  unfold M8190A.check_resolution.
  destruct (String.eqb_spec (M8190A.res self) "wpr") as [E1|E1]; [cbn; auto|].
  destruct (String.eqb_spec (M8190A.res self) "wsp") as [E2|E2]; [cbn; auto|].
  destruct (Py.contains "intx" (M8190A.res self)) eqn:E3;
    [|cbn [fst snd]; auto 6].
  m8190a_attrs.
  destruct (Py.int_of_str _) as [n|e] eqn:E4.
  - destruct (n =? 3); [cbn [snd]; auto|].
    destruct (n =? 12); [cbn [snd]; auto|].
    destruct ((n =? 24) || (n =? 48)); cbn [snd]; auto.
  - cbn [snd]. apply int_of_str_error in E4. auto 6.
Qed.

(** X5.  The only exceptions of [check_resolution] are the [AwgError]
    of its last branch and the [ValueError] of [int()].  The
    [AwgError] is raised exactly for an identifier that is neither
    ['wpr'] nor ['wsp'] and does not contain ['intx'], and then no
    attribute has been assigned; the identifier [res] is never
    assigned. *)
Theorem check_resolution_errors :
  forall self,
    (snd (M8190A.check_resolution self) =
       Raise (AwgError "Invalid resolution selected.") <->
     M8190A.res self <> "wpr" /\ M8190A.res self <> "wsp" /\
     Py.contains "intx" (M8190A.res self) = false) /\
    (snd (M8190A.check_resolution self) =
       Raise (AwgError "Invalid resolution selected.") ->
     fst (M8190A.check_resolution self) = self) /\
    (forall e, snd (M8190A.check_resolution self) = Raise e ->
               e = AwgError "Invalid resolution selected." \/
               exists msg, e = ValueError msg) /\
    M8190A.res (fst (M8190A.check_resolution self)) = M8190A.res self.
Proof.
  intros self. pose proof (check_resolution_outcome self) as H.
  pose proof (check_resolution_res self) as Hres.
  destruct (snd (M8190A.check_resolution self)) as [[]|e].
  - split; [|split; [|split]]; try discriminate; try assumption.
    split; [discriminate|]. intros (H1 & H2 & H3).
    destruct H as [H|[H|H]]; congruence.
  - destruct H as (H1 & H2 & [(-> & H3 & H4)|((msg & ->) & H3)]).
    + split; [|split; [|split]]; auto.
      * split; auto.
      * intros e [= <-]. auto.
    + split; [|split; [|split]]; try discriminate; auto.
      * split; [discriminate|]. intros (_ & _ & H4). congruence.
      * intros e [= <-]. eauto.
Qed.

Lemma check_resolution_errors_witness :
  M8190A.check_resolution
    {| M8190A.res := "wide"; M8190A.gran := 64; M8190A.minLen := 320;
       M8190A.binMult := 2047; M8190A.binShift := 4;
       M8190A.intFactor := None; M8190A.idleGran := None |}
  = ({| M8190A.res := "wide"; M8190A.gran := 64; M8190A.minLen := 320;
        M8190A.binMult := 2047; M8190A.binShift := 4;
        M8190A.intFactor := None; M8190A.idleGran := None |},
     Raise (AwgError "Invalid resolution selected.")).
Proof.
  set (self := {| M8190A.res := "wide"; M8190A.gran := 64; M8190A.minLen := 320;
                  M8190A.binMult := 2047; M8190A.binShift := 4;
                  M8190A.intFactor := None; M8190A.idleGran := None |}).
  destruct (check_resolution_errors self) as ([_ Hraise] & Hsame & _).
  assert (Hr : snd (M8190A.check_resolution self) =
               Raise (AwgError "Invalid resolution selected.")).
  { apply Hraise. split; [discriminate | split; [discriminate | reflexivity]]. }
  specialize (Hsame Hr).
  destruct (M8190A.check_resolution self) as [s' r']. cbn [fst snd] in *.
  congruence.
Defined.

(** ** Stored sample values *)

(** The signed and the unsigned reduction keep the same low bits. *)
Lemma wrap_unsigned_signed w v :
  0 < w -> Np.wrap_unsigned w (Np.wrap_signed w v) = Np.wrap_unsigned w v.
Proof.
  intros Hw. unfold Np.wrap_unsigned, Np.wrap_signed.
  assert (HM : 2 ^ w <> 0) by (apply Z.pow_nonzero; lia).
  generalize dependent (2 ^ w). intros M HM. generalize (2 ^ (w - 1)). intros h.
  rewrite (Z.mod_eq (v + h) M) by assumption.
  replace (v + h - M * ((v + h) / M) - h) with (v + (- ((v + h) / M)) * M) by ring.
  apply Z_mod_plus_full.
Qed.

Lemma wrap_signed_unsigned w v :
  0 < w -> Np.wrap_signed w (Np.wrap_unsigned w v) = Np.wrap_signed w v.
Proof.
  intros Hw. unfold Np.wrap_unsigned, Np.wrap_signed.
  assert (HM : 2 ^ w <> 0) by (apply Z.pow_nonzero; lia).
  generalize dependent (2 ^ w). intros M HM. generalize (2 ^ (w - 1)). intros h.
  f_equal. rewrite (Z.mod_eq v M) by assumption.
  replace (v - M * (v / M) + h) with (v + h + (- (v / M)) * M) by ring.
  apply Z_mod_plus_full.
Qed.

(** The two bytes of a 16-bit pattern, exchanged. *)
Lemma byteswap16u_arith u :
  0 <= u < 2 ^ 16 ->
  Np.byteswap16u u = u mod 256 * 256 + u / 256 /\
  0 <= Np.byteswap16u u < 2 ^ 16.
Proof.
  intros Hu. unfold Np.byteswap16u.
  change 255 with (Z.ones 8). rewrite Z.land_ones, Z.shiftr_div_pow2 by lia.
  change (2 ^ 8) with 256.
  assert (0 <= u / 256 < 2 ^ 8)
    by (change (2 ^ 16) with 65536 in Hu; change (2 ^ 8) with 256;
        Z.div_mod_to_equations; lia).
  rewrite Z.lor_comm, lor_shiftl_add by lia.
  change (2 ^ 8) with 256 in *. change (2 ^ 16) with 65536 in *.
  pose proof (Z.mod_pos_bound u 256). lia.
Qed.

Lemma byteswap16u_involutive u :
  0 <= u < 2 ^ 16 -> Np.byteswap16u (Np.byteswap16u u) = u.
Proof.
  intros Hu. destruct (byteswap16u_arith u Hu) as [E R].
  destruct (byteswap16u_arith _ R) as [E' _]. rewrite E', E.
  change (2 ^ 16) with 65536 in Hu. Z.div_mod_to_equations. lia.
Qed.

Lemma byteswap16_as_unsigned v :
  Np.byteswap16 v = Np.wrap_signed 16 (Np.byteswap16u (Np.wrap_unsigned 16 v)).
Proof. reflexivity. Qed.

Lemma byteswap16_involutive v :
  - 2 ^ 15 <= v < 2 ^ 15 -> Np.byteswap16 (Np.byteswap16 v) = v.
Proof.
  intros Hv. rewrite !byteswap16_as_unsigned.
  rewrite wrap_unsigned_signed by lia.
  assert (Hu : 0 <= Np.wrap_unsigned 16 v < 2 ^ 16)
    by (apply Z.mod_pos_bound; lia).
  destruct (byteswap16u_arith _ Hu) as [_ R].
  unfold Np.wrap_unsigned at 1. rewrite (Z.mod_small _ _ R).
  rewrite byteswap16u_involutive by assumption.
  rewrite wrap_signed_unsigned by lia.
  apply (wrap_signed_small 16); [lia | exact Hv].
Qed.

Lemma guarded_fmt_indep E minLen gran fmt fmt' wfm :
  guarded E minLen gran fmt' wfm =
    match guarded E minLen gran fmt wfm with
    | Ok _ => Ok (fmt' wfm)
    | Raise e => Raise e
    end.
Proof.
  unfold guarded.
  destruct (_ <? _); [reflexivity|].
  destruct (_ =? 0); [reflexivity|].
  destruct (negb _); reflexivity.
Qed.

Lemma byteswap_involutive a :
  Forall (fun v => - 2 ^ 15 <= v < 2 ^ 15) a -> Np.byteswap (Np.byteswap a) = a.
Proof.
  unfold Np.byteswap. induction 1 as [|v a Hv _ IH]; [reflexivity|].
  cbn [map]. rewrite byteswap16_involutive, IH by assumption. reflexivity.
Qed.

Lemma byteswapu_involutive a :
  Forall (fun v => 0 <= v < 2 ^ 16) a -> Np.byteswapu (Np.byteswapu a) = a.
Proof.
  unfold Np.byteswapu. induction 1 as [|v a Hv _ IH]; [reflexivity|].
  cbn [map]. rewrite byteswap16u_involutive, IH by assumption. reflexivity.
Qed.

Lemma byteswapu_uint16 a : uint16_array a -> uint16_array (Np.byteswapu a).
Proof.
  unfold Np.byteswapu. intros H. apply Forall_map.
  eapply Forall_impl; [exact H|]. intros v Hv. cbn beta.
  apply byteswap16u_arith, Hv.
Qed.

Lemma UXG_check_wfm_ok_inv self wfm b out :
  UXG.check_wfm self wfm b = Ok out ->
  UXG.minLen self <= Z.of_nat (length wfm) /\ length out = length wfm /\
  uint16_array out.
Proof.
  rewrite UXG_check_wfm_guarded. intros H.
  apply guarded_ok_inv in H as [Hlen ->]. split; [assumption|]. split.
  - unfold Np.byteswapu, Np.array_uint, Np.scalar_mul.
    destruct b; rewrite !length_map; reflexivity.
  - destruct b; [apply byteswapu_uint16|]; apply (array_uint_range 16); lia.
Qed.

(** X17.  [UXG.download_iq_wfm] sends nothing on any error, and
    succeeds exactly when both waveforms pass [check_wfm] and have one
    length, whatever [assign] is.  On success [assign=False] sends the
    binary block alone and [assign=True] the same block followed by
    the command selecting the waveform; the block is twice as long as
    [i] and its even and odd positions are the formatted [i] and
    [q]. *)
Theorem UXG_download_iq_wfm_assign :
  forall self name i q assign,
    1 < UXG.minLen self ->
    (forall e, snd (UXG.download_iq_wfm self name i q assign) = Raise e ->
               fst (UXG.download_iq_wfm self name i q assign) = []) /\
    (snd (UXG.download_iq_wfm self name i q assign) = Ok tt <->
     is_ok (UXG.check_wfm self i true) /\ is_ok (UXG.check_wfm self q true) /\
     length i = length q) /\
    (forall ci cq,
        UXG.check_wfm self i true = Ok ci ->
        UXG.check_wfm self q true = Ok cq ->
        length i = length q ->
        exists iq,
          fst (UXG.download_iq_wfm self name i q false) =
            [ Scpi.BinBlockWrite
                ("memory:data " +:+ Py.dquote +:+ "WFM1:" +:+ name +:+
                 Py.dquote +:+ ", ") iq ] /\
          fst (UXG.download_iq_wfm self name i q true) =
            [ Scpi.BinBlockWrite
                ("memory:data " +:+ Py.dquote +:+ "WFM1:" +:+ name +:+
                 Py.dquote +:+ ", ") iq;
              Scpi.Write
                ("radio:arb:waveform " +:+ Py.dquote +:+ "WFM1:" +:+ name +:+
                 Py.dquote) ] /\
          length iq = (2 * length i)%nat /\
          slice_step 2 0 iq = ci /\ slice_step 2 1 iq = cq).
Proof.
  intros self name i q assign Hmin. unfold UXG.download_iq_wfm.
  destruct (UXG.check_wfm self i true) as [ci|ei] eqn:Hi.
  2: { cbn [fst snd is_ok]. split; [reflexivity|]. split; [|discriminate].
       split; [discriminate | intros ([] & _)]. }
  destruct (UXG.check_wfm self q true) as [cq|eq] eqn:Hq.
  2: { cbn [fst snd is_ok]. split; [reflexivity|]. split; [|discriminate].
       split; [discriminate | intros (_ & [] & _)]. }
  destruct (UXG_check_wfm_ok_inv _ _ _ _ Hi) as (Hmi & Hli & Hri).
  destruct (UXG_check_wfm_ok_inv _ _ _ _ Hq) as (Hmq & Hlq & Hrq).
  destruct (Nat.eq_dec (length q) (length i)) as [E|E].
  - unfold UXG.iq_wfm_combiner.
    rewrite combine_same_length by congruence.
    rewrite !map_wrap_unsigned_uint16 by assumption.
    split; [destruct assign; discriminate|].
    split; [destruct assign; cbn [fst snd is_ok]; split; auto|].
    intros ? ? [= <-] [= <-] _. eexists. cbn [fst app].
    split; [reflexivity|]. split; [reflexivity|].
    rewrite length_interleave, interleave_even, interleave_odd by congruence.
    rewrite Hli. auto.
  - pose proof (combine_raise (Np.wrap_unsigned 16) ci cq) as [_ Hr].
    unfold UXG.iq_wfm_combiner.
    destruct (Np.combine (Np.wrap_unsigned 16) ci cq) as [iq|e].
    + exfalso. apply Hr. split; [congruence | lia].
    + cbn [fst snd is_ok]. split; [reflexivity|].
      split; [split; [discriminate | intros (_ & _ & E'); congruence]|].
      intros ? ? _ _ E'. congruence.
Qed.

Lemma UXG_download_iq_wfm_assign_witness :
  snd (UXG.download_iq_wfm (UXG.Build_t 2 60 32767) "pulse"
         (repeat (Float.literal 1) 60) (repeat (Float.literal 0) 60) false) = Ok tt /\
  fst (UXG.download_iq_wfm (UXG.Build_t 2 60 32767) "pulse"
         (repeat (Float.literal 1) 60) (repeat (Float.literal 0) 58) true) = [].
Proof.
  split.
  - apply (UXG_download_iq_wfm_assign (UXG.Build_t 2 60 32767) "pulse"
             (repeat (Float.literal 1) 60) (repeat (Float.literal 0) 60) false);
      [cbn; lia|].
    split; [|split]; [vm_compute; exact I | vm_compute; exact I | reflexivity].
  - destruct (UXG_download_iq_wfm_assign (UXG.Build_t 2 60 32767) "pulse"
                (repeat (Float.literal 1) 60) (repeat (Float.literal 0) 58) true)
      as [H _]; [cbn; lia|].
    eapply H. vm_compute. reflexivity.
Defined.

(** X6.  The [bigEndian] argument of the signal generators' [check_wfm]
    changes the byte order of the result and nothing else: the same
    waveforms are accepted and rejected, with the same error, and
    swapping the bytes of the big-endian result gives the
    little-endian result. *)
Theorem check_wfm_byte_order :
  (forall self wfm,
      match VSG.check_wfm self wfm true with
      | Ok out => VSG.check_wfm self wfm false = Ok (Np.byteswap out)
      | Raise e => VSG.check_wfm self wfm false = Raise e
      end) /\
  (forall self wfm,
      match UXG.check_wfm self wfm true with
      | Ok out => UXG.check_wfm self wfm false = Ok (Np.byteswapu out)
      | Raise e => UXG.check_wfm self wfm false = Raise e
      end).
Proof.
  split; intros self wfm.
  - rewrite !VSG_check_wfm_guarded.
    rewrite (guarded_fmt_indep _ _ _
               (fun wfm => Np.byteswap
                             (Np.array_int 16 (Np.scalar_mul (VSG.binMult self) wfm)))
               (fun wfm => Np.array_int 16 (Np.scalar_mul (VSG.binMult self) wfm))).
    destruct (guarded _ _ _ _ wfm) as [out|e] eqn:H; [|reflexivity].
    apply guarded_ok_inv in H as [_ ->].
    rewrite byteswap_involutive; [reflexivity|]. apply (array_int_range 16). lia.
  - rewrite !UXG_check_wfm_guarded.
    rewrite (guarded_fmt_indep _ _ _
               (fun wfm => Np.byteswapu
                             (Np.array_uint 16 (Np.scalar_mul (UXG.binMult self) wfm)))
               (fun wfm => Np.array_uint 16 (Np.scalar_mul (UXG.binMult self) wfm))).
    destruct (guarded _ _ _ _ wfm) as [out|e] eqn:H; [|reflexivity].
    apply guarded_ok_inv in H as [_ ->].
    rewrite byteswapu_involutive; [reflexivity|]. apply (array_uint_range 16). lia.
Qed.

Lemma left_shift_aligned w v s :
  0 <= s <= w -> Np.left_shift w v s mod 2 ^ s = 0.
Proof.
  intros Hs. unfold Np.left_shift, Np.wrap_signed.
  rewrite Z.shiftl_mul_pow2 by lia.
  assert (E : 2 ^ w = 2 ^ (w - s) * 2 ^ s)
    by (rewrite <- Z.pow_add_r by lia; f_equal; lia).
  assert (Hp : 0 < 2 ^ s) by (apply Z.pow_pos_nonneg; lia).
  assert (Hq : 0 < 2 ^ (w - s)) by (apply Z.pow_pos_nonneg; lia).
  rewrite (Z.mod_eq (v * 2 ^ s + 2 ^ (w - 1)) (2 ^ w)) by lia.
  set (k := (v * 2 ^ s + 2 ^ (w - 1)) / 2 ^ w).
  replace (v * 2 ^ s + 2 ^ (w - 1) - 2 ^ w * k - 2 ^ (w - 1))
    with ((v - 2 ^ (w - s) * k) * 2 ^ s) by (rewrite E; ring).
  apply Z_mod_mult.
Qed.

(** X7.  Every sample that [M8190A.check_wfm] returns is a 16-bit
    two's-complement value whose low [binShift] bits are zero (the
    bits the instrument reads as markers), and every sample that
    [M8195A.check_wfm] returns is an 8-bit value; the result has the
    length of the waveform. *)
Theorem check_wfm_sample_format :
  (forall self self' wfm out,
      M8190A.check_wfm self wfm = (self', Ok out) ->
      length out = length wfm /\
      Forall (fun v => - 2 ^ 15 <= v < 2 ^ 15 /\
                       v mod 2 ^ M8190A.binShift self' = 0) out) /\
  (forall wfm out,
      M8195A.check_wfm M8195A.init wfm = Ok out ->
      length out = length wfm /\ Forall (fun v => - 2 ^ 7 <= v < 2 ^ 7) out).
Proof.
  split.
  - intros self self' wfm out H.
    assert (Hres : M8190A.check_resolution self = (self', Ok tt)).
    { unfold M8190A.check_wfm in H.
      destruct (M8190A.check_resolution self) as [s' [[]|e]]; [|discriminate].
      repeat match type of H with
             | (if ?c then _ else _) = _ => destruct c
             end; congruence. }
    rewrite (M8190A_check_wfm_guarded _ _ wfm Hres) in H.
    injection H as H. apply guarded_ok_inv in H as [_ ->].
    pose proof (check_resolution_format _ _ Hres) as Hf.
    rewrite !elem_of_cons, elem_of_nil in Hf.
    assert (0 <= M8190A.binShift self' <= 16)
      by (destruct Hf as [Hf|[Hf|[Hf|[]]]]; injection Hf as _ _ _ ->; lia).
    unfold Np.lshift, Np.array_int, Np.scalar_mul. rewrite !length_map.
    split; [reflexivity|]. rewrite !Forall_map. apply Forall_forall.
    intros x _. cbn beta. split.
    + apply (wrap_signed_range 16). lia.
    + apply left_shift_aligned. assumption.
  - intros wfm out H. rewrite M8195A_check_wfm_guarded in H.
    apply guarded_ok_inv in H as [_ ->].
    unfold Np.lshift, Np.array_int, Np.scalar_mul. rewrite !length_map.
    split; [reflexivity|]. rewrite !Forall_map. apply Forall_forall.
    intros x _. apply (wrap_signed_range 8). lia.
Qed.

Lemma check_wfm_sample_format_witness :
  Forall (fun v => - 2 ^ 15 <= v < 2 ^ 15 /\ v mod 2 ^ 4 = 0)
         (repeat (Z.shiftl 2047 4) 320).
Proof.
  destruct check_wfm_sample_format as [H _].
  apply (H {| M8190A.res := "wsp"; M8190A.gran := 64; M8190A.minLen := 320;
              M8190A.binMult := 2047; M8190A.binShift := 4;
              M8190A.intFactor := None; M8190A.idleGran := None |}
           {| M8190A.res := "wsp"; M8190A.gran := 64; M8190A.minLen := 320;
              M8190A.binMult := 2047; M8190A.binShift := 4;
              M8190A.intFactor := None; M8190A.idleGran := None |}
           (repeat (Float.literal 1) 320)).
  vm_compute. reflexivity.
Defined.

(** X8.  In each format of the M8190A the value stored for a sample
    between -1 and 1 grows with the sample, and the value stored for
    [-x] is the negative of the value stored for [x]: rounding the
    product and cutting it toward zero treat both signs alike and
    never reach the code -32768. *)
Theorem M8190A_quantizer_monotone_odd :
  forall self self' x y,
    M8190A.check_resolution self = (self', Ok tt) ->
    (-1 <= x)%Q -> (x <= y)%Q -> (y <= 1)%Q ->
    let q := fun v => Np.left_shift 16
                        (Np.astype_int 16
                           (Float.mul (Float.of_Z (M8190A.binMult self'))
                                      (Float.Finite v)))
                        (M8190A.binShift self') in
    q x <= q y /\ q (- x)%Q = - q x /\ - 2 ^ 15 < q x.
Proof.
  intros self self' x y Hres Hx Hxy Hy q. subst q. cbn beta.
  pose proof (check_resolution_format _ _ Hres) as Hf.
  rewrite !elem_of_cons, elem_of_nil in Hf.
  set (m := M8190A.binMult self') in *. set (s := M8190A.binShift self') in *.
  assert (Hms : 0 < m /\ 0 <= s /\ m * 2 ^ s < 2 ^ 15).
  { destruct Hf as [Hf|[Hf|[Hf|[]]]]; injection Hf as _ _ Hm Hs;
      subst m s; rewrite Hm, Hs; lia. }
  destruct Hms as (Hm & Hs & Hfit).
  assert (Hx1 : (x <= 1)%Q) by (eapply Qle_trans; eassumption).
  assert (Hy1 : (-1 <= y)%Q) by (eapply Qle_trans; eassumption).
  assert (Hnx : (-1 <= - x)%Q) by (apply Qopp_le_compat in Hx1; exact Hx1).
  assert (Hnx1 : (- x <= 1)%Q) by (apply Qopp_le_compat in Hx; exact Hx).
  rewrite !left_shift_astype_int by lia.
  destruct (quantize_in_range 16 m s x) as [-> Hb];
    try (split; assumption || lia); try lia.
  destruct (quantize_in_range 16 m s y) as [-> _];
    try (split; assumption || lia); try lia.
  destruct (quantize_in_range 16 m s (- x)) as [-> _];
    try (split; assumption || lia); try lia.
  assert (Hp : 0 < 2 ^ s) by (apply Z.pow_pos_nonneg; lia).
  split; [|split].
  - apply Z.mul_le_mono_nonneg_r; [lia|]. apply trunc_monotone, rnd_mono.
    apply Qmult_le_l; [|assumption]. unfold Qlt. cbn. lia.
  - assert (E : (inject_Z m * - x)%Q = (- (inject_Z m * x))%Q).
    { destruct x as [n d]. unfold Qmult, Qopp, inject_Z. cbn [Qnum Qden].
      f_equal. ring. }
    rewrite E, rnd_opp, trunc_opp. ring.
  - nia.
Qed.

Lemma M8190A_quantizer_monotone_odd_witness :
  Np.left_shift 16
    (Np.astype_int 16 (Float.mul (Float.of_Z 2047) (Float.Finite (1 # 4)))) 4
  <= Np.left_shift 16
       (Np.astype_int 16 (Float.mul (Float.of_Z 2047) (Float.Finite (1 # 2)))) 4.
Proof.
  apply (M8190A_quantizer_monotone_odd
           {| M8190A.res := "wsp"; M8190A.gran := 64; M8190A.minLen := 320;
              M8190A.binMult := 2047; M8190A.binShift := 4;
              M8190A.intFactor := None; M8190A.idleGran := None |}
           {| M8190A.res := "wsp"; M8190A.gran := 64; M8190A.minLen := 320;
              M8190A.binMult := 2047; M8190A.binShift := 4;
              M8190A.intFactor := None; M8190A.idleGran := None |}
           (1 # 4) (1 # 2) eq_refl);
    unfold Qle; cbn; lia.
Defined.

Lemma byteswap_unsigned_signed t :
  Np.byteswap16u (Np.wrap_unsigned 16 t) =
  Np.wrap_unsigned 16 (Np.byteswap16 (Np.wrap_signed 16 t)).
Proof.
  rewrite byteswap16_as_unsigned, !wrap_unsigned_signed by lia.
  assert (Hu : 0 <= Np.wrap_unsigned 16 t < 2 ^ 16)
    by (apply Z.mod_pos_bound; lia).
  destruct (byteswap16u_arith _ Hu) as [_ R].
  unfold Np.wrap_unsigned at 2. rewrite (Z.mod_small _ _ R). reflexivity.
Qed.

(** X9.  On one waveform and the same three constants, [UXG.check_wfm]
    and [VSG.check_wfm] accept and reject alike, with the same error,
    and their results hold the same 16-bit patterns: each sample of
    the UXG's unsigned array is the sample of the VSG's signed array
    taken modulo [2 ** 16], in either byte order. *)
Theorem UXG_check_wfm_same_bits_as_VSG :
  forall (v : VSG.t) wfm bigEndian,
    let u := UXG.Build_t (VSG.gran v) (VSG.minLen v) (VSG.binMult v) in
    match VSG.check_wfm v wfm bigEndian with
    | Ok out =>
        UXG.check_wfm u wfm bigEndian = Ok (map (Np.wrap_unsigned 16) out)
    | Raise e => UXG.check_wfm u wfm bigEndian = Raise e
    end.
Proof.
  intros v wfm b u. subst u.
  rewrite VSG_check_wfm_guarded, UXG_check_wfm_guarded.
  cbn [UXG.gran UXG.minLen UXG.binMult].
  rewrite (guarded_fmt_indep _ _ _
             (fun wfm =>
                if b
                then Np.byteswap (Np.array_int 16 (Np.scalar_mul (VSG.binMult v) wfm))
                else Np.array_int 16 (Np.scalar_mul (VSG.binMult v) wfm))
             (fun wfm =>
                if b
                then Np.byteswapu (Np.array_uint 16 (Np.scalar_mul (VSG.binMult v) wfm))
                else Np.array_uint 16 (Np.scalar_mul (VSG.binMult v) wfm))).
  destruct (guarded _ _ _ _ wfm) as [out|e] eqn:H; [|reflexivity].
  apply guarded_ok_inv in H as [_ ->]. f_equal.
  unfold Np.byteswap, Np.byteswapu, Np.array_int, Np.array_uint.
  destruct b; rewrite !map_map; apply map_ext; intros x.
  - apply byteswap_unsigned_signed.
  - unfold Np.astype_uint, Np.astype_int. symmetry.
    apply wrap_unsigned_signed. lia.
Qed.

(** ** Reading a PDW back *)

(** X10.  The six words of a descriptor whose four quantities scale
    to integers that fit their widths, as the other fields do, lose
    nothing: reading the fields back by their widths gives the format
    tag 1, the integer arguments as they were passed, and the scaled
    frequency, phase, start time and power as the code has computed
    them. *)
Theorem bin_pdw_builder_decodes :
  forall np p s,
    UXG.scale p = Ok s ->
    pdw_fits p s ->
    exists words,
      UXG.bin_pdw_builder np p = Ok words /\
      pdw_decode words =
        Some {| f_format := 1;
                f_operation := UXG.operation p;
                f_freq := UXG._freq s;
                f_phase := UXG._phase s;
                f_startTimePs := UXG._startTimePs s;
                f_power := UXG._power s;
                f_markers := UXG.markers p;
                f_phaseControl := UXG.phaseControl p;
                f_rfOff := UXG.rfOff p;
                f_wIndex := UXG.wIndex p;
                f_wfmMkrMask := UXG.wfmMkrMask p |}.
Proof.
  intros np p s Hs Hfit. rewrite (bin_pdw_builder_layout np p s Hs Hfit).
  destruct Hfit as (Hop & Hf & Hph & Ht & Hpw & Hm & Hpc & Hrf & Hwi & Hmk).
  eexists. split; [reflexivity|].
  set (f := UXG._freq s) in *.
  set (ph := UXG._phase s) in *.
  set (pw := UXG._power s) in *.
  set (t := UXG._startTimePs s) in *.
  unfold pdw_decode.
  change (2 ^ 1) with 2 in *. change (2 ^ 2) with 4 in *.
  change (2 ^ 3) with 8 in *. change (2 ^ 4) with 16 in *.
  change (2 ^ 5) with 32 in *. change (2 ^ 12) with 4096 in *.
  change (2 ^ 15) with 32768 in *. change (2 ^ 16) with 65536 in *.
  change (2 ^ 20) with 1048576 in *. change (2 ^ 27) with 134217728 in *.
  change (2 ^ 28) with 268435456 in *. change (2 ^ 32) with 4294967296 in *.
  change (2 ^ 47) with 140737488355328 in *.
  change (2 ^ 64) with 18446744073709551616 in *.
  do 2 f_equal; try (Z.div_mod_to_equations; lia).
Qed.

Lemma bin_pdw_builder_decodes_witness :
  exists words,
    UXG.bin_pdw_builder Np.Strict UXG.defaults = Ok words /\
    option_map f_freq (pdw_decode words) = Some 1024000000000.
Proof.
  destruct (bin_pdw_builder_decodes Np.Strict UXG.defaults
              (UXG.Scaled 1024000000000 0 0 28000)) as (words & Hw & Hd).
  - vm_compute. reflexivity.
  - unfold pdw_fits. repeat split; vm_compute; try reflexivity; discriminate.
  - exists words. split; [exact Hw|]. rewrite Hd. reflexivity.
Defined.

Lemma int_error x e :
  Py.int x = Raise e ->
  e = OverflowError "cannot convert float infinity to integer" \/
  e = ValueError "cannot convert float NaN to integer".
Proof. destruct x; intros [= <-]; auto. Qed.

(** X11.  The scaling of the four quantities of a descriptor is done in
    double precision and can fail.  When a scaled quantity is an
    infinity or a NaN, [bin_pdw_builder] raises [OverflowError] or
    [ValueError] before it stores any word: a frequency of 1e306 Hz,
    whose product with 1024 overflows, is an example.  And the integer
    that is stored is the integer part of a rounded value: for a power
    of 23.8375 dBm the quotient rounds to 32767.5, so that 32768 is
    stored where the exact quotient rounds to 32767; for a phase of
    0.04394531249999999 degrees, 1 where the exact value rounds to 0;
    for a start time of 1e-6 s the product rounds to 1000000.0, where
    the exact product is cut to 999999. *)
Theorem bin_pdw_builder_scaling_error :
  (forall np p e,
      UXG.scale p = Raise e ->
      UXG.bin_pdw_builder np p = Raise e /\
      (e = OverflowError "cannot convert float infinity to integer" \/
       e = ValueError "cannot convert float NaN to integer")) /\
  (forall np p,
      UXG.freq p = Float.literal 1e306 ->
      UXG.bin_pdw_builder np p =
        Raise (OverflowError "cannot convert float infinity to integer")) /\
  (forall p, UXG.power p = Float.literal 23.8375 ->
             Py.int (Float.add (Float.div (Float.add (UXG.power p) (Float.of_Z 140))
                                          (Float.literal 0.005))
                               (Float.literal 0.5)) = Ok 32768) /\
  Spec.round ((exact (Float.literal 23.8375) + 140) / 0.005) = 32767 /\
  (forall p, UXG.phase p = Float.literal 0.04394531249999999 ->
             Py.int (Float.add (Float.div (Float.mul (UXG.phase p) (Float.of_Z 4096))
                                          (Float.of_Z 360))
                               (Float.literal 0.5)) = Ok 1) /\
  Spec.round (exact (Float.literal 0.04394531249999999) * 4096 / 360) = 0 /\
  (forall p, UXG.startTimeSec p = Float.literal 1e-6 ->
             Py.int (Float.mul (UXG.startTimeSec p) (Float.literal 1e12)) =
               Ok 1000000) /\
  Float.trunc (exact (Float.literal 1e-6) * 1e12) = 999999.
Proof.
  split; [|split; [|split; [|split; [|split; [|split; [|split]]]]]].
  - intros np p e H. split; [apply bin_pdw_builder_scale_raise, H|].
    unfold UXG.scale in H.
    repeat match type of H with
           | Py.bind (Py.int ?x) _ = _ =>
               let E := fresh "E" in
               destruct (Py.int x) eqn:E; cbn [Py.bind] in H;
               [|injection H as <-; eapply int_error, E]
           end.
    discriminate H.
  - intros np p H. apply bin_pdw_builder_scale_raise. unfold UXG.scale. rewrite H.
    assert (E : Py.int (Float.add (Float.mul (Float.literal 1e306) (Float.of_Z 1024))
                                  (Float.literal 0.5)) =
                Raise (OverflowError "cannot convert float infinity to integer"))
      by (vm_compute; reflexivity).
    rewrite E. reflexivity.
  - intros p ->. vm_compute. reflexivity.
  - vm_compute. reflexivity.
  - intros p ->. vm_compute. reflexivity.
  - vm_compute. reflexivity.
  - intros p ->. vm_compute. reflexivity.
  - vm_compute. reflexivity.
Qed.

Lemma bin_pdw_builder_scaling_error_witness :
  UXG.bin_pdw_builder Np.Strict
    {| UXG.operation := 0; UXG.freq := Float.literal 1e306;
       UXG.phase := Float.of_Z 0; UXG.startTimeSec := Float.of_Z 0;
       UXG.power := Float.of_Z 0;
       UXG.markers := 0; UXG.phaseControl := 0; UXG.rfOff := 0;
       UXG.wIndex := 0; UXG.wfmMkrMask := 0 |}
  = Raise (OverflowError "cannot convert float infinity to integer").
Proof.
  destruct bin_pdw_builder_scaling_error as (_ & H & _).
  apply H. reflexivity.
Defined.

(** ** Reading a PDW file back *)

Lemma setitem_uint32_range np v w :
  Np.setitem_uint32 np v = Ok w -> 0 <= w < 2 ^ 32.
Proof.
  unfold Np.setitem_uint32.
  destruct (Z.leb_spec 0 v); destruct (Z.ltb_spec v (2 ^ 32)); cbn [andb];
    try (intros [= <-]; lia);
    destruct np; try discriminate;
    (destruct (_ && _); [|discriminate]); intros [= <-];
    apply Z.mod_pos_bound; lia.
Qed.

Lemma bin_pdw_builder_range np p rec :
  UXG.bin_pdw_builder np p = Ok rec -> Forall (fun w => 0 <= w < 2 ^ 32) rec.
Proof.
  unfold UXG.bin_pdw_builder. intros H.
  destruct (UXG.scale p) as [s|e]; cbn [Py.bind] in H; [|discriminate].
  repeat match type of H with
         | Py.bind ?r _ = _ =>
             let E := fresh "E" in
             destruct r eqn:E; cbn [Py.bind] in H;
             [apply setitem_uint32_range in E | discriminate]
         end.
  injection H as <-. repeat (constructor; [assumption|]). constructor.
Qed.

Lemma byte_of_Z_value z : Z.of_N (Byte.to_N (Py.byte_of_Z z)) = z mod 256.
Proof.
  unfold Py.byte_of_Z. pose proof (Z.mod_pos_bound z 256 eq_refl) as Hb.
  destruct (Byte.of_N (Z.to_N (z mod 256))) as [b|] eqn:E.
  - apply Byte.to_of_N in E. rewrite E. apply Z2N.id. lia.
  - apply Byte.of_N_None_iff in E. lia.
Qed.

Lemma le_combine_le_bytes_4 w :
  0 <= w < 2 ^ 32 -> le_combine (Py.le_bytes 4 w) = w.
Proof.
  intros Hw. cbn [Py.le_bytes le_combine]. rewrite !byte_of_Z_value.
  rewrite !Z.shiftr_div_pow2 by lia. change (2 ^ 8) with 256.
  change (2 ^ 32) with 4294967296 in Hw. Z.div_mod_to_equations. lia.
Qed.

Lemma words_of_bytes_tobytes ws :
  Forall (fun w => 0 <= w < 2 ^ 32) ws ->
  words_of_bytes (Np.tobytes_uint32 ws) = ws.
Proof.
  unfold Np.tobytes_uint32. induction 1 as [|w ws Hw _ IH]; [reflexivity|].
  cbn [map concat]. pose proof (le_combine_le_bytes_4 w Hw) as E.
  cbn [Py.le_bytes app] in *. cbn [words_of_bytes]. rewrite E, IH. reflexivity.
Qed.

Lemma tobytes_uint32_app a b :
  Np.tobytes_uint32 (a ++ b) = (Np.tobytes_uint32 a ++ Np.tobytes_uint32 b)%list.
Proof. unfold Np.tobytes_uint32. rewrite map_app, concat_app. reflexivity. Qed.

Lemma tobytes_uint32_concat recs :
  concat (map Np.tobytes_uint32 recs) = Np.tobytes_uint32 (concat recs).
Proof.
  induction recs as [|r recs IH]; [reflexivity|].
  cbn [map concat]. rewrite tobytes_uint32_app, IH. reflexivity.
Qed.

(** Records of 24 bytes each: the record [k] starts [24 * k] bytes in. *)
Lemma drop_records recs k r :
  Forall (fun r => length r = 6%nat) recs ->
  recs !! k = Some r ->
  take 24 (drop (24 * k) (concat (map Np.tobytes_uint32 recs))) =
    Np.tobytes_uint32 r.
Proof.
  intros Hall. revert k. induction Hall as [|r0 recs Hr0 _ IH]; intros k Hk.
  - rewrite lookup_nil in Hk. discriminate.
  - assert (H24 : length (Np.tobytes_uint32 r0) = 24%nat)
      by (rewrite length_tobytes_uint32, Hr0; reflexivity).
    cbn [map concat]. destruct k as [|k]; cbn [lookup list_lookup] in Hk.
    + injection Hk as <-. change (24 * 0)%nat with 0%nat. rewrite drop_0.
      rewrite <- H24. apply take_app_length.
    + replace (24 * S k)%nat with (length (Np.tobytes_uint32 r0) + 24 * k)%nat
        by lia.
      rewrite drop_app_add. apply IH, Hk.
Qed.

(** X12.  The file that [bin_pdw_file_builder] returns, for a list of
    any length (the empty list included): the 4096-byte preamble, then
    one 24-byte record per descriptor, record [k] at byte offset
    [4096 + 24 * k]; read as little-endian 32-bit words, the bytes
    after the preamble are the words of the records, in order.  The
    same bytes are stored under the output path.  A call that raises
    leaves the file system as it was. *)
Theorem bin_pdw_file_builder_records :
  forall np fs pdwList,
    (forall fs' file,
        UXG.bin_pdw_file_builder np fs pdwList = (fs', Ok file) ->
        exists pre recs,
          UXG.preamble = Ok pre /\
          Forall2 (fun p r => UXG.bin_pdw_builder np p = Ok r) pdwList recs /\
          file = (pre ++ concat (map Np.tobytes_uint32 recs))%list /\
          length file = (4096 + 24 * length pdwList)%nat /\
          (forall k r, recs !! k = Some r ->
                       take 24 (drop (4096 + 24 * k) file) = Np.tobytes_uint32 r) /\
          words_of_bytes (drop 4096 file) = concat recs /\
          UXG.files fs' !! UXG.pdwtest_path = Some file) /\
    (forall fs' e,
        UXG.bin_pdw_file_builder np fs pdwList = (fs', Raise e) -> fs' = fs).
Proof.
  intros np fs pdwList.
  destruct preamble_ok as (pre & Hpre & Hlen).
  pose proof (bin_pdw_file_builder_unfold np fs pdwList) as Hsnd.
  rewrite Hpre in Hsnd. cbn [Py.bind] in Hsnd.
  assert (Hfs : forall fs' r,
             UXG.bin_pdw_file_builder np fs pdwList = (fs', r) ->
             match r with
             | Ok file => UXG.files fs' !! UXG.pdwtest_path = Some file
             | Raise _ => fs' = fs
             end).
  { unfold UXG.bin_pdw_file_builder. intros fs' r.
    destruct (Py.bind UXG.header _) as [f|e]; [|intros [= <- <-]; reflexivity].
    unfold UXG.write_file. destruct (UXG.writable fs UXG.pdwtest_path).
    - intros [= <- <-]. cbn [UXG.files]. apply lookup_insert_eq.
    - intros [= <- <-]. reflexivity. }
  split.
  - intros fs' file H. pose proof (Hfs _ _ H) as Hstored.
    rewrite H in Hsnd. cbn [snd] in Hsnd. clear H Hfs.
    destruct (Py.comprehension _ pdwList) as [recs|e] eqn:Hrecs;
      cbn [Py.bind] in Hsnd; [|discriminate].
    destruct (snd (UXG.write_file fs _ _)); cbn [Py.bind] in Hsnd; [|discriminate].
    injection Hsnd as ->.
    pose proof (comprehension_inv _ _ _ Hrecs) as Hall.
    assert (H6 : Forall (fun r => length r = 6%nat) recs).
    { clear -Hall. induction Hall as [|p r ps rs Hr _ IH]; constructor; auto.
      eapply bin_pdw_builder_length, Hr. }
    assert (Hrange : Forall (fun w => 0 <= w < 2 ^ 32) (concat recs)).
    { clear -Hall. induction Hall as [|p r ps rs Hr _ IH]; [constructor|].
      cbn [concat]. apply Forall_app. split; [|exact IH].
      eapply bin_pdw_builder_range, Hr. }
    exists pre, recs. split; [exact Hpre|]. split; [exact Hall|].
    split; [reflexivity|]. split; [|split; [|split; [|exact Hstored]]].
    + rewrite length_app, Hlen. f_equal.
      rewrite (Forall2_length _ _ _ Hall).
      clear -H6. induction H6 as [|r rs Hr _ IH]; [reflexivity|].
      cbn [map concat length]. rewrite length_app, length_tobytes_uint32, Hr, IH.
      lia.
    + intros k r Hk. rewrite <- Hlen at 1. rewrite <- drop_drop, drop_app_length.
      apply drop_records; assumption.
    + rewrite <- Hlen, drop_app_length, tobytes_uint32_concat.
      apply words_of_bytes_tobytes, Hrange.
  - intros fs' e H. exact (Hfs _ _ H).
Qed.

Lemma bin_pdw_file_builder_records_witness :
  exists file,
    snd (UXG.bin_pdw_file_builder Np.Strict
           {| UXG.writable := fun _ => true; UXG.files := ∅ |} []) = Ok file /\
    length file = 4096%nat.
Proof.
  destruct (bin_pdw_file_builder_records Np.Strict
              {| UXG.writable := fun _ => true; UXG.files := ∅ |} []) as [H _].
  destruct (UXG.bin_pdw_file_builder Np.Strict _ []) as [fs' [file|e]] eqn:E.
  - exists file. split; [reflexivity|].
    destruct (H fs' file eq_refl) as (pre & recs & _ & _ & _ & Hl & _). exact Hl.
  - exfalso. vm_compute in E. discriminate E.
Defined.

(** ** Edge cases of the Barker generator *)

Lemma length_concat_repeat (n : nat) (chips : list Z) :
  length (concat (map (fun p => repeat p n) chips)) = (length chips * n)%nat.
Proof.
  induction chips as [|p chips IH]; [reflexivity|].
  cbn [map concat length]. rewrite length_app, repeat_length, IH. lia.
Qed.

Lemma map_removelast {A B : Type} (f : A -> B) (l : list A) :
  map f (removelast l) = removelast (map f l).
Proof.
  induction l as [|a [|b l] IH]; [reflexivity | reflexivity |].
  cbn [removelast map] in *. rewrite IH. reflexivity.
Qed.

(** The length of a code of the catalog is no zero divisor, so that
    the sample count fails only in the conversion to an integer. *)
Lemma codeSamples_error len fs code chips e :
  barkerCodes !! code = Some chips ->
  codeSamples len fs chips = Raise e ->
  e = OverflowError "cannot convert float infinity to integer" \/
  e = ValueError "cannot convert float NaN to integer".
Proof.
  intros Hcode. destruct (barkerCodes_catalog _ _ Hcode) as (_ & _ & Hlen).
  unfold codeSamples, Py.truediv.
  assert (E : Float.is_zero (Float.of_Z (Z.of_nat (length chips))) = false).
  { rewrite !elem_of_cons, elem_of_nil in Hlen.
    destruct Hlen as [->|[->|[->|[->|[->|[->|[->|[]]]]]]]]; vm_compute; reflexivity. }
  rewrite E. cbn [Py.bind]. apply int_error.
Qed.

(** X13.  [barker_generator] at the edges of its sample count
    [n = int(length / len(code) * fs)], for a code of the catalog.
    When the product is an infinity or a NaN the conversion raises
    [OverflowError] or [ValueError].  A negative [n] raises
    [ValueError].  With [n = 0] the result is a pair of empty arrays,
    and asking for [zeroLast] then raises [IndexError].  With [n > 0]
    the result has [len(code) * n] samples, and [zeroLast] replaces the
    last sample of I and of Q by 0 and changes nothing else.  The count
    is taken from the rounded product: the 2-chip code with
    [length = 2e-6] and [fs = 1e6] has one sample per chip, and with
    [length = 1e-6] and [fs = 1e9] it has 500, where the exact
    products of these two floats are cut to 0 and to 499. *)
Theorem barker_generator_edges :
  forall (cos sin : Float.t -> Float.t) code chips len fs,
    barkerCodes !! code = Some chips ->
    (forall e,
        codeSamples len fs chips = Raise e ->
        (forall zeroLast,
            barker_generator cos sin len fs code zeroLast = Raise e) /\
        (e = OverflowError "cannot convert float infinity to integer" \/
         e = ValueError "cannot convert float NaN to integer")) /\
    (forall n,
        codeSamples len fs chips = Ok n ->
        (n < 0 ->
         forall zeroLast,
           barker_generator cos sin len fs code zeroLast =
             Raise (ValueError "negative dimensions are not allowed")) /\
        (n = 0 ->
         barker_generator cos sin len fs code false = Ok ([], []) /\
         barker_generator cos sin len fs code true =
           Raise (IndexError "index -1 is out of bounds for axis 0 with size 0")) /\
        (0 < n ->
         exists I Q,
           barker_generator cos sin len fs code false = Ok (I, Q) /\
           length I = (length chips * Z.to_nat n)%nat /\
           length Q = length I /\
           barker_generator cos sin len fs code true =
             Ok ((removelast I ++ [Float.of_Z 0])%list,
                 (removelast Q ++ [Float.of_Z 0])%list))) /\
    codeSamples (Float.literal 2e-6) (Float.literal 1e6) [1; -1] = Ok 1 /\
    Float.trunc (exact (Float.literal 2e-6) / 2 * 1e6) = 0 /\
    codeSamples (Float.literal 1e-6) (Float.literal 1e9) [1; -1] = Ok 500 /\
    Float.trunc (exact (Float.literal 1e-6) / 2 * 1e9) = 499.
Proof.
  intros cos sin code chips len fs Hcode.
  destruct (barkerCodes_catalog _ _ Hcode) as (_ & _ & Hlen).
  split; [|split; [|vm_compute; repeat split; reflexivity]].
  { intros e He. split; [|eapply codeSamples_error; eassumption].
    intros zeroLast. unfold barker_generator, barker_array.
    rewrite Hcode, He. reflexivity. }
  intros n Hcs.
  unfold barker_generator, barker_array. rewrite Hcode, Hcs. cbn [Py.bind].
  split; [|split].
  - intros Hn zeroLast. destruct chips as [|p chips].
    + rewrite !elem_of_cons, elem_of_nil in Hlen. cbn [length] in Hlen. lia.
    + cbn [barker_loop]. unfold np_full.
      destruct (Z.ltb_spec n 0); [reflexivity | lia].
  - intros Hn. rewrite barker_loop_ok by lia. rewrite Hn. cbn [Py.bind app].
    assert (E : concat (map (fun p : Z => repeat p (Z.to_nat 0)) chips) = []).
    { apply length_zero_iff_nil. rewrite length_concat_repeat. cbn. lia. }
    rewrite E. split; reflexivity.
  - intros Hn. rewrite barker_loop_ok by lia. cbn [Py.bind app].
    set (barker := concat (map (fun p : Z => repeat p (Z.to_nat n)) chips)).
    set (iq := map (exp_j cos sin) (barker_mod barker)).
    assert (Hiq : length iq = (length chips * Z.to_nat n)%nat).
    { subst iq barker. unfold barker_mod.
      rewrite !length_map. apply length_concat_repeat. }
    exists (map fst iq), (map snd iq). rewrite !length_map.
    split; [reflexivity|]. split; [exact Hiq|]. split; [reflexivity|].
    unfold zero_last. destruct iq as [|s iq'] eqn:Eiq.
    + exfalso. cbn [length] in Hiq.
      assert (0 < length chips)%nat
        by (rewrite !elem_of_cons, elem_of_nil in Hlen; lia).
      nia.
    + cbn [Py.bind]. rewrite !map_app, !map_removelast. reflexivity.
Qed.

Lemma barker_generator_edges_witness :
  barker_generator (fun _ => Float.Finite 0) (fun phi => phi)
    (Float.literal 1e-9) (Float.literal 1e6) "b13" false = Ok ([], []) /\
  is_raise (barker_generator (fun _ => Float.Finite 0) (fun phi => phi)
              (Float.literal 1e-9) (Float.literal 1e6) "b13" true).
Proof.
  destruct (barker_generator_edges (fun _ => Float.Finite 0) (fun phi => phi)
              "b13" [1; 1; 1; 1; 1; -1; -1; 1; 1; -1; 1; -1; 1]
              (Float.literal 1e-9) (Float.literal 1e6) eq_refl) as (_ & H & _).
  destruct (H 0) as (_ & H0 & _); [vm_compute; reflexivity|].
  destruct H0 as [Hf Ht]; [reflexivity|].
  split; [exact Hf|]. rewrite Ht. exact I.
Defined.

(** ** Symbols and bits *)

Lemma to_int_not_nil z :
  Z.to_int z <> Decimal.Pos Decimal.Nil /\ Z.to_int z <> Decimal.Neg Decimal.Nil.
Proof.
  destruct z as [|p|p]; cbn [Z.to_int]; split; try discriminate;
    intros [= H]; exact (Unsigned.to_uint_nonnil p H).
Qed.

Lemma int_of_string_str z :
  NilZero.int_of_string (Py.str z) = Some (Z.to_int z).
Proof.
  unfold Py.str. destruct (to_int_not_nil z). apply NilZero.isi; assumption.
Qed.

Lemma str_inj a b : Py.str a = Py.str b -> a = b.
Proof.
  intros H. apply DecimalZ.to_int_inj.
  pose proof (int_of_string_str a) as Ha. rewrite H, int_of_string_str in Ha.
  congruence.
Qed.

Lemma str_nonempty z : Py.str z <> "".
Proof.
  intros H. pose proof (int_of_string_str z) as Hz. rewrite H in Hz. discriminate.
Qed.

Lemma str_bit z c :
  Py.str z = String c "" -> c = "0"%char \/ c = "1"%char -> z = 0 \/ z = 1.
Proof.
  intros H [-> | ->]; [left; apply str_inj | right; apply str_inj]; exact H.
Qed.

Lemma length_string_app (a b : string) :
  String.length (a +:+ b) = (String.length a + String.length b)%nat.
Proof.
  induction a as [|c a IH]; [reflexivity|].
  simpl. rewrite IH. reflexivity.
Qed.

Lemma length_str z : (1 <= String.length (Py.str z))%nat.
Proof.
  pose proof (str_nonempty z). destruct (Py.str z); [contradiction | cbn; lia].
Qed.

Lemma string_length_1 (t : string) :
  String.length t = 1%nat -> exists c, t = String c "".
Proof. destruct t as [|c [|c' t]]; try discriminate. eauto. Qed.

Lemma map_symbols_error m pattern msg e :
  map_symbols m pattern msg = Raise e -> e = ValueError msg.
Proof.
  unfold map_symbols.
  assert (H : forall e', Py.comprehension
                 (fun p => match m !! p with
                           | Some c => Ok c
                           | None => Raise (KeyError p)
                           end) pattern = Raise e' -> exists k, e' = KeyError k).
  { induction pattern as [|p ps IH]; cbn [Py.comprehension]; [discriminate|].
    intros e'. destruct (m !! p); cbn [Py.bind]; [|intros [= <-]; eauto].
    destruct (Py.comprehension _ ps) as [bs|e'']; cbn [Py.bind]; [discriminate|].
    intros [= <-]. apply IH. reflexivity. }
  destruct (Py.comprehension _ pattern) as [bs|e']; [discriminate|].
  destruct (H e' eq_refl) as [k ->]. congruence.
Qed.

Lemma map_symbols_cons m p ps msg :
  map_symbols m (p :: ps) msg =
    match m !! p with
    | Some c => match map_symbols m ps msg with
                | Ok cs => Ok (c :: cs)
                | Raise e => Raise e
                end
    | None => Raise (ValueError msg)
    end.
Proof.
  destruct (map_symbols m ps msg) as [cs|e] eqn:Hps.
  - unfold map_symbols in *. cbn [Py.comprehension].
    destruct (m !! p); [|reflexivity]. cbn [Py.bind].
    destruct (Py.comprehension _ ps) as [bs|e]; [|destruct e; discriminate].
    injection Hps as <-. reflexivity.
  - pose proof (map_symbols_error _ _ _ _ Hps) as ->.
    unfold map_symbols in *. cbn [Py.comprehension].
    destruct (m !! p); [|reflexivity]. cbn [Py.bind].
    destruct (Py.comprehension _ ps) as [bs|e]; [discriminate|].
    cbn [Py.bind]. exact Hps.
Qed.

Lemma map_symbols_app m a b msg :
  map_symbols m (a ++ b) msg =
    (sa <- map_symbols m a msg ;; sb <- map_symbols m b msg ;; Ok (sa ++ sb)%list).
Proof.
  induction a as [|p a IH].
  - cbn [app]. change (map_symbols m [] msg) with (@Ok (list complex) []).
    cbn [Py.bind]. destruct (map_symbols m b msg); reflexivity.
  - cbn [app]. rewrite !map_symbols_cons, IH.
    destruct (m !! p); [|reflexivity].
    destruct (map_symbols m a msg); cbn [Py.bind]; [|reflexivity].
    destruct (map_symbols m b msg); reflexivity.
Qed.

Lemma map_symbols_ok_iff m pattern msg :
  is_ok (map_symbols m pattern msg) <-> Forall (fun p => is_Some (m !! p)) pattern.
Proof.
  induction pattern as [|p ps IH].
  - split; [constructor | intros _; exact I].
  - rewrite map_symbols_cons, Forall_cons, <- IH.
    destruct (m !! p) as [c|].
    + destruct (map_symbols m ps msg); cbn [is_ok];
        split; [intros _; split; [eauto | exact I] | intros _; exact I
               | contradiction | intros [_ []]].
    + cbn [is_ok]. split; [contradiction | intros [[c Hc] _]; discriminate].
Qed.

Lemma mod_chunk k n : (0 < k)%nat -> ((k + n) mod k = n mod k)%nat.
Proof.
  intros Hk. replace (k + n)%nat with (n + 1 * k)%nat by lia.
  apply Nat.Div0.mod_add.
Qed.

Lemma short_multiple k n : (n < k)%nat -> (n mod k = 0)%nat -> n = 0%nat.
Proof. intros Hlt Hmod. rewrite Nat.mod_small in Hmod by assumption. exact Hmod. Qed.

Lemma qpsk_pattern_short l : (length l < 2)%nat -> qpsk_pattern l = [].
Proof. destruct l as [|? [|? ?]]; cbn [length]; intros; [reflexivity.. | lia]. Qed.

Lemma psk8_pattern_short l : (length l < 3)%nat -> psk8_pattern l = [].
Proof. destruct l as [|? [|? [|? ?]]]; cbn [length]; intros; [reflexivity.. | lia]. Qed.

Lemma qam16_pattern_short l : (length l < 4)%nat -> qam16_pattern l = [].
Proof.
  destruct l as [|? [|? [|? [|? ?]]]]; cbn [length]; intros; [reflexivity.. | lia].
Qed.

Lemma qam32_pattern_short l : (length l < 5)%nat -> qam32_pattern l = [].
Proof.
  destruct l as [|? [|? [|? [|? [|? ?]]]]]; cbn [length]; intros;
    [reflexivity.. | lia].
Qed.

Ltac pattern_app_by short cons k :=
  intros a b; pattern a; apply (list_chunk_ind k); clear a;
  [ lia
  | intros l Hl Hmod;
    rewrite (nil_length_inv l (short_multiple _ _ Hl Hmod)); reflexivity
  | intros pre l Hpre IH Hmod;
    rewrite length_app, Hpre, mod_chunk in Hmod by lia;
    repeat (destruct pre as [|? pre]; try discriminate Hpre);
    cbn [app]; rewrite !cons, (IH Hmod); reflexivity ].

Lemma qpsk_pattern_app :
  forall a b, (length a mod 2 = 0)%nat ->
              qpsk_pattern (a ++ b) = (qpsk_pattern a ++ qpsk_pattern b)%list.
Proof. pattern_app_by qpsk_pattern_short qpsk_pattern_cons 2%nat. Qed.

Lemma psk8_pattern_app :
  forall a b, (length a mod 3 = 0)%nat ->
              psk8_pattern (a ++ b) = (psk8_pattern a ++ psk8_pattern b)%list.
Proof. pattern_app_by psk8_pattern_short psk8_pattern_cons 3%nat. Qed.

Lemma qam16_pattern_app :
  forall a b, (length a mod 4 = 0)%nat ->
              qam16_pattern (a ++ b) = (qam16_pattern a ++ qam16_pattern b)%list.
Proof. pattern_app_by qam16_pattern_short qam16_pattern_cons 4%nat. Qed.

Lemma qam32_pattern_app :
  forall a b, (length a mod 5 = 0)%nat ->
              qam32_pattern (a ++ b) = (qam32_pattern a ++ qam32_pattern b)%list.
Proof. pattern_app_by qam32_pattern_short qam32_pattern_cons 5%nat. Qed.

(** X14.  The multi-bit modulators work group by group: when the first
    of two bit lists holds complete groups only, modulating their
    concatenation gives the symbols of the first followed by the
    symbols of the second, and raises what the first of them raises;
    this holds for the default and for any caller's map. *)
Theorem modulators_concatenate :
  forall customMap a b,
    ((length a mod 2 = 0)%nat ->
     qpsk_modulator (a ++ b) customMap =
       (sa <- qpsk_modulator a customMap ;;
        sb <- qpsk_modulator b customMap ;; Ok (sa ++ sb)%list)) /\
    ((length a mod 3 = 0)%nat ->
     psk8_modulator (a ++ b) customMap =
       (sa <- psk8_modulator a customMap ;;
        sb <- psk8_modulator b customMap ;; Ok (sa ++ sb)%list)) /\
    ((length a mod 4 = 0)%nat ->
     qam16_modulator (a ++ b) customMap =
       (sa <- qam16_modulator a customMap ;;
        sb <- qam16_modulator b customMap ;; Ok (sa ++ sb)%list)) /\
    ((length a mod 5 = 0)%nat ->
     qam32_modulator (a ++ b) customMap =
       (sa <- qam32_modulator a customMap ;;
        sb <- qam32_modulator b customMap ;; Ok (sa ++ sb)%list)).
Proof.
  intros customMap a b.
  unfold qpsk_modulator, psk8_modulator, qam16_modulator, qam32_modulator.
  split; [|split; [|split]]; intros H.
  - rewrite qpsk_pattern_app by assumption. apply map_symbols_app.
  - rewrite psk8_pattern_app by assumption. apply map_symbols_app.
  - rewrite qam16_pattern_app by assumption. apply map_symbols_app.
  - rewrite qam32_pattern_app by assumption. apply map_symbols_app.
Qed.

Lemma modulators_concatenate_witness :
  qam16_modulator ([0; 0; 0; 1] ++ [1; 1; 1; 1]) None =
    Ok [Complex (-3) (-1); Complex 1 1].
Proof.
  destruct (modulators_concatenate None [0; 0; 0; 1] [1; 1; 1; 1]) as (_ & _ & H & _).
  rewrite H by reflexivity. vm_compute. reflexivity.
Defined.

(** X15.  What follows the last complete group is never looked at: for
    any map, appending fewer elements than a group holds, whatever
    they are (bits or not), changes neither the symbols returned nor
    the error raised. *)
Theorem modulators_ignore_incomplete_group :
  forall customMap data tail,
    ((length data mod 2 = 0)%nat -> (length tail < 2)%nat ->
     qpsk_modulator (data ++ tail) customMap = qpsk_modulator data customMap) /\
    ((length data mod 3 = 0)%nat -> (length tail < 3)%nat ->
     psk8_modulator (data ++ tail) customMap = psk8_modulator data customMap) /\
    ((length data mod 4 = 0)%nat -> (length tail < 4)%nat ->
     qam16_modulator (data ++ tail) customMap = qam16_modulator data customMap) /\
    ((length data mod 5 = 0)%nat -> (length tail < 5)%nat ->
     qam32_modulator (data ++ tail) customMap = qam32_modulator data customMap).
Proof.
  intros customMap data tail.
  unfold qpsk_modulator, psk8_modulator, qam16_modulator, qam32_modulator.
  split; [|split; [|split]]; intros H Ht.
  - rewrite qpsk_pattern_app, (qpsk_pattern_short tail), app_nil_r by assumption.
    reflexivity.
  - rewrite psk8_pattern_app, (psk8_pattern_short tail), app_nil_r by assumption.
    reflexivity.
  - rewrite qam16_pattern_app, (qam16_pattern_short tail), app_nil_r by assumption.
    reflexivity.
  - rewrite qam32_pattern_app, (qam32_pattern_short tail), app_nil_r by assumption.
    reflexivity.
Qed.

Lemma modulators_ignore_incomplete_group_witness :
  qam16_modulator ([0; 0; 0; 1] ++ [7; -2; 9]) None = Ok [Complex (-3) (-1)].
Proof.
  destruct (modulators_ignore_incomplete_group None [0; 0; 0; 1] [7; -2; 9])
    as (_ & _ & H & _).
  rewrite H; [vm_compute; reflexivity | reflexivity | cbn; lia].
Defined.

(** A key made of [str] images that equals a pattern of as many
    characters: every image is a single character. *)
Ltac single_chars K :=
  let L := fresh "L" in
  pose proof (f_equal String.length K) as L;
  rewrite ?length_string_app in L; cbn [String.length] in L;
  repeat match type of K with
         | context [Py.str ?d] =>
             let c := fresh "c" in
             let Hc := fresh "Hc" in
             let H1 := fresh "H1" in
             assert (H1 : String.length (Py.str d) = 1%nat)
               by (repeat match goal with
                          | H : context [String.length (Py.str ?e)] |- _ =>
                              lazymatch goal with
                              | _ : (1 <= String.length (Py.str e))%nat |- _ => fail
                              | _ => pose proof (length_str e)
                              end
                          end; lia);
             destruct (string_length_1 _ H1) as [c Hc];
             rewrite Hc in K, L; cbn [String.length] in L; clear H1
         end;
  cbn [String.append] in K; injection K as K; subst;
  unfold Spec.bits;
  repeat (constructor; [eapply str_bit; [eassumption | auto]|]); constructor.

Lemma bpsk_key d :
  is_Some (bpsk_default_map !! Py.str d) <-> Spec.bits [d].
Proof.
  split.
  - intros [c Hc]. apply elem_of_list_to_map_2 in Hc.
    repeat (apply elem_of_cons in Hc as [Hc|Hc];
            [injection Hc as K _; single_chars K|]).
    apply elem_of_nil in Hc. contradiction.
  - intros H. split_bits; mapped_by_lookup.
Qed.

Lemma qpsk_key d0 d1 :
  is_Some (qpsk_default_map !! (Py.str d0 +:+ Py.str d1)) <-> Spec.bits [d0; d1].
Proof.
  split.
  - intros [c Hc]. apply elem_of_list_to_map_2 in Hc.
    repeat (apply elem_of_cons in Hc as [Hc|Hc];
            [injection Hc as K _; single_chars K|]).
    apply elem_of_nil in Hc. contradiction.
  - intros H. split_bits; mapped_by_lookup.
Qed.

Lemma psk8_key d0 d1 d2 :
  is_Some (psk8_default_map !! (Py.str d0 +:+ Py.str d1 +:+ Py.str d2)) <->
  Spec.bits [d0; d1; d2].
Proof.
  split.
  - intros [c Hc]. apply elem_of_list_to_map_2 in Hc.
    repeat (apply elem_of_cons in Hc as [Hc|Hc];
            [injection Hc as K _; single_chars K|]).
    apply elem_of_nil in Hc. contradiction.
  - intros H. split_bits; mapped_by_lookup.
Qed.

Lemma qam16_key d0 d1 d2 d3 :
  is_Some (qam16_default_map !!
             (Py.str d0 +:+ Py.str d1 +:+ Py.str d2 +:+ Py.str d3)) <->
  Spec.bits [d0; d1; d2; d3].
Proof.
  split.
  - intros [c Hc]. apply qam16_lookup_items in Hc. unfold qam16_items in Hc.
    repeat (apply elem_of_cons in Hc as [Hc|Hc];
            [injection Hc as K _; single_chars K|]).
    apply elem_of_nil in Hc. contradiction.
  - intros H. split_bits; mapped_by_lookup.
Qed.

Lemma take_complete_groups {A : Type} k (pre l : list A) :
  (0 < k)%nat -> length pre = k ->
  take (k * (length (pre ++ l) / k)) (pre ++ l) =
    (pre ++ take (k * (length l / k)) l)%list.
Proof.
  intros Hk Hpre. rewrite length_app, Hpre, div_chunk by assumption.
  rewrite Nat.mul_succ_r, (Nat.add_comm _ k).
  apply take_app_add'. symmetry. exact Hpre.
Qed.

Lemma bits_app a b : Spec.bits (a ++ b) <-> Spec.bits a /\ Spec.bits b.
Proof. apply Forall_app. Qed.

Lemma bpsk_pattern_mapped data :
  Forall (fun p => is_Some (bpsk_default_map !! p)) (bpsk_pattern data) <->
  Spec.bits data.
Proof.
  unfold bpsk_pattern. induction data as [|d data IH].
  - split; constructor.
  - cbn [map]. rewrite Forall_cons, bpsk_key, IH.
    symmetry. apply (bits_app [d] data).
Qed.

Lemma qpsk_pattern_mapped data :
  Forall (fun p => is_Some (qpsk_default_map !! p)) (qpsk_pattern data) <->
  Spec.bits (take (2 * (length data / 2)) data).
Proof.
  pattern data. apply (list_chunk_ind 2); clear data;
    [lia | intros l Hl | intros pre l Hpre IH].
  - rewrite qpsk_pattern_short, Nat.div_small, Nat.mul_0_r, take_0 by assumption.
    split; constructor.
  - rewrite take_complete_groups, bits_app, <- IH by (assumption || lia).
    destruct pre as [|d0 [|d1 [|? ?]]]; try discriminate Hpre.
    cbn [app]. rewrite qpsk_pattern_cons, Forall_cons, qpsk_key. reflexivity.
Qed.

Lemma psk8_pattern_mapped data :
  Forall (fun p => is_Some (psk8_default_map !! p)) (psk8_pattern data) <->
  Spec.bits (take (3 * (length data / 3)) data).
Proof.
  pattern data. apply (list_chunk_ind 3); clear data;
    [lia | intros l Hl | intros pre l Hpre IH].
  - rewrite psk8_pattern_short, Nat.div_small, Nat.mul_0_r, take_0 by assumption.
    split; constructor.
  - rewrite take_complete_groups, bits_app, <- IH by (assumption || lia).
    destruct pre as [|d0 [|d1 [|d2 [|? ?]]]]; try discriminate Hpre.
    cbn [app]. rewrite psk8_pattern_cons, Forall_cons, psk8_key. reflexivity.
Qed.

Lemma qam16_pattern_mapped data :
  Forall (fun p => is_Some (qam16_default_map !! p)) (qam16_pattern data) <->
  Spec.bits (take (4 * (length data / 4)) data).
Proof.
  pattern data. apply (list_chunk_ind 4); clear data;
    [lia | intros l Hl | intros pre l Hpre IH].
  - rewrite qam16_pattern_short, Nat.div_small, Nat.mul_0_r, take_0 by assumption.
    split; constructor.
  - rewrite take_complete_groups, bits_app, <- IH by (assumption || lia).
    destruct pre as [|d0 [|d1 [|d2 [|d3 [|? ?]]]]]; try discriminate Hpre.
    cbn [app]. rewrite qam16_pattern_cons, Forall_cons, qam16_key. reflexivity.
Qed.

(** X16.  With their default maps the modulators accept exactly the
    lists whose complete groups hold only the integers 0 and 1:
    [bpsk_modulator] succeeds exactly on lists of bits, and
    [qpsk_modulator], [psk8_modulator] and [qam16_modulator] exactly
    when the first [k * (len(data) // k)] elements are bits
    ([k = 2, 3, 4]).  Any other list raises [ValueError] with the
    message of the modulator, never a [KeyError]. *)
Theorem modulators_accept_exactly_bits :
  forall data,
    (is_ok (bpsk_modulator data None) <-> Spec.bits data) /\
    (is_ok (qpsk_modulator data None) <->
     Spec.bits (take (2 * (length data / 2)) data)) /\
    (is_ok (psk8_modulator data None) <->
     Spec.bits (take (3 * (length data / 3)) data)) /\
    (is_ok (qam16_modulator data None) <->
     Spec.bits (take (4 * (length data / 4)) data)) /\
    (forall e,
        (bpsk_modulator data None = Raise e ->
         e = ValueError "Invalid BPSK symbol value.") /\
        (qpsk_modulator data None = Raise e ->
         e = ValueError "Invalid QPSK symbol.") /\
        (psk8_modulator data None = Raise e ->
         e = ValueError "Invalid 8PSK symbol.") /\
        (qam16_modulator data None = Raise e ->
         e = ValueError "Invalid 16 QAM symbol.")).
Proof.
  intros data.
  unfold bpsk_modulator, qpsk_modulator, psk8_modulator, qam16_modulator.
  cbn [choose_map]. rewrite !map_symbols_ok_iff.
  split; [apply bpsk_pattern_mapped|].
  split; [apply qpsk_pattern_mapped|].
  split; [apply psk8_pattern_mapped|].
  split; [apply qam16_pattern_mapped|].
  intros e. repeat split; apply map_symbols_error.
Qed.

Lemma modulators_accept_exactly_bits_witness :
  is_ok (qam16_modulator [1; 0; 1; 1; 5] None) /\
  is_raise (bpsk_modulator [0; 2] None).
Proof.
  destruct (modulators_accept_exactly_bits [1; 0; 1; 1; 5]) as (_ & _ & _ & H16 & _).
  destruct (modulators_accept_exactly_bits [0; 2]) as (Hb & _).
  split.
  - apply H16. change (Spec.bits [1; 0; 1; 1]). unfold Spec.bits.
    repeat (constructor; [lia|]). constructor.
  - destruct (bpsk_modulator [0; 2] None) eqn:E; [|exact I].
    assert (Hbits : Spec.bits [0; 2]) by (apply Hb; exact I).
    apply Forall_cons in Hbits as [_ Hbits]. apply Forall_cons in Hbits as [[H|H] _];
      discriminate H.
Defined.

(** ** The symbols of the PRBS generator *)

Lemma length_np_tile {A : Type} (temp : list A) r :
  length (np_tile temp r) = (r * length temp)%nat.
Proof.
  unfold np_tile. induction r as [|r IH]; [reflexivity|].
  cbn [repeat concat]. rewrite length_app, IH. lia.
Qed.

Lemma np_tile_1 {A : Type} (temp : list A) : np_tile temp 1 = temp.
Proof. unfold np_tile. cbn. apply app_nil_r. Qed.

Lemma bits_np_tile temp r : Spec.bits temp -> Spec.bits (np_tile temp r).
Proof.
  intros H. unfold np_tile. induction r as [|r IH]; [constructor|].
  cbn [repeat concat]. apply Forall_app. auto.
Qed.

(** The loop from a state reached by running its body [c] times. *)
Lemma tile_loop_from temp k r :
  ((r * length temp) mod k = 0)%nat ->
  (forall j, (1 <= j < r)%nat -> ((j * length temp) mod k <> 0)%nat) ->
  forall fuel c,
    (1 <= c <= r)%nat -> (r - c < fuel)%nat ->
    tile_loop fuel temp (np_tile temp c) (S c) k = Some (np_tile temp r).
Proof.
  intros Hr Hleast. induction fuel as [|fuel IH]; intros c Hc Hfuel; [lia|].
  cbn [tile_loop]. rewrite length_np_tile.
  destruct (Nat.eqb_spec ((c * length temp) mod k) 0) as [E|E].
  - destruct (Nat.eq_dec c r) as [->|Hne]; [reflexivity|].
    exfalso. apply (Hleast c); [lia | exact E].
  - destruct (Nat.eq_dec c r) as [->|Hne]; [contradiction|].
    apply IH; lia.
Qed.

Lemma tile_loop_least temp k r fuel :
  (1 <= r)%nat ->
  ((r * length temp) mod k = 0)%nat ->
  (forall j, (1 <= j < r)%nat -> ((j * length temp) mod k <> 0)%nat) ->
  (r < fuel)%nat ->
  tile_loop fuel temp temp 1 k = Some (np_tile temp r).
Proof.
  intros H1 Hr Hleast Hfuel. destruct fuel as [|fuel]; [lia|].
  cbn [tile_loop].
  destruct (Nat.eqb_spec (length temp mod k) 0) as [E|E].
  - destruct (Nat.eq_dec r 1%nat) as [->|Hne]; [rewrite np_tile_1; reflexivity|].
    exfalso. apply (Hleast 1%nat); [lia|]. rewrite Nat.mul_1_l. exact E.
  - destruct (Nat.eq_dec r 1%nat) as [->|Hne].
    { rewrite Nat.mul_1_l in Hr. contradiction. }
    apply tile_loop_from; (assumption || lia).
Qed.

Lemma least_repeats L k :
  (0 < k)%nat ->
  let r := (k / Nat.gcd L k)%nat in
  (1 <= r <= k)%nat /\
  (r * L = Nat.lcm L k)%nat /\
  ((r * L) mod k = 0)%nat /\
  (forall j, (1 <= j < r)%nat -> ((j * L) mod k <> 0)%nat).
Proof.
  intros Hk r.
  assert (Hlcm : (r * L = Nat.lcm L k)%nat) by (unfold Nat.lcm, r; lia).
  assert (Hg : (Nat.gcd L k <> 0)%nat).
  { intros E. apply Nat.gcd_eq_0 in E. lia. }
  destruct (Nat.gcd_divide_r L k) as [k' Hk'].
  destruct (Nat.gcd_divide_l L k) as [L' HL'].
  remember (Nat.gcd L k) as g eqn:Eg.
  assert (Er : r = k').
  { unfold r. rewrite Hk'. apply Nat.div_mul, Hg. }
  assert (Ecop : Nat.gcd k' L' = 1%nat).
  { rewrite Nat.gcd_comm.
    pose proof (Nat.gcd_div_gcd L k g Hg Eg) as H.
    replace (L / g)%nat with L' in H
      by (rewrite HL'; symmetry; apply Nat.div_mul, Hg).
    replace (k / g)%nat with k' in H
      by (rewrite Hk'; symmetry; apply Nat.div_mul, Hg).
    exact H. }
  split; [|split; [exact Hlcm|split]].
  - rewrite Er. split.
    + destruct k'; lia.
    + rewrite Hk'. destruct g; [contradiction | nia].
  - rewrite Hlcm. apply Nat.Lcm0.mod_divide, Nat.divide_lcm_r.
  - intros j Hj Hmod. apply Nat.Lcm0.mod_divide in Hmod.
    assert (Hd : Nat.divide k' (L' * j)).
    { destruct Hmod as [m Hm]. exists m.
      apply (Nat.mul_cancel_r _ _ g Hg). nia. }
    apply Nat.gauss in Hd; [|exact Ecop].
    apply Nat.divide_pos_le in Hd; lia.
Qed.

Lemma modulation_inv modType bitsPerSym modulator :
  modulation modType = Ok (bitsPerSym, modulator) ->
  (bitsPerSym, modulator) = (1%nat, bpsk_modulator) \/
  (bitsPerSym, modulator) = (2%nat, qpsk_modulator) \/
  (bitsPerSym, modulator) = (3%nat, psk8_modulator) \/
  (bitsPerSym, modulator) = (4%nat, qam16_modulator).
Proof.
  unfold modulation.
  repeat (destruct (String.eqb _ _); [intros [= <- <-]; auto|]).
  discriminate.
Qed.

Lemma bpsk_modulator_bits data :
  Spec.bits data ->
  exists symbols, bpsk_modulator data None = Ok symbols /\
                  length symbols = length data.
Proof.
  intros H. apply bpsk_pattern_mapped in H.
  destruct (map_symbols_mapped bpsk_default_map _ "Invalid BPSK symbol value." H)
    as (symbols & Hs & Hl).
  exists symbols. split; [exact Hs|].
  rewrite Hl. unfold bpsk_pattern. apply length_map.
Qed.

Lemma modulation_whole_symbols modType bitsPerSym modulator bits :
  modulation modType = Ok (bitsPerSym, modulator) ->
  Spec.bits bits ->
  (length bits mod bitsPerSym = 0)%nat ->
  exists symbols, modulator bits None = Ok symbols /\
                  (length symbols * bitsPerSym)%nat = length bits.
Proof.
  intros Hm Hbits Hmod.
  destruct (modulators_drop_leftover_bits bits Hbits)
    as ((s2 & H2 & L2) & (s3 & H3 & L3) & (s4 & H4 & L4)).
  destruct (bpsk_modulator_bits bits Hbits) as (s1 & H1 & L1).
  apply Nat.Lcm0.mod_divide in Hmod as [m Hm'].
  apply modulation_inv in Hm as [E|[E|[E|E]]]; injection E as -> ->.
  - exists s1. split; [exact H1 | lia].
  - exists s2. split; [exact H2|]. rewrite L2, Hm', Nat.div_mul; lia.
  - exists s3. split; [exact H3|]. rewrite L3, Hm', Nat.div_mul; lia.
  - exists s4. split; [exact H4|]. rewrite L4, Hm', Nat.div_mul; lia.
Qed.

Lemma modulation_bitsPerSym modType bitsPerSym modulator :
  modulation modType = Ok (bitsPerSym, modulator) -> (1 <= bitsPerSym <= 4)%nat.
Proof.
  intros H. apply modulation_inv in H as [E|[E|[E|E]]]; injection E as -> _; lia.
Qed.

Lemma tile_loop_result temp k fuel :
  (0 < k)%nat -> (k < fuel)%nat ->
  tile_loop fuel temp temp 1 k =
    Some (np_tile temp (k / Nat.gcd (length temp) k)).
Proof.
  intros Hk Hfuel.
  destruct (least_repeats (length temp) k Hk) as (Hr & _ & Hz & Hleast).
  apply tile_loop_least; (assumption || lia).
Qed.

(** X18.  The loop of [digmod_prbs_generator] that repeats the PRBS
    always ends: for each accepted modulation type it evaluates its
    condition at most [bitsPerSym + 1] times and leaves [temp] tiled
    [bitsPerSym / gcd(len(temp), bitsPerSym)] times, the least number
    of copies whose length is a multiple of [bitsPerSym], so that
    [bits] has [lcm(len(temp), bitsPerSym)] elements.  For a sequence
    of bits the modulator then succeeds and uses every bit:
    [len(symbols) * bitsPerSym = len(bits)]. *)
Theorem digmod_prbs_generator_whole_symbols :
  forall modType bitsPerSym modulator temp fuel,
    modulation modType = Ok (bitsPerSym, modulator) ->
    (bitsPerSym < fuel)%nat ->
    exists bits,
      tile_loop fuel temp temp 1 bitsPerSym = Some bits /\
      bits = np_tile temp (bitsPerSym / Nat.gcd (length temp) bitsPerSym) /\
      length bits = Nat.lcm (length temp) bitsPerSym /\
      (Spec.bits temp ->
       exists symbols,
         modulator bits None = Ok symbols /\
         (length symbols * bitsPerSym)%nat = length bits).
Proof.
  intros modType k modulator temp fuel Hm Hfuel.
  pose proof (modulation_bitsPerSym _ _ _ Hm) as Hk.
  destruct (least_repeats (length temp) k) as (Hr & Hlcm & Hz & _); [lia|].
  eexists. split; [apply tile_loop_result; lia|]. split; [reflexivity|].
  split; [rewrite length_np_tile; exact Hlcm|].
  intros Hbits. apply (modulation_whole_symbols modType).
  - exact Hm.
  - apply bits_np_tile, Hbits.
  - rewrite length_np_tile. exact Hz.
Qed.

Lemma digmod_prbs_generator_whole_symbols_witness :
  exists bits symbols,
    tile_loop 3 [1; 0; 1] [1; 0; 1] 1 2 = Some bits /\
    length bits = 6%nat /\
    qpsk_modulator bits None = Ok symbols /\ length symbols = 3%nat.
Proof.
  destruct (digmod_prbs_generator_whole_symbols "QPSK" 2 qpsk_modulator
              [1; 0; 1] 3 eq_refl) as (bits & Hl & _ & Hlen & Hs); [lia|].
  destruct Hs as (symbols & Hs & Hn);
    [unfold Spec.bits; repeat (constructor; [lia|]); constructor|].
  exists bits, symbols. rewrite Hlen in Hn. cbn in Hlen, Hn.
  repeat split; (assumption || lia).
Defined.

Lemma length_padded {A : Type} (s : list A) :
  length (last_n 5 s ++ s ++ take 5 s)%list = (length s + 2 * Nat.min 5 (length s))%nat.
Proof.
  unfold last_n. rewrite !length_app, length_drop, length_take. lia.
Qed.

Lemma padded_wrap_around {A : Type} (s : list A) j :
  (5 <= length s)%nat ->
  (j < length s + 10)%nat ->
  (last_n 5 s ++ s ++ take 5 s)%list !! j =
    s !! ((j + length s - 5) mod length s)%nat.
Proof.
  intros Hn Hj. unfold last_n.
  assert (Hd : length (drop (length s - 5) s) = 5%nat)
    by (rewrite length_drop; lia).
  destruct (Nat.lt_ge_cases j 5) as [H5|H5].
  - rewrite lookup_app_l by lia. rewrite lookup_drop.
    rewrite Nat.mod_small by lia. f_equal. lia.
  - rewrite lookup_app_r by lia. rewrite Hd.
    destruct (Nat.lt_ge_cases (j - 5) (length s)) as [Hs|Hs].
    + rewrite lookup_app_l by lia.
      replace (j + length s - 5)%nat with (length s + (j - 5))%nat by lia.
      rewrite mod_chunk, Nat.mod_small by lia. reflexivity.
    + rewrite lookup_app_r by lia. rewrite lookup_take.
      destruct (decide _) as [_|Hge]; [|lia].
      replace (j + length s - 5)%nat
        with (length s + (length s + (j - 5 - length s)))%nat by lia.
      rewrite !mod_chunk, Nat.mod_small by lia. reflexivity.
Qed.

Lemma digmod_prbs_symbols_ok modType k modulator fs symRate n temp fuel :
  modulation modType = Ok (k, modulator) ->
  saPerSym fs symRate = Ok n ->
  Spec.bits temp ->
  (k < fuel)%nat ->
  exists symbols,
    modulator (np_tile temp (k / Nat.gcd (length temp) k)) None = Ok symbols /\
    digmod_prbs_symbols fuel modType fs symRate temp =
      Some (Ok (n, (last_n 5 symbols ++ symbols ++ take 5 symbols)%list)).
Proof.
  intros Hm Hrate Hbits Hfuel.
  pose proof (modulation_bitsPerSym _ _ _ Hm) as Hk.
  destruct (least_repeats (length temp) k) as (_ & _ & Hz & _); [lia|].
  destruct (modulation_whole_symbols modType k modulator
              (np_tile temp (k / Nat.gcd (length temp) k)) Hm)
    as (symbols & Hs & _).
  { apply bits_np_tile, Hbits. }
  { rewrite length_np_tile. exact Hz. }
  exists symbols. split; [exact Hs|].
  unfold digmod_prbs_symbols. rewrite Hrate.
  rewrite Hm, tile_loop_result by lia. rewrite Hs. reflexivity.
Qed.

(** X19.  For an accepted modulation type, a sampling rate and a symbol
    rate whose quotient has an integer part, and a sequence of bits,
    [digmod_prbs_generator] reaches its pulse-shaping stage with
    [saPerSym = int(fs / symRate)], taken from the rounded quotient,
    and with the symbols padded by [min(5, n)] symbols on each side,
    [n] being the number of symbols.  When there are at least five
    symbols the padding is circular: element [j] of the padded array is
    symbol [(j - 5) mod n].  With [fs = 1e6] and [symRate = 1e6 / 11]
    the quotient rounds to 11.0 and [saPerSym] is 11, where the exact
    quotient of the two floats is cut to 10. *)
Theorem digmod_prbs_generator_wrap_around :
  (forall modType bitsPerSym modulator fs symRate n temp fuel,
      modulation modType = Ok (bitsPerSym, modulator) ->
      saPerSym fs symRate = Ok n ->
      Spec.bits temp ->
      (bitsPerSym < fuel)%nat ->
      exists symbols padded,
        modulator (np_tile temp (bitsPerSym / Nat.gcd (length temp) bitsPerSym))
                  None = Ok symbols /\
        digmod_prbs_symbols fuel modType fs symRate temp =
          Some (Ok (n, padded)) /\
        length padded = (length symbols + 2 * Nat.min 5 (length symbols))%nat /\
        ((5 <= length symbols)%nat ->
         forall j, (j < length padded)%nat ->
           padded !! j =
             symbols !! ((j + length symbols - 5) mod length symbols)%nat)) /\
  saPerSym (Float.literal 1e6) (Float.div (Float.literal 1e6) (Float.of_Z 11)) =
    Ok 11 /\
  Float.trunc (exact (Float.literal 1e6) /
               exact (Float.div (Float.literal 1e6) (Float.of_Z 11))) = 10.
Proof.
  split; [|vm_compute; split; reflexivity].
  intros modType k modulator fs symRate n temp fuel Hm Hrate Hbits Hfuel.
  destruct (digmod_prbs_symbols_ok modType k modulator fs symRate n temp fuel
              Hm Hrate Hbits Hfuel) as (symbols & Hs & Hp).
  exists symbols, (last_n 5 symbols ++ symbols ++ take 5 symbols)%list.
  split; [exact Hs|]. split; [exact Hp|].
  split; [apply length_padded|].
  intros Hn j Hj. rewrite length_padded in Hj.
  apply padded_wrap_around; lia.
Qed.

Lemma digmod_prbs_generator_wrap_around_witness :
  exists padded,
    digmod_prbs_symbols 2 "bpsk" (Float.of_Z 4) (Float.of_Z 1) [1; 0; 0; 1; 0; 1] =
      Some (Ok (4, padded)) /\
    length padded = 16%nat.
Proof.
  destruct digmod_prbs_generator_wrap_around as [H _].
  destruct (H "bpsk" 1%nat bpsk_modulator (Float.of_Z 4) (Float.of_Z 1) 4
              [1; 0; 0; 1; 0; 1] 2%nat eq_refl)
    as (symbols & padded & Hs & Hp & Hl & _).
  - vm_compute. reflexivity.
  - unfold Spec.bits. repeat (constructor; [lia|]). constructor.
  - lia.
  - exists padded. split; [exact Hp|].
    rewrite Hl. vm_compute in Hs. injection Hs as <-. reflexivity.
Defined.

Lemma lower_char_idempotent c : Py.lower_char (Py.lower_char c) = Py.lower_char c.
Proof. destruct c as [[] [] [] [] [] [] [] []]; reflexivity. Qed.

Lemma lower_idempotent s : Py.lower (Py.lower s) = Py.lower s.
Proof.
  induction s as [|c s IH]; [reflexivity|].
  cbn [Py.lower]. rewrite lower_char_idempotent, IH. reflexivity.
Qed.

Lemma modulation_ok_iff modType :
  is_ok (modulation modType) <->
  Py.lower modType ∈ ["bpsk"; "qpsk"; "8psk"; "qam16"].
Proof.
  unfold modulation. rewrite !elem_of_cons, elem_of_nil.
  destruct (String.eqb_spec (Py.lower modType) "bpsk") as [E1|E1];
    [cbn [is_ok]; tauto|].
  destruct (String.eqb_spec (Py.lower modType) "qpsk") as [E2|E2];
    [cbn [is_ok]; tauto|].
  destruct (String.eqb_spec (Py.lower modType) "8psk") as [E3|E3];
    [cbn [is_ok]; tauto|].
  destruct (String.eqb_spec (Py.lower modType) "qam16") as [E4|E4];
    [cbn [is_ok]; tauto|].
  cbn [is_ok]. tauto.
Qed.

Lemma modulation_error modType e :
  modulation modType = Raise e -> e = ValueError "Invalid modType chosen.".
Proof.
  unfold modulation.
  repeat (destruct (String.eqb _ _); [discriminate|]).
  intros [= <-]. reflexivity.
Qed.

Lemma saPerSym_error fs symRate e :
  saPerSym fs symRate = Raise e ->
  (Float.is_zero symRate = true /\ e = ZeroDivisionError) \/
  (Float.is_zero symRate = false /\
   Py.int (Float.div fs symRate) = Raise e /\
   (e = OverflowError "cannot convert float infinity to integer" \/
    e = ValueError "cannot convert float NaN to integer")).
Proof.
  unfold saPerSym, Py.truediv.
  destruct (Float.is_zero symRate); cbn [Py.bind].
  - intros [= <-]. left. auto.
  - intros H. right. split; [reflexivity|]. split; [exact H|].
    eapply int_error, H.
Qed.

(** X20.  The errors of [digmod_prbs_generator] before pulse shaping.
    Its first line, [saPerSym = int(fs / symRate)], raises
    [ZeroDivisionError] on a zero symbol rate, [OverflowError] when the
    quotient is an infinity (as for [fs = 1e308] and [symRate = 0.1])
    and [ValueError] when it is a NaN, whatever the modulation type
    is; otherwise a type that is none of [bpsk], [qpsk], [8psk],
    [qam16] in any letter case raises [ValueError].  The letter case of
    [modType] changes nothing.  For a sequence of bits these are the
    only errors: the [ValueError] of a modulator is never raised. *)
Theorem digmod_prbs_generator_errors :
  forall fuel modType fs symRate temp,
    (forall e,
        saPerSym fs symRate = Raise e ->
        digmod_prbs_symbols fuel modType fs symRate temp = Some (Raise e) /\
        ((Float.is_zero symRate = true /\ e = ZeroDivisionError) \/
         (Float.is_zero symRate = false /\
          Py.int (Float.div fs symRate) = Raise e /\
          (e = OverflowError "cannot convert float infinity to integer" \/
           e = ValueError "cannot convert float NaN to integer")))) /\
    (Float.is_zero symRate = true ->
     digmod_prbs_symbols fuel modType fs symRate temp =
       Some (Raise ZeroDivisionError)) /\
    (is_ok (saPerSym fs symRate) ->
     Py.lower modType ∉ ["bpsk"; "qpsk"; "8psk"; "qam16"] ->
     digmod_prbs_symbols fuel modType fs symRate temp =
       Some (Raise (ValueError "Invalid modType chosen."))) /\
    digmod_prbs_symbols fuel (Py.lower modType) fs symRate temp =
      digmod_prbs_symbols fuel modType fs symRate temp /\
    (Spec.bits temp -> (4 < fuel)%nat ->
     forall e,
       digmod_prbs_symbols fuel modType fs symRate temp = Some (Raise e) ->
       saPerSym fs symRate = Raise e \/
       (is_ok (saPerSym fs symRate) /\
        (Py.lower modType ∉ ["bpsk"; "qpsk"; "8psk"; "qam16"]) /\
        e = ValueError "Invalid modType chosen.")) /\
    saPerSym (Float.literal 1e308) (Float.literal 0.1) =
      Raise (OverflowError "cannot convert float infinity to integer") /\
    saPerSym (Float.Infinity false) (Float.Infinity false) =
      Raise (ValueError "cannot convert float NaN to integer").
Proof.
  intros fuel modType fs symRate temp.
  split; [|split; [|split; [|split; [|split; [|vm_compute; split; reflexivity]]]]].
  - intros e H. split; [|apply saPerSym_error, H].
    unfold digmod_prbs_symbols. rewrite H. reflexivity.
  - intros H. unfold digmod_prbs_symbols, saPerSym, Py.truediv. rewrite H.
    reflexivity.
  - intros Hrate Hm. unfold digmod_prbs_symbols.
    destruct (saPerSym fs symRate) as [n|e]; [|contradiction].
    rewrite <- modulation_ok_iff in Hm.
    destruct (modulation modType) as [[k f]|e] eqn:Em; [exfalso; apply Hm; exact I|].
    apply modulation_error in Em as ->. reflexivity.
  - unfold digmod_prbs_symbols, modulation. rewrite lower_idempotent. reflexivity.
  - intros Hbits Hfuel e H.
    destruct (saPerSym fs symRate) as [n|e'] eqn:Hrate.
    + right. split; [exact I|].
      destruct (modulation modType) as [[k f]|e'] eqn:Em.
      * exfalso.
        pose proof (modulation_bitsPerSym _ _ _ Em) as Hk.
        destruct (digmod_prbs_symbols_ok modType k f fs symRate n temp fuel
                    Em Hrate Hbits) as (symbols & _ & Hp); [lia|].
        rewrite Hp in H. discriminate H.
      * split.
        -- rewrite <- modulation_ok_iff, Em. intros [].
        -- unfold digmod_prbs_symbols in H. rewrite Hrate, Em in H.
           injection H as <-. apply modulation_error in Em. exact Em.
    + left. unfold digmod_prbs_symbols in H. rewrite Hrate in H. congruence.
Qed.

Lemma digmod_prbs_generator_errors_witness :
  digmod_prbs_symbols 5 "QAM32" (Float.of_Z 4) (Float.of_Z 1) [1; 0; 1] =
    Some (Raise (ValueError "Invalid modType chosen.")) /\
  digmod_prbs_symbols 5 "qam16" (Float.of_Z 4) (Float.of_Z 0) [1; 0; 1] =
    Some (Raise ZeroDivisionError) /\
  digmod_prbs_symbols 5 "qam16" (Float.literal 1e308) (Float.literal 0.1) [1; 0; 1] =
    Some (Raise (OverflowError "cannot convert float infinity to integer")).
Proof.
  destruct (digmod_prbs_generator_errors 5 "QAM32" (Float.of_Z 4) (Float.of_Z 1)
              [1; 0; 1]) as (_ & _ & Hv & _).
  destruct (digmod_prbs_generator_errors 5 "qam16" (Float.of_Z 4) (Float.of_Z 0)
              [1; 0; 1]) as (_ & Hz & _).
  destruct (digmod_prbs_generator_errors 5 "qam16" (Float.literal 1e308)
              (Float.literal 0.1) [1; 0; 1]) as (Ho & _).
  split; [|split].
  - apply Hv; [vm_compute; exact I|].
    rewrite !elem_of_cons, elem_of_nil. cbn. intros [E|[E|[E|[E|[]]]]]; discriminate E.
  - apply Hz. vm_compute. reflexivity.
  - apply Ho. vm_compute. reflexivity.
Defined.

(** ** Downloads to the two AWGs *)

Lemma split_not_nil sep s : Py.split sep s <> [].
Proof.
  destruct s as [|c s]; cbn [Py.split]; [discriminate|].
  destruct (Ascii.eqb c sep); [discriminate|].
  destruct (Py.split sep s); discriminate.
Qed.

Lemma split_field sep f rest :
  ~ In sep (list_ascii_of_string f) ->
  Py.split sep (f +:+ String sep rest) = f :: Py.split sep rest.
Proof.
  induction f as [|c f IH]; intros H.
  - simpl. rewrite Ascii.eqb_refl. reflexivity.
  - simpl in *.
    destruct (Ascii.eqb_spec c sep) as [->|Hne]; [exfalso; apply H; left; reflexivity|].
    rewrite IH by (intros Hin; apply H; right; exact Hin). reflexivity.
Qed.

Lemma split_last_field sep f :
  ~ In sep (list_ascii_of_string f) -> Py.split sep f = [f].
Proof.
  induction f as [|c f IH]; intros H; [reflexivity|].
  cbn [Py.split list_ascii_of_string] in *.
  destruct (Ascii.eqb_spec c sep) as [->|Hne]; [exfalso; apply H; left; reflexivity|].
  rewrite IH by (intros Hin; apply H; right; exact Hin). reflexivity.
Qed.

Lemma split_join sep fields :
  fields <> [] ->
  Forall (fun f => ~ In sep (list_ascii_of_string f)) fields ->
  Py.split sep (Py.join (String sep "") fields) = fields.
Proof.
  intros Hne H. induction H as [|f fields Hf Hfs IH]; [contradiction|].
  destruct fields as [|g fields].
  - cbn [Py.join]. apply split_last_field, Hf.
  - change (Py.join (String sep "") (f :: g :: fields))
      with (f +:+ String sep "" +:+ Py.join (String sep "") (g :: fields)).
    change (String sep "" +:+ Py.join (String sep "") (g :: fields))
      with (String sep (Py.join (String sep "") (g :: fields))).
    rewrite split_field by exact Hf. rewrite IH by discriminate. reflexivity.
Qed.

Lemma item_from_end_2 {A : Type} (pre : list A) f l :
  Py.item_from_end 2 (pre ++ [f; l]) = Ok f.
Proof.
  unfold Py.item_from_end. rewrite rev_app_distr. reflexivity.
Qed.

Lemma segIndex_catalog reply pre f l n :
  Py.strip reply = Py.join "," (pre ++ [f; l]) ->
  Forall (fun f => ~ In ","%char (list_ascii_of_string f)) (pre ++ [f; l]) ->
  Py.int_of_str f = Ok n ->
  Scpi.segIndex reply = Ok (n + 1).
Proof.
  intros Hs Hf Hn. unfold Scpi.segIndex.
  rewrite Hs, split_join by (assumption || (destruct pre; discriminate)).
  rewrite item_from_end_2. cbn [Py.bind]. rewrite Hn. reflexivity.
Qed.

Lemma segIndex_no_comma reply :
  ~ In ","%char (list_ascii_of_string (Py.strip reply)) ->
  Scpi.segIndex reply = Raise (IndexError "list index out of range").
Proof.
  intros H. unfold Scpi.segIndex. rewrite split_last_field by exact H. reflexivity.
Qed.

Lemma segIndex_error reply e :
  Scpi.segIndex reply = Raise e ->
  e = IndexError "list index out of range" \/ exists msg, e = ValueError msg.
Proof.
  unfold Scpi.segIndex, Py.item_from_end.
  destruct (nth_error _ _) as [f|]; cbn [Py.bind]; [|intros [= <-]; auto].
  destruct (Py.int_of_str f) as [n|e'] eqn:E; cbn [Py.bind]; [discriminate|].
  intros [= <-]. right. eapply int_of_str_error, E.
Qed.

Lemma lshift_int16 a s : int16_array (Np.lshift 16 a s).
Proof.
  unfold Np.lshift. apply Forall_map, Forall_forall.
  intros v _. apply (wrap_signed_range 16). lia.
Qed.

Lemma M8190A_check_wfm_ok_inv self wfm self' data :
  M8190A.check_wfm self wfm = (self', Ok data) ->
  length data = length wfm /\ int16_array data.
Proof.
  unfold M8190A.check_wfm.
  destruct (M8190A.check_resolution self) as [s [[]|e]]; [|discriminate].
  destruct (_ <? _); [discriminate|].
  destruct (_ =? 0); [discriminate|].
  destruct (negb _); [discriminate|].
  intros [= <- <-]. split; [|apply lshift_int16].
  unfold Np.lshift, Np.array_int, Np.scalar_mul. rewrite !length_map. reflexivity.
Qed.

Lemma M8195A_check_wfm_ok_inv self wfm data :
  M8195A.check_wfm self wfm = Ok data -> length data = length wfm.
Proof.
  rewrite M8195A_check_wfm_guarded. intros H.
  apply guarded_ok_inv in H as [_ ->].
  unfold Np.lshift, Np.array_int, Np.scalar_mul. rewrite !length_map. reflexivity.
Qed.

(** X21.  [download_wfm] of the M8190A and of the M8195A.  A waveform
    that [check_wfm] rejects is not announced to the instrument: not
    even the catalog query is sent.  When the reply to the query,
    stripped, is a comma-separated list of at least two fields, the
    segment index is the integer of the field before the last one,
    plus one; the length announced in [trace:def] is the number of
    samples of the waveform given, and the block sent after it is the
    result of [check_wfm].  A reply without a comma raises
    [IndexError] after the query and before anything is defined. *)
Theorem download_wfm_next_segment :
  forall (awg : M8190A.t) (awg' : M8195A.t) wfm ch catalog,
    (is_raise (snd (M8190A.check_wfm awg wfm)) ->
     fst (snd (M8190A.download_wfm awg wfm ch catalog)) = []) /\
    (is_raise (M8195A.check_wfm awg' wfm) ->
     fst (M8195A.download_wfm awg' wfm ch catalog) = []) /\
    (forall pre f l n,
        Py.strip catalog = Py.join "," (pre ++ [f; l]) ->
        Forall (fun f => ~ In ","%char (list_ascii_of_string f)) (pre ++ [f; l]) ->
        Py.int_of_str f = Ok n ->
        let sent data :=
          [ Scpi.Query ("trace" +:+ Py.str ch +:+ ":catalog?");
            Scpi.Write ("trace" +:+ Py.str ch +:+ ":def " +:+ Py.str (n + 1) +:+
                        ", " +:+ Py.str (Z.of_nat (length wfm)));
            Scpi.BinBlockWrite
              ("trace" +:+ Py.str ch +:+ ":data " +:+ Py.str (n + 1) +:+ ", 0, ")
              data ] in
        (forall self data,
            M8190A.check_wfm awg wfm = (self, Ok data) ->
            M8190A.download_wfm awg wfm ch catalog = (self, (sent data, Ok tt))) /\
        (forall data,
            M8195A.check_wfm awg' wfm = Ok data ->
            M8195A.download_wfm awg' wfm ch catalog = (sent data, Ok tt))) /\
    (~ In ","%char (list_ascii_of_string (Py.strip catalog)) ->
     (forall self data,
         M8190A.check_wfm awg wfm = (self, Ok data) ->
         M8190A.download_wfm awg wfm ch catalog =
           (self, ([ Scpi.Query ("trace" +:+ Py.str ch +:+ ":catalog?") ],
                   Raise (IndexError "list index out of range")))) /\
     (is_ok (M8195A.check_wfm awg' wfm) ->
      M8195A.download_wfm awg' wfm ch catalog =
        ([ Scpi.Query ("trace" +:+ Py.str ch +:+ ":catalog?") ],
         Raise (IndexError "list index out of range")))).
Proof.
  intros awg awg' wfm ch catalog. split; [|split; [|split]].
  - unfold M8190A.download_wfm.
    destruct (M8190A.check_wfm awg wfm) as [s [d|e]]; [intros []|reflexivity].
  - unfold M8195A.download_wfm.
    destruct (M8195A.check_wfm awg' wfm) as [d|e]; [intros []|reflexivity].
  - intros pre f l n Hs Hf Hn sent.
    pose proof (segIndex_catalog _ _ _ _ _ Hs Hf Hn) as Hseg. split.
    + intros self data H. unfold M8190A.download_wfm. rewrite H, Hseg.
      apply M8190A_check_wfm_ok_inv in H as [-> _]. reflexivity.
    + intros data H. unfold M8195A.download_wfm. rewrite H, Hseg.
      apply M8195A_check_wfm_ok_inv in H as ->. reflexivity.
  - intros Hc. split.
    + intros self data H. unfold M8190A.download_wfm.
      rewrite H, segIndex_no_comma by exact Hc. reflexivity.
    + intros Hok. unfold M8195A.download_wfm.
      destruct (M8195A.check_wfm awg' wfm) as [d|e]; [|contradiction].
      rewrite segIndex_no_comma by exact Hc. reflexivity.
Qed.

Lemma download_wfm_next_segment_witness :
  exists data,
    M8195A.download_wfm M8195A.init (repeat (Float.literal 0.5) 256) 1 "1,256,2,512" =
      ([ Scpi.Query "trace1:catalog?"; Scpi.Write "trace1:def 3, 256";
         Scpi.BinBlockWrite "trace1:data 3, 0, " data ], Ok tt).
Proof.
  destruct (download_wfm_next_segment (M8190A.Build "wsp" 0 0 0 0 None None)
              M8195A.init (repeat (Float.literal 0.5) 256) 1 "1,256,2,512")
    as (_ & _ & H & _).
  destruct (H ["1"; "256"] "2" "512" 2 eq_refl) as [_ H'].
  - repeat (constructor; [vm_compute; intuition discriminate|]). constructor.
  - reflexivity.
  - eexists. apply H'. vm_compute. reflexivity.
Defined.

Lemma str_half_even n : Py.str_half (2 * n) = Py.str n +:+ ".0".
Proof.
  unfold Py.str_half. rewrite Z.even_mul. cbn [Z.even orb].
  rewrite (Z.mul_comm 2 n), Z.div_mul by lia. reflexivity.
Qed.

(** X22.  [M8190A.download_iq_wfm] never defines a segment without
    sending its data: on an error it has sent nothing, or the catalog
    query alone.  When both waveforms pass [check_wfm], have one
    length and the catalog reply yields a segment index, the length
    announced in [trace:def] is [len(iq) / 2] written as a float, the
    digits of [len(i)] followed by [.0] (for fewer than [10 ** 16]
    samples), where [download_wfm] writes an integer; the block sent
    has [2 * len(i)] samples, the formatted [i] at its even and the
    formatted [q] at its odd positions. *)
Theorem M8190A_download_iq_wfm_float_length :
  forall self i q ch catalog,
    (forall e,
        snd (snd (M8190A.download_iq_wfm self i q ch catalog)) = Raise e ->
        fst (snd (M8190A.download_iq_wfm self i q ch catalog)) = [] \/
        fst (snd (M8190A.download_iq_wfm self i q ch catalog)) =
          [ Scpi.Query ("trace" +:+ Py.str ch +:+ ":catalog?") ]) /\
    (forall self1 ci self2 cq seg,
        M8190A.check_wfm self i = (self1, Ok ci) ->
        M8190A.check_wfm self1 q = (self2, Ok cq) ->
        length i = length q ->
        Z.of_nat (length i) < 10 ^ 16 ->
        Scpi.segIndex catalog = Ok seg ->
        exists iq,
          M8190A.download_iq_wfm self i q ch catalog =
            (self2,
             ([ Scpi.Query ("trace" +:+ Py.str ch +:+ ":catalog?");
                Scpi.Write ("trace" +:+ Py.str ch +:+ ":def " +:+ Py.str seg +:+
                            ", " +:+ Py.str (Z.of_nat (length i)) +:+ ".0");
                Scpi.BinBlockWrite
                  ("trace" +:+ Py.str ch +:+ ":data " +:+ Py.str seg +:+ ", 0, ")
                  iq ], Ok tt)) /\
          length iq = (2 * length i)%nat /\
          slice_step 2 0 iq = ci /\ slice_step 2 1 iq = cq).
Proof.
  intros self i q ch catalog. split.
  - intros e. unfold M8190A.download_iq_wfm.
    destruct (M8190A.check_wfm self i) as [s1 [ci|e1]]; [|auto].
    destruct (M8190A.check_wfm s1 q) as [s2 [cq|e2]]; [|auto].
    destruct (M8190A.iq_wfm_combiner ci cq) as [iq|e3]; [|auto].
    destruct (Scpi.segIndex catalog) as [seg|e4]; [discriminate | auto].
  - intros self1 ci self2 cq seg Hi Hq Hlen _ Hseg.
    destruct (M8190A_check_wfm_ok_inv _ _ _ _ Hi) as [Li Ri].
    destruct (M8190A_check_wfm_ok_inv _ _ _ _ Hq) as [Lq Rq].
    exists (Np.interleave ci cq).
    unfold M8190A.download_iq_wfm, M8190A.iq_wfm_combiner.
    rewrite Hi, Hq, combine_same_length by congruence.
    rewrite !map_wrap_signed_int16 by assumption. rewrite Hseg.
    rewrite length_interleave, interleave_even, interleave_odd by congruence.
    rewrite Li, Nat2Z.inj_mul, str_half_even.
    repeat split; reflexivity.
Qed.

Lemma M8190A_download_iq_wfm_float_length_witness :
  exists self iq,
    M8190A.download_iq_wfm (M8190A.Build "wpr" 0 0 0 0 None None)
      (repeat (Float.literal 0.5) 240) (repeat (Float.literal 0) 240) 1 "0,0" =
      (self, ([ Scpi.Query "trace1:catalog?"; Scpi.Write "trace1:def 1, 240.0";
                Scpi.BinBlockWrite "trace1:data 1, 0, " iq ], Ok tt)).
Proof.
  destruct (M8190A_download_iq_wfm_float_length
              (M8190A.Build "wpr" 0 0 0 0 None None)
              (repeat (Float.literal 0.5) 240) (repeat (Float.literal 0) 240) 1 "0,0")
    as [_ H].
  edestruct H as (iq & Hd & _).
  - vm_compute. reflexivity.
  - vm_compute. reflexivity.
  - reflexivity.
  - vm_compute. reflexivity.
  - reflexivity.
  - eexists _, iq. exact Hd.
Defined.

(** ** The waveform index file of the UXG *)

Lemma append_cons c (a b : string) : String c a +:+ b = String c (a +:+ b).
Proof. reflexivity. Qed.

Lemma append_nil_r (a : string) : a +:+ "" = a.
Proof.
  induction a as [|c a IH]; [reflexivity|]. rewrite append_cons, IH. reflexivity.
Qed.

Lemma chars_app (a b : string) :
  list_ascii_of_string (a +:+ b) =
    (list_ascii_of_string a ++ list_ascii_of_string b)%list.
Proof.
  induction a as [|c a IH]; [reflexivity|].
  rewrite append_cons. cbn [list_ascii_of_string app]. rewrite IH. reflexivity.
Qed.

Lemma string_app_assoc (a b c : string) : (a +:+ b) +:+ c = a +:+ (b +:+ c).
Proof.
  induction a as [|x a IH]; [reflexivity|].
  rewrite !append_cons, IH. reflexivity.
Qed.

Lemma uint_chars d c :
  In c (list_ascii_of_string (NilEmpty.string_of_uint d)) ->
  In c (list_ascii_of_string "0123456789").
Proof.
  induction d as [|d IH|d IH|d IH|d IH|d IH|d IH|d IH|d IH|d IH|d IH];
    cbn [NilEmpty.string_of_uint list_ascii_of_string];
    [intros [] | intros [<-|H]; [cbn; tauto | exact (IH H)] ..].
Qed.

Lemma str_chars z c :
  In c (list_ascii_of_string (Py.str z)) ->
  In c (list_ascii_of_string "-0123456789").
Proof.
  assert (Hu : forall d, In c (list_ascii_of_string (NilZero.string_of_uint d)) ->
                         In c (list_ascii_of_string "0123456789")).
  { intros d. destruct d; try apply uint_chars. cbn. tauto. }
  unfold Py.str. destruct (Z.to_int z) as [d|d]; cbn [NilZero.string_of_int].
  - intros H. right. exact (Hu d H).
  - cbn [list_ascii_of_string]. intros [<-|H]; [left; reflexivity | right; exact (Hu d H)].
Qed.

Lemma str_has_no c z :
  ~ In c (list_ascii_of_string "-0123456789") ->
  ~ In c (list_ascii_of_string (Py.str z)).
Proof. intros H Hin. apply H. eapply str_chars, Hin. Qed.

Lemma length_split sep s :
  length (Py.split sep s) =
    S (count_occ Ascii.ascii_dec (list_ascii_of_string s) sep).
Proof.
  induction s as [|c s IH]; [reflexivity|].
  cbn [Py.split list_ascii_of_string count_occ].
  destruct (Ascii.eqb_spec c sep) as [->|Hne].
  - destruct (Ascii.ascii_dec sep sep) as [_|Hn]; [|contradiction].
    cbn [length]. rewrite IH. reflexivity.
  - destruct (Ascii.ascii_dec c sep) as [E|_]; [contradiction|].
    rewrite <- IH. destruct (Py.split sep s) eqn:E; [|reflexivity].
    exfalso. eapply split_not_nil, E.
Qed.

Lemma windex_rows_app i names acc :
  UXG.windex_rows i names acc = acc +:+ UXG.windex_rows i names "".
Proof.
  revert i acc. induction names as [|name names IH]; intros i acc.
  - cbn [UXG.windex_rows]. symmetry. apply append_nil_r.
  - cbn [UXG.windex_rows]. rewrite IH. rewrite (IH _ ("" +:+ _)).
    rewrite string_app_assoc. reflexivity.
Qed.

Lemma split_windex_rows i names :
  Forall (fun name => ~ In "010"%char (list_ascii_of_string name)) names ->
  Py.split "010"%char (UXG.windex_rows i names "") =
    (imap (fun k name => Py.str (i + Z.of_nat k) +:+ "," +:+ name) names ++ [""])%list.
Proof.
  intros H. revert i. induction H as [|name names Hn _ IH]; intros i; [reflexivity|].
  cbn [UXG.windex_rows imap]. rewrite windex_rows_app.
  change ("" +:+ (Py.str i +:+ "," +:+ name +:+ Py.newline))
    with (Py.str i +:+ "," +:+ name +:+ Py.newline).
  rewrite <- !string_app_assoc. rewrite (string_app_assoc _ Py.newline).
  change (Py.newline +:+ UXG.windex_rows (i + 1) names "")
    with (String "010"%char (UXG.windex_rows (i + 1) names "")).
  rewrite split_field.
  - rewrite IH. cbn [app]. rewrite Z.add_0_r. f_equal. f_equal.
    apply imap_ext. intros k x _. cbn. f_equal. f_equal. lia.
  - rewrite !chars_app, !in_app_iff. intros [[Hs|Hc]|Hname].
    + revert Hs. apply str_has_no. vm_compute. intuition discriminate.
    + vm_compute in Hc. intuition discriminate.
    + exact (Hn Hname).
Qed.

Lemma count_windex_rows i names :
  count_occ Ascii.ascii_dec (list_ascii_of_string (UXG.windex_rows i names "")) "010"%char =
    (length names +
     list_sum (map (fun name =>
                      count_occ Ascii.ascii_dec (list_ascii_of_string name) "010"%char)
                   names))%nat.
Proof.
  revert i. induction names as [|name names IH]; intros i; [reflexivity|].
  cbn [UXG.windex_rows]. rewrite windex_rows_app.
  assert (Hs : count_occ Ascii.ascii_dec (list_ascii_of_string (Py.str i)) "010"%char = 0%nat).
  { apply count_occ_not_In, str_has_no. vm_compute. intuition discriminate. }
  rewrite !chars_app, !count_occ_app, IH, Hs.
  unfold list_sum. cbn [map fold_right length].
  change (count_occ Ascii.ascii_dec (list_ascii_of_string "") "010"%char) with 0%nat.
  change (count_occ Ascii.ascii_dec (list_ascii_of_string ",") "010"%char) with 0%nat.
  change (count_occ Ascii.ascii_dec (list_ascii_of_string Py.newline) "010"%char) with 1%nat.
  lia.
Qed.

Lemma list_sum_0 (l : list nat) : list_sum l = 0%nat <-> Forall (fun n => n = 0%nat) l.
Proof.
  induction l as [|n l IH]; [split; constructor|].
  change (list_sum (n :: l)) with (n + list_sum l)%nat.
  rewrite Forall_cons, <- IH. lia.
Qed.

(** X23.  The CSV text that [csv_windex_file_download] sends holds the
    header and one row per waveform name, numbered from 0 in the order
    of the list: split at the line feeds it is the header, the rows
    [<k>,<name k>], and the empty string after the last line feed,
    provided no name contains a line feed.  Names are written as they
    are, without quoting: the text has [len(names) + 2] such pieces
    exactly when no name contains a line feed. *)
Theorem csv_windex_file_download_rows :
  forall w msg text,
    In (Scpi.BinBlockWriteText msg text) (UXG.csv_windex_file_download w) ->
    let names := UXG.wfmNames w in
    let newline := "010"%char in
    let one_line name := ~ In newline (list_ascii_of_string name) in
    (Forall one_line names ->
     Py.split newline text =
       ("Id,Filename" ::
        imap (fun k name => Py.str (Z.of_nat k) +:+ "," +:+ name) names ++
        [""])%list) /\
    (length (Py.split newline text) = (length names + 2)%nat <->
     Forall one_line names).
Proof.
  intros w msg text Hin names newline one_line.
  assert (Ht : text = "Id,Filename" +:+
                      String newline (UXG.windex_rows 0 names "")).
  { unfold UXG.csv_windex_file_download in Hin. cbn [In] in Hin.
    destruct Hin as [H|[H|[H|[H|[]]]]]; try discriminate H.
    injection H as _ <-. unfold UXG.windexCsv. rewrite windex_rows_app.
    apply string_app_assoc. }
  subst text. split.
  - intros Hn. rewrite split_field by (vm_compute; intuition discriminate).
    rewrite split_windex_rows by exact Hn. reflexivity.
  - rewrite length_split, chars_app, count_occ_app.
    change (list_ascii_of_string (String newline (UXG.windex_rows 0 names "")))
      with (newline :: list_ascii_of_string (UXG.windex_rows 0 names "")).
    rewrite count_occ_cons_eq by reflexivity.
    rewrite count_windex_rows.
    change (count_occ Ascii.ascii_dec (list_ascii_of_string "Id,Filename") newline)
      with 0%nat.
    transitivity (list_sum (map (fun name =>
                    count_occ Ascii.ascii_dec (list_ascii_of_string name) "010"%char)
                    names) = 0%nat); [lia|].
    rewrite list_sum_0, Forall_map. apply Forall_iff. intros name.
    unfold one_line. cbn beta. symmetry. apply count_occ_not_In.
Qed.

Lemma csv_windex_file_download_rows_witness :
  Py.split "010"%char (UXG.windexCsv (UXG.Windex "idx" ["chirp"; "barker"])) =
    ["Id,Filename"; "0,chirp"; "1,barker"; ""].
Proof.
  apply (csv_windex_file_download_rows (UXG.Windex "idx" ["chirp"; "barker"])
           ("memory:data " +:+ Py.dquote +:+ "idx.csv" +:+ Py.dquote +:+ ", ")).
  - right. left. reflexivity.
  - repeat (constructor; [vm_compute; intuition discriminate|]). constructor.
Defined.

(** ** The time vector of the pulse-shaping filters *)







(** ** The phase-shift-keying maps *)

Lemma pairs_checked (m : gmap string complex) (f : string * complex -> string * complex -> bool) :
  List.forallb (fun kc1 => List.forallb (f kc1) (map_to_list m)) (map_to_list m) = true ->
  forall k1 k2 c1 c2,
    m !! k1 = Some c1 -> m !! k2 = Some c2 -> f (k1, c1) (k2, c2) = true.
Proof.
  intros Hb k1 k2 c1 c2 H1 H2.
  apply elem_of_map_to_list, list_elem_of_In in H1, H2.
  rewrite List.forallb_forall in Hb. specialize (Hb _ H1).
  rewrite List.forallb_forall in Hb. exact (Hb _ H2).
Qed.

(** X25.  The default QPSK and 8-PSK maps number the points of the
    circle counter-clockwise in plain binary order: two points of the
    QPSK map are nearest neighbours (distance 2), and two points of
    the 8-PSK map are next to each other on the circle, exactly when
    the numbers their keys spell in base 2 differ by one modulo 4,
    respectively modulo 8.  Unlike the 16-QAM map, neither map is
    Gray-coded: the QPSK map has neighbours whose keys differ in both
    bits, the 8-PSK map neighbours whose keys differ in all three. *)
Theorem psk_default_maps_binary_order :
  (forall k1 k2 c1 c2,
      qpsk_default_map !! k1 = Some c1 ->
      qpsk_default_map !! k2 = Some c2 ->
      (Spec.neighbours c1 c2 = true <->
       (Spec.binary k2 - Spec.binary k1) mod 4 ∈ [1; 3])) /\
  (forall k1 k2 c1 c2,
      psk8_default_map !! k1 = Some c1 ->
      psk8_default_map !! k2 = Some c2 ->
      (Spec.adjacent8 c1 c2 = true <->
       (Spec.binary k2 - Spec.binary k1) mod 8 ∈ [1; 7])) /\
  (exists k1 k2 c1 c2,
      qpsk_default_map !! k1 = Some c1 /\ qpsk_default_map !! k2 = Some c2 /\
      Spec.neighbours c1 c2 = true /\ Spec.hamming k1 k2 = 2%nat) /\
  (exists k1 k2 c1 c2,
      psk8_default_map !! k1 = Some c1 /\ psk8_default_map !! k2 = Some c2 /\
      Spec.adjacent8 c1 c2 = true /\ Spec.hamming k1 k2 = 3%nat).
Proof.
  split; [|split; [|split]].
  - intros k1 k2 c1 c2 H1 H2.
    pose proof (pairs_checked qpsk_default_map
      (fun kc1 kc2 =>
         Bool.eqb (Spec.neighbours (snd kc1) (snd kc2))
           (bool_decide ((Spec.binary (fst kc2) - Spec.binary (fst kc1)) mod 4
                         ∈ [1; 3])))) as H.
    specialize (H ltac:(vm_compute; reflexivity) _ _ _ _ H1 H2).
    cbn [fst snd] in H. apply Bool.eqb_prop in H. rewrite H.
    apply bool_decide_eq_true.
  - intros k1 k2 c1 c2 H1 H2.
    pose proof (pairs_checked psk8_default_map
      (fun kc1 kc2 =>
         Bool.eqb (Spec.adjacent8 (snd kc1) (snd kc2))
           (bool_decide ((Spec.binary (fst kc2) - Spec.binary (fst kc1)) mod 8
                         ∈ [1; 7])))) as H.
    specialize (H ltac:(vm_compute; reflexivity) _ _ _ _ H1 H2).
    cbn [fst snd] in H. apply Bool.eqb_prop in H. rewrite H.
    apply bool_decide_eq_true.
  - exists "01", "10", (Complex (-1) 1), (Complex (-1) (-1)).
    repeat split; vm_compute; reflexivity.
  - exists "011", "100", (Complex (-0.707) 0.707), (Complex (-1) 0).
    repeat split; vm_compute; reflexivity.
Qed.

Lemma psk_default_maps_binary_order_witness :
  (Spec.binary "01" - Spec.binary "00") mod 4 ∈ [1; 3] /\
  Spec.adjacent8 (Complex 0.707 (-0.707)) (Complex 1 0) = true.
Proof.
  destruct psk_default_maps_binary_order as (H4 & H8 & _).
  split.
  - apply (H4 "00" "01" (Complex 1 1) (Complex (-1) 1)); reflexivity.
  - apply (H8 "111" "000" (Complex 0.707 (-0.707)) (Complex 1 0));
      [reflexivity | reflexivity | compute_done].
Defined.

(** ** Setting the resolution of the M8190A *)

Lemma check_resolution_reads_res a b :
  M8190A.res a = M8190A.res b ->
  snd (M8190A.check_resolution a) = snd (M8190A.check_resolution b).
Proof.
  intros E. unfold M8190A.check_resolution. rewrite E.
  destruct (String.eqb _ "wpr"); [reflexivity|].
  destruct (String.eqb _ "wsp"); [reflexivity|].
  destruct (Py.contains _ _); [|reflexivity].
  m8190a_attrs. rewrite E.
  destruct (Py.int_of_str _) as [n|e]; [|reflexivity].
  destruct (n =? 3); [reflexivity|].
  destruct (n =? 12); [reflexivity|].
  destruct ((n =? 24) || (n =? 48)); reflexivity.
Qed.

(** X26.  [M8190A.set_resolution] sends its command and its query
    whatever happens next, and takes the mode from the reply of the
    instrument (stripped, lower-cased), not from its argument; the
    outcome is the same for every previous state of the object.  A
    reply that names one of the six recognized modes, in any letter
    case and between any white space that [str.strip] removes (the
    separators 28 to 31 among it), succeeds and leaves the constants
    of a mode.  When [AwgError] is raised the object holds the new
    identifier next to the constants it had before. *)
Theorem set_resolution_follows_instrument :
  forall self res reply,
    let mode := Py.lower (Py.strip reply) in
    let after := fst (M8190A.set_resolution self res reply) in
    let outcome := snd (snd (M8190A.set_resolution self res reply)) in
    fst (snd (M8190A.set_resolution self res reply)) =
      [ Scpi.Write ("trace1:dwidth " +:+ res); Scpi.Query "trace1:dwidth?" ] /\
    M8190A.res after = mode /\
    (forall self', snd (snd (M8190A.set_resolution self' res reply)) = outcome) /\
    (mode ∈ recognized_modes ->
     outcome = Ok tt /\
     (M8190A.gran after, M8190A.minLen after, M8190A.binMult after,
      M8190A.binShift after)
     ∈ [(48, 240, 8191, 2); (64, 320, 2047, 4); (24, 120, 16383, 1)]) /\
    (outcome = Raise (AwgError "Invalid resolution selected.") ->
     after = M8190A.set_res self mode).
Proof.
  intros self res reply mode after outcome.
  subst after outcome. unfold M8190A.set_resolution. fold mode.
  destruct (M8190A.check_resolution (M8190A.set_res self mode))
    as [s o] eqn:E.
  cbn [fst snd].
  split; [reflexivity|]. split.
  { pose proof (check_resolution_res (M8190A.set_res self mode)) as H.
    rewrite E in H. exact H. }
  split.
  { intros self'.
    destruct (M8190A.check_resolution (M8190A.set_res self' mode))
      as [s' o'] eqn:E'. cbn [snd].
    pose proof (check_resolution_reads_res (M8190A.set_res self' mode)
                  (M8190A.set_res self mode) eq_refl) as H.
    rewrite E, E' in H. exact H. }
  split.
  - intros Hm.
    destruct (check_resolution_recognized (M8190A.set_res self mode) Hm)
      as (s' & Hs & _).
    rewrite E in Hs. injection Hs as -> ->. split; [reflexivity|].
    apply (check_resolution_format (M8190A.set_res self mode)), E.
  - intros ->.
    pose proof (check_resolution_outcome (M8190A.set_res self mode)) as H.
    rewrite E in H. cbn [fst snd] in H.
    destruct H as (_ & _ & [(_ & _ & H)|([msg Hm] & _)]); [exact H | discriminate Hm].
Qed.

Lemma set_resolution_follows_instrument_witness :
  snd (snd (M8190A.set_resolution (M8190A.Build "wpr" 48 240 8191 2 None None)
              "wpr" (String "031" "WSP "))) = Ok tt /\
  M8190A.gran (fst (M8190A.set_resolution
                      (M8190A.Build "wpr" 48 240 8191 2 None None) "wpr"
                      (String "031" "WSP "))) = 64.
Proof.
  destruct (set_resolution_follows_instrument
              (M8190A.Build "wpr" 48 240 8191 2 None None) "wpr"
              (String "031" "WSP "))
    as (_ & _ & _ & H & _).
  destruct H as [Ho Hf]; [compute_done|].
  split; [exact Ho | reflexivity].
Defined.
